(** * Story ingestion and content-addressed versioning (pandapages)

    A shallow embedding of the Go packages [storyingest] (the ingest
    normalizer: [splitFrontmatter], [extractBlockSource], [textContent],
    [wordCount], [ValidateSlug], [Ingest]) and [db] (the version store:
    [AdminPreview], [AdminDraftUpsert], [AdminPublish]), followed by the
    properties of the specification that concern them.

    Go strings are byte strings ([string]); Go [int]s are [Z] (every counter
    below is bounded by the length of an in-memory slice, so no wrap-around
    can occur); Go maps are [gmap]s; the relational tables are lists of rows
    in insertion order.  A statement of the store fails when PostgreSQL
    rejects the value of one of its parameters; failures of the connection
    and the deadline of the context are not modelled. *)

From Stdlib Require Import ZArith Ascii String List Lia Bool.
From stdpp Require Import base tactics option list gmap strings pretty.

Open Scope Z_scope.

(* ===================================================================== *)
(** ** The parts of Go's [strings] package the code uses *)
(* ===================================================================== *)

Module GoStrings.

Definition bytes (l : list nat) : string :=
  string_of_list_ascii (map ascii_of_nat l).

(** [strings.HasPrefix(s, p)] *)
Fixpoint HasPrefix (s p : string) : bool :=
  match p, s with
  | EmptyString, _ => true
  | String a p', String b s' => if Ascii.eqb a b then HasPrefix s' p' else false
  | String _ _, EmptyString => false
  end.

Fixpoint drop_bytes (n : nat) (s : string) : string :=
  match n, s with
  | O, _ => s
  | S n', String _ s' => drop_bytes n' s'
  | S _, EmptyString => EmptyString
  end.

(** The UTF-8 encodings of the code points for which [unicode.IsSpace]
    holds: U+0009..U+000D, U+0020, U+0085, U+00A0, U+1680,
    U+2000..U+200A, U+2028, U+2029, U+202F, U+205F, U+3000.  Go decodes
    a rune at each end of the string and rejects over-long encodings, so
    a leading (trailing) rune is a space exactly when one of these byte
    sequences is a prefix (suffix) of the string. *)
Definition space_runes : list string :=
  [ bytes [9]; bytes [10]; bytes [11]; bytes [12]; bytes [13]; bytes [32];
    bytes [194; 133]; bytes [194; 160]; bytes [225; 154; 128];
    bytes [226; 128; 128]; bytes [226; 128; 129]; bytes [226; 128; 130];
    bytes [226; 128; 131]; bytes [226; 128; 132]; bytes [226; 128; 133];
    bytes [226; 128; 134]; bytes [226; 128; 135]; bytes [226; 128; 136];
    bytes [226; 128; 137]; bytes [226; 128; 138]; bytes [226; 128; 168];
    bytes [226; 128; 169]; bytes [226; 128; 175]; bytes [226; 129; 159];
    bytes [227; 128; 128] ]%nat.

(** The cutset of [strings.TrimLeft(md, "\ufeff \t\r\n")]: the byte-order
    mark U+FEFF, space, tab, carriage return and line feed. *)
Definition bom_space_runes : list string :=
  [ bytes [239; 187; 191]; bytes [32]; bytes [9]; bytes [13]; bytes [10] ]%nat.

(** Remove one leading rune of [rs] from [s], if there is one. *)
Fixpoint strip_rune (rs : list string) (s : string) : option string :=
  match rs with
  | [] => None
  | r :: rs' =>
      if HasPrefix s r then Some (drop_bytes (String.length r) s)
      else strip_rune rs' s
  end.

Fixpoint trim_left_fuel (fuel : nat) (rs : list string) (s : string) : string :=
  match fuel with
  | O => s
  | S fuel' =>
      match strip_rune rs s with
      | Some s' => trim_left_fuel fuel' rs s'
      | None => s
      end
  end.

(** [strings.TrimLeft(s, cutset)], the cutset given by its runes. *)
Definition TrimLeft (s : string) (cutset : list string) : string :=
  trim_left_fuel (String.length s) cutset s.

Definition TrimRight (s : string) (cutset : list string) : string :=
  String.rev (TrimLeft (String.rev s) (map String.rev cutset)).

(** [strings.TrimSpace(s)] *)
Definition TrimSpace (s : string) : string :=
  TrimRight (TrimLeft s space_runes) space_runes.

Definition blank (s : string) : bool := bool_decide (TrimSpace s = "").

(** A text made of spaces only: a sequence of encodings of spaces. *)
Definition spaces (s : string) : Prop :=
  exists cut, Forall (fun r => r ∈ space_runes) cut /\ s = foldr append "" cut.

(** [strings.Split(s, sep)] for a one-byte separator. *)
Fixpoint split_go (sep : ascii) (cur : string) (s : string) : list string :=
  match s with
  | EmptyString => [String.rev cur]
  | String a s' =>
      if Ascii.eqb a sep then String.rev cur :: split_go sep EmptyString s'
      else split_go sep (String a cur) s'
  end.

Definition Split (s : string) (sep : ascii) : list string :=
  split_go sep EmptyString s.

(** [strings.Join(elems, sep)] *)
Fixpoint Join (elems : list string) (sep : string) : string :=
  match elems with
  | [] => ""
  | [e] => e
  | e :: rest => e +:+ sep +:+ Join rest sep
  end.

(** [strings.Repeat(s, n)]; the counts used are heading levels. *)
Fixpoint repeat_nat (s : string) (n : nat) : string :=
  match n with
  | O => ""
  | S n' => s +:+ repeat_nat s n'
  end.

Definition Repeat (s : string) (n : Z) : string := repeat_nat s (Z.to_nat n).

(** [strings.ReplaceAll(s, old, new)] for one-byte [old] and [new]. *)
Fixpoint ReplaceAll (s : string) (old new : ascii) : string :=
  match s with
  | EmptyString => EmptyString
  | String a s' =>
      String (if Ascii.eqb a old then new else a) (ReplaceAll s' old new)
  end.

(** [len(strings.Fields(s))]: the number of maximal runs of non-space
    runes.  [in_word] tells whether the bytes just before [s] belong to
    a field. *)
Fixpoint count_fields (fuel : nat) (in_word : bool) (s : string) : Z :=
  match fuel with
  | O => 0
  | S fuel' =>
      match s with
      | EmptyString => 0
      | String _ s' =>
          match strip_rune space_runes s with
          | Some rest => count_fields fuel' false rest
          | None => (if in_word then 0 else 1) + count_fields fuel' true s'
          end
      end
  end.

Definition FieldsLen (s : string) : Z :=
  count_fields (String.length s) false s.

(** The bytes of the lines of a text, each counted with its separator. *)
Fixpoint lines_size (ls : list string) : nat :=
  match ls with
  | [] => O
  | l :: ls' => (String.length l + 1 + lines_size ls')%nat
  end.

End GoStrings.

Import GoStrings.

(** Line feed and carriage return, and a text given by its lines. *)
Definition LF : ascii := "010"%char.
Definition CR : ascii := "013"%char.
Definition text_of_lines (ls : list string) : string := Join ls (String LF "").

(* ===================================================================== *)
(** ** Regular expressions, for [slugRe] *)
(* ===================================================================== *)

Module Regexp.

Inductive regex : Type :=
| Fail                                  (* matches nothing *)
| Eps                                   (* the empty string *)
| Class (ranges : list (ascii * ascii))  (* a byte in one of the ranges *)
| Cat (r1 r2 : regex)
| Alt (r1 r2 : regex)
| Star (r : regex).

Definition Plus (r : regex) : regex := Cat r (Star r).
Definition Lit (c : ascii) : regex := Class [(c, c)].

Definition in_range (c : ascii) (r : ascii * ascii) : bool :=
  (N.leb (N_of_ascii (fst r)) (N_of_ascii c)
   && N.leb (N_of_ascii c) (N_of_ascii (snd r)))%bool.

Fixpoint nullable (r : regex) : bool :=
  match r with
  | Fail => false
  | Eps => true
  | Class _ => false
  | Cat r1 r2 => nullable r1 && nullable r2
  | Alt r1 r2 => nullable r1 || nullable r2
  | Star _ => true
  end.

(** Brzozowski derivative of [r] by the byte [c]. *)
Fixpoint deriv (c : ascii) (r : regex) : regex :=
  match r with
  | Fail => Fail
  | Eps => Fail
  | Class rs => if existsb (in_range c) rs then Eps else Fail
  | Cat r1 r2 =>
      if nullable r1 then Alt (Cat (deriv c r1) r2) (deriv c r2)
      else Cat (deriv c r1) r2
  | Alt r1 r2 => Alt (deriv c r1) (deriv c r2)
  | Star r1 => Cat (deriv c r1) (Star r1)
  end.

(** The whole of [s] matches [r]: the pattern below is anchored by [^]
    and [$] (no multi-line flag), so [MatchString] asks exactly this. *)
Fixpoint full_match (r : regex) (s : string) : bool :=
  match s with
  | EmptyString => nullable r
  | String c s' => full_match (deriv c r) s'
  end.

End Regexp.

(* ===================================================================== *)
(** ** Outcomes of the two packages *)
(* ===================================================================== *)

(** The errors the code returns, and the run-time panics it can raise. *)
Inductive error : Type :=
| ErrTitleRequired          (* "title is required" *)
| ErrSlugRequired           (* "slug is required" *)
| ErrInvalidSlug            (* "invalid slug: use lowercase letters/numbers/hyphens ..." *)
| ErrMarkdownRequired       (* "markdown is required" *)
| ErrRender (msg : string)  (* an error of the markdown renderer *)
| ErrAccountRequired        (* "account required" *)
| ErrPublishArgsRequired    (* "account, slug and versionId required" *)
| ErrNoRows                 (* sql.ErrNoRows *)
| ErrIntegerOutOfRange      (* PostgreSQL: integer out of range *)
| ErrDataException          (* PostgreSQL: the value of a parameter is rejected
                               (SQLSTATE class 22: 22021, 22P02, 22P05, 22003) *)
| PanicSliceBounds          (* slice bounds out of range *)
| PanicRepeatCount.         (* strings.Repeat: negative Repeat count *)

Inductive result (A : Type) : Type :=
| Ok (a : A)
| Err (e : error).
Arguments Ok {A} a.
Arguments Err {A} e.

#[global] Instance result_ret : MRet result := fun A a => Ok a.
#[global] Instance result_bind : MBind result := fun A B f m =>
  match m with
  | Ok a => f a
  | Err e => Err e
  end.

(** A left-to-right loop whose body can fail. *)
Fixpoint foldM {S A : Type} (f : S -> A -> result S) (s : S) (l : list A) : result S :=
  match l with
  | [] => Ok s
  | a :: l' => s' ← f s a; foldM f s' l'
  end.

(* ===================================================================== *)
(** ** Package [storyingest] *)
(* ===================================================================== *)

Module StoryIngest.

Import Regexp.

(** The values of a [map[string]any] filled by the YAML decoder or by the
    JSON decoder of the request. *)
#[warnings="-register-all"]
Inductive any : Type :=
| AString (s : string)
| AInt (n : Z)
| AFloat (bits : Z)   (* a float64, by the 64 bits of its IEEE 754 encoding *)
| ABool (b : bool)
| ANil
| AList (l : list any)
| AMap (m : list (string * any)).

(** The values of the JSON objects the code marshals into a locator. *)
Inductive JSON : Type :=
| JStr (s : string)
| JInt (n : Z).

#[global] Instance JSON_eq_dec : EqDecision JSON.
Proof. solve_decision. Defined.

(** A [json.RawMessage] holding an object: the object itself (its byte
    encoding, keys sorted, is determined by it). *)
Abbreviation RawMessage := (gmap string JSON).

(** [text.Segment] of goldmark: a half-open range of the source. *)
Record TextSegment : Type := { Start : Z; Stop : Z }.

(** [ast.Node] of goldmark, as far as the code looks at it: the dynamic
    type of the node, the line segments of a block ([Lines()]), and the
    children. *)
Inductive NodeKind : Type :=
| KHeading (Level : Z)           (* *ast.Heading *)
| KParagraph                     (* *ast.Paragraph *)
| KText (Segment : TextSegment)  (* *ast.Text *)
| KOther (type_name : string).   (* any other node; its "%T" name *)

#[warnings="-register-all"]
Inductive Node : Type :=
| MkNode (kind : NodeKind) (lines : list TextSegment) (children : list Node).

Definition node_kind (n : Node) : NodeKind := let 'MkNode k _ _ := n in k.
Definition Lines (n : Node) : list TextSegment := let 'MkNode _ l _ := n in l.
(** [fmt.Sprintf("%T", n)] *)
Definition type_name_of (k : NodeKind) : string :=
  match k with
  | KHeading _ => "*ast.Heading"
  | KParagraph => "*ast.Paragraph"
  | KText _ => "*ast.Text"
  | KOther t => t
  end.

(** The external collaborators: the YAML decoder, the markdown renderer
    and block parser (goldmark) and SHA-256 and, for package [db], the JSON
    encoder and the checks that PostgreSQL makes on the value of a
    parameter.  They are deterministic functions of their input; nothing
    else is assumed about them. *)
Class Collaborators : Type := {
  (** the contents of [out] after [yaml.Unmarshal([]byte(text), &out)] on an
      empty [out] (the code discards the error) *)
  yaml_Unmarshal : string -> gmap string any;
  (** [goldmark.New(WithParserOptions(WithAutoHeadingID())).Convert] *)
  goldmark_Convert : string -> result string;
  (** the top-level children, in order, of
      [goldmark.New().Parser().Parse(text.NewReader(src))] *)
  goldmark_Parse : string -> list Node;
  (** [hex.EncodeToString] of [sha256.Sum256] *)
  sha256_hex : string -> string;
  (** [json.Marshal] of a map: the JSON text, or [None] when it returns an
      error (for a value that JSON cannot hold, such as a NaN or an
      infinite float) *)
  json_Marshal : gmap string any -> option string;
  (** PostgreSQL, for a text without a NUL byte: whether its bytes are well
      formed in the encoding of the database *)
  postgres_encoding : string -> bool;
  (** PostgreSQL: whether the text is valid input of type [uuid] *)
  postgres_uuid_in : string -> bool;
  (** PostgreSQL: whether the text is valid input of type [jsonb] *)
  postgres_jsonb_in : string -> bool
}.

Module Input.
Record t : Type := {
  Slug : string;
  Title : string;
  Author : string;
  Markdown : string;
  Language : string;
  SourceURL : string;
  Rights : option (gmap string any)   (* [None] is the nil map *)
}.
End Input.

Module Segment.
Record t : Type := {
  Ordinal : Z;
  Locator : RawMessage;
  Markdown : string;
  RenderedHTML : string;
  WordCount : Z
}.
End Segment.

Module Output.
Record t : Type := {
  Slug : string;
  Title : string;
  Author : string;
  Language : string;
  Source : gmap string any;
  Rights : gmap string any;
  Frontmatter : gmap string any;
  Markdown : string;
  RenderedHTML : string;
  ContentHash : string;
  Segments : list Segment.t
}.
End Output.

(** [[a-z0-9]] *)
Definition lower_alnum : regex :=
  Class [("a"%char, "z"%char); ("0"%char, "9"%char)].

(** [var slugRe = regexp.MustCompile(`^[a-z0-9]+(?:-[a-z0-9]+)*$`)] *)
Definition slugRe : regex :=
  Cat (Plus lower_alnum) (Star (Cat (Lit "-"%char) (Plus lower_alnum))).

(** [ValidateSlug]: [true] when the Go function returns [nil]. *)
Definition ValidateSlug (slug : string) : bool := full_match slugRe slug.

Section WithCollaborators.
Context {collab : Collaborators}.

(** The position of the first line [i >= 1] whose trimmed text is "---"
    (the loop of [splitFrontmatter]); [i] is the index of the head of [ls]. *)
Fixpoint find_closing (i : nat) (ls : list string) : option nat :=
  match ls with
  | [] => None
  | l :: ls' =>
      if decide (TrimSpace l = "---") then Some i else find_closing (S i) ls'
  end.

Definition splitFrontmatter (md : string) : gmap string any * string :=
  let s := TrimLeft md bom_space_runes in
  if negb (HasPrefix s (String "-" (String "-" (String "-" (String LF "")))))
     && negb (HasPrefix s (String "-" (String "-" (String "-" (String CR (String LF ""))))))
  then (∅, md)
  else
    let lines := Split s LF in
    if (length lines <? 3)%nat then (∅, md)
    else
      match find_closing 1 (drop 1 lines) with
      | None => (∅, md)
      | Some end_ =>
          let fmText := Join (take (end_ - 1) (drop 1 lines)) (String LF "") in
          let body := Join (drop (end_ + 1) lines) (String LF "") in
          (yaml_Unmarshal fmText, body)
      end.

Definition render (md : string) : result string := goldmark_Convert md.

(** [h, _ := render(md)]: on an error [render] returns the empty string. *)
Definition render_or_empty (md : string) : string :=
  match render md with
  | Ok h => h
  | Err _ => ""
  end.

Definition wordCount (s : string) : Z := FieldsLen (ReplaceAll s LF " "%char).

(** [src[seg.Start:seg.Stop]] *)
Definition slice (src : string) (seg : TextSegment) : result string :=
  if (0 <=? Start seg) && (Start seg <=? Stop seg)
     && (Stop seg <=? Z.of_nat (String.length src))
  then Ok (substring (Z.to_nat (Start seg)) (Z.to_nat (Stop seg - Start seg)) src)
  else Err PanicSliceBounds.

Fixpoint concat_slices (src : string) (segs : list TextSegment) : result string :=
  match segs with
  | [] => Ok ""
  | seg :: segs' =>
      part ← slice src seg;
      rest ← concat_slices src segs';
      Ok (part +:+ rest)
  end.

(** Every goldmark node has a [Lines] method and a block never returns a
    nil segment list, so of the guard only the emptiness test remains. *)
Definition extractBlockSource (src : string) (n : Node) : result string :=
  if decide (Lines n = []) then Ok ""
  else b ← concat_slices src (Lines n); Ok (TrimSpace b).

(** The local function [walk] of [textContent]: what it writes to the
    builder for the node [x]. *)
Fixpoint walk (src : string) (x : Node) : result string :=
  match x with
  | MkNode _ _ cs =>
      (fix walk_children (cs : list Node) : result string :=
         match cs with
         | [] => Ok ""
         | c :: cs' =>
             own ← match node_kind c with
                   | KText seg => slice src seg
                   | _ => Ok ""
                   end;
             below ← walk src c;
             rest ← walk_children cs';
             Ok (own +:+ below +:+ rest)
         end) cs
  end.

Definition textContent (src : string) (n : Node) : result string :=
  b ← walk src n; Ok (TrimSpace b).

(** [strings.Repeat("#", level)] *)
Definition hashes (level : Z) : result string :=
  if level <? 0 then Err PanicRepeatCount else Ok (Repeat "#" level).

(** The variables of the segmentation loop of [Ingest]. *)
Record loop_state : Type := {
  segs : list Segment.t;
  ordinal : Z;
  paraN : Z;
  headIdx : Z
}.

Definition loop_init : loop_state :=
  {| segs := []; ordinal := 1; paraN := 0; headIdx := 0 |}.

(** One iteration of [for n := doc.FirstChild(); n != nil; n = n.NextSibling()]. *)
Definition loop_body (src : string) (st : loop_state) (n : Node) : result loop_state :=
  match node_kind n with
  | KHeading level =>
      txt ← textContent src n;
      txt ← (if decide (txt = "") then extractBlockSource src n else Ok txt);
      pre ← hashes level;
      let md := pre +:+ " " +:+ txt in
      let h := render_or_empty md in
      let loc : RawMessage :=
        {[ "type" := JStr "heading"; "h" := JInt level; "index" := JInt (headIdx st) ]} in
      Ok {| segs := segs st ++
                    [ {| Segment.Ordinal := ordinal st; Segment.Locator := loc;
                         Segment.Markdown := md; Segment.RenderedHTML := h;
                         Segment.WordCount := wordCount txt |} ];
            ordinal := ordinal st + 1;
            paraN := paraN st;
            headIdx := headIdx st + 1 |}
  | KParagraph =>
      md ← extractBlockSource src n;
      md ← (if decide (md = "") then textContent src n else Ok md);
      let paraN' := paraN st + 1 in
      let h := render_or_empty md in
      let loc : RawMessage := {[ "type" := JStr "para"; "n" := JInt paraN' ]} in
      Ok {| segs := segs st ++
                    [ {| Segment.Ordinal := ordinal st; Segment.Locator := loc;
                         Segment.Markdown := md; Segment.RenderedHTML := h;
                         Segment.WordCount := wordCount md |} ];
            ordinal := ordinal st + 1;
            paraN := paraN';
            headIdx := headIdx st |}
  | k =>
      md ← extractBlockSource src n;
      if decide (TrimSpace md = "") then Ok st
      else
        let h := render_or_empty md in
        let loc : RawMessage :=
          {[ "type" := JStr "block"; "kind" := JStr (type_name_of k) ]} in
        Ok {| segs := segs st ++
                      [ {| Segment.Ordinal := ordinal st; Segment.Locator := loc;
                           Segment.Markdown := md; Segment.RenderedHTML := h;
                           Segment.WordCount := wordCount md |} ];
              ordinal := ordinal st + 1;
              paraN := paraN st;
              headIdx := headIdx st |}
  end.

(** The segments of a body: parse, then run the loop. *)
Definition segment (body : string) : result (list Segment.t) :=
  st ← foldM (loop_body body) loop_init (goldmark_Parse body); Ok (segs st).

(** [if v, ok := fm[key].(string); cur == "" && ok { cur = TrimSpace(v) }] *)
Definition fallback (fm : gmap string any) (key : string) (cur : string) : string :=
  match fm !! key with
  | Some (AString v) => if decide (cur = "") then TrimSpace v else cur
  | _ => cur
  end.

(** [for k, v := range fm { if _, exists := frontmatter[k]; !exists { frontmatter[k] = v } }] *)
Definition merge_frontmatter (frontmatter fm : gmap string any) : gmap string any :=
  map_fold (fun k v acc => match acc !! k with
                           | Some _ => acc
                           | None => <[k := v]> acc
                           end) frontmatter fm.

Definition Ingest (i : Input.t) : result Output.t :=
  let slug := TrimSpace (Input.Slug i) in
  let title := TrimSpace (Input.Title i) in
  let author := TrimSpace (Input.Author i) in
  if decide (title = "") then Err ErrTitleRequired
  else if decide (slug = "") then Err ErrSlugRequired
  else if negb (ValidateSlug slug) then Err ErrInvalidSlug
  else if decide (TrimSpace (Input.Markdown i) = "") then Err ErrMarkdownRequired
  else
    let '(fm, body) := splitFrontmatter (Input.Markdown i) in
    (* prefer explicit fields, fall back to frontmatter *)
    let title := fallback fm "title" title in
    let author := fallback fm "author" author in
    let language := fallback fm "language" (Input.Language i) in
    let sourceURL := fallback fm "sourceUrl" (Input.SourceURL i) in
    let language := if decide (language = "") then "en-GB" else language in
    let rights := default ∅ (Input.Rights i) in
    (* full render *)
    fullHTML ← render body;
    let hash := sha256_hex body in
    (* AST segmentation (blocks) *)
    segments ← segment body;
    let source : gmap string any :=
      if decide (TrimSpace sourceURL = "") then ∅
      else {[ "url" := AString (TrimSpace sourceURL) ]} in
    let frontmatter : gmap string any :=
      {[ "title" := AString title; "author" := AString author;
         "language" := AString language ]} in
    let frontmatter :=
      if decide (TrimSpace sourceURL = "") then frontmatter
      else <[ "sourceUrl" := AString (TrimSpace sourceURL) ]> frontmatter in
    (* merge fm into frontmatter (but keep explicit fields authoritative) *)
    let frontmatter := merge_frontmatter frontmatter fm in
    Ok {| Output.Slug := slug;
          Output.Title := title;
          Output.Author := author;
          Output.Language := language;
          Output.Source := source;
          Output.Rights := rights;
          Output.Frontmatter := frontmatter;
          Output.Markdown := body;
          Output.RenderedHTML := fullHTML;
          Output.ContentHash := hash;
          Output.Segments := segments |}.

End WithCollaborators.

End StoryIngest.

(* ===================================================================== *)
(** ** Package [model]: the request and response types *)
(* ===================================================================== *)

Module Model.

Import StoryIngest.

Module AdminPreviewRequest.
Record t : Type := { Markdown : string }.
End AdminPreviewRequest.

Module AdminSegment.
Record t : Type := {
  Ordinal : Z;
  Locator : RawMessage;
  RenderedHTML : string
}.
End AdminSegment.

Module AdminPreviewResponse.
Record t : Type := {
  RenderedHTML : string;
  Segments : list AdminSegment.t
}.
End AdminPreviewResponse.

(** The [*string] fields are [option string]; [None] is the nil pointer. *)
Module AdminDraftUpsertRequest.
Record t : Type := {
  Slug : string;
  Title : string;
  Author : option string;
  Markdown : string;
  Language : option string;
  SourceURL : option string;
  Rights : option (gmap string any)
}.
End AdminDraftUpsertRequest.

Module AdminDraftUpsertResponse.
Record t : Type := {
  StoryID : string;
  StoryVersionID : string;
  Slug : string;
  Version : Z;
  SegmentsCount : Z;
  RenderedHTML : string
}.
End AdminDraftUpsertResponse.

End Model.

(* ===================================================================== *)
(** ** The relational store *)
(* ===================================================================== *)

Module Schema.

Import StoryIngest.

(** A primary key of type UUID.  [gen_random_uuid()] is modelled by a key
    that no row of the table has yet ([fresh]); [uuid_text] is the text of
    a key as the Go code scans and sends it. *)
Definition UUID : Type := nat.

Definition uuid_text (id : UUID) : string :=
  String "{" (pretty id +:+ String "}" "").

Definition fresh (used : list UUID) : UUID := S (foldr Nat.max O used).

(** Table [stories] (migrations 00002, 00005 and 00012). *)
Module StoryRow.
Record t : Type := {
  id : UUID;
  account_id : string;
  slug : string;
  title : string;
  author : option string;
  language : string;
  source : gmap string any;
  rights : gmap string any;
  is_published : bool;
  published_version_id : option UUID;
  draft_version_id : option UUID;
  updated_at : Z
}.
End StoryRow.

(** Table [story_versions]. *)
Module VersionRow.
Record t : Type := {
  id : UUID;
  story_id : UUID;
  version : Z;
  frontmatter : gmap string any;
  markdown : string;
  rendered_html : string;
  content_hash : string
}.
End VersionRow.

(** Table [story_sections]. *)
Module SectionRow.
Record t : Type := {
  id : UUID;
  story_version_id : UUID;
  kind : string;
  title : option string;
  ordinal : Z
}.
End SectionRow.

(** Table [story_segments]. *)
Module SegmentRow.
Record t : Type := {
  id : UUID;
  story_version_id : UUID;
  section_id : option UUID;
  ordinal : Z;
  locator : RawMessage;
  markdown : string;
  rendered_html : string;
  word_count : Z
}.
End SegmentRow.

(** Table [contributors]. *)
Module ContributorRow.
Record t : Type := { id : UUID; name : string }.
End ContributorRow.

(** Table [story_contributors]. *)
Module StoryContributorRow.
Record t : Type := { story_id : UUID; contributor_id : UUID; role : string }.
End StoryContributorRow.

(** The database: each table is the list of its rows, oldest first. *)
Record DB : Type := {
  stories : list StoryRow.t;
  story_versions : list VersionRow.t;
  story_sections : list SectionRow.t;
  story_segments : list SegmentRow.t;
  contributors : list ContributorRow.t;
  story_contributors : list StoryContributorRow.t
}.

Definition empty_db : DB :=
  {| stories := []; story_versions := []; story_sections := [];
     story_segments := []; contributors := []; story_contributors := [] |}.

(** A transaction body: it reads and writes the tables and may fail; the
    caller commits the final state or, on an error, keeps the old one. *)
Definition Tx (A : Type) : Type := DB -> result (A * DB).

Definition tx_ret {A : Type} (a : A) : Tx A := fun db => Ok (a, db).

Definition tx_bind {A B : Type} (m : Tx A) (f : A -> Tx B) : Tx B :=
  fun db => match m db with
            | Ok (a, db') => f a db'
            | Err e => Err e
            end.

End Schema.

Declare Scope tx_scope.
Delimit Scope tx_scope with tx.
Notation "'let*' x := m 'in' k" := (Schema.tx_bind m (fun x => k))
  (at level 10, x pattern, m at level 100, k at level 200) : tx_scope.

(* ===================================================================== *)
(** ** Package [db]: preview, draft upsert, publish *)
(* ===================================================================== *)

Module Store.

Import StoryIngest Model Schema.

(** *** Writing a table *)

Definition with_stories (l : list StoryRow.t) (db : DB) : DB :=
  {| stories := l; story_versions := story_versions db;
     story_sections := story_sections db; story_segments := story_segments db;
     contributors := contributors db; story_contributors := story_contributors db |}.

Definition with_story_versions (l : list VersionRow.t) (db : DB) : DB :=
  {| stories := stories db; story_versions := l;
     story_sections := story_sections db; story_segments := story_segments db;
     contributors := contributors db; story_contributors := story_contributors db |}.

Definition with_story_sections (l : list SectionRow.t) (db : DB) : DB :=
  {| stories := stories db; story_versions := story_versions db;
     story_sections := l; story_segments := story_segments db;
     contributors := contributors db; story_contributors := story_contributors db |}.

Definition with_story_segments (l : list SegmentRow.t) (db : DB) : DB :=
  {| stories := stories db; story_versions := story_versions db;
     story_sections := story_sections db; story_segments := l;
     contributors := contributors db; story_contributors := story_contributors db |}.

Definition with_contributors (l : list ContributorRow.t) (db : DB) : DB :=
  {| stories := stories db; story_versions := story_versions db;
     story_sections := story_sections db; story_segments := story_segments db;
     contributors := l; story_contributors := story_contributors db |}.

Definition with_story_contributors (l : list StoryContributorRow.t) (db : DB) : DB :=
  {| stories := stories db; story_versions := story_versions db;
     story_sections := story_sections db; story_segments := story_segments db;
     contributors := contributors db; story_contributors := l |}.

(** [BTRIM(s)]: strip the spaces at both ends. *)
Definition BTRIM (s : string) : string := TrimRight (TrimLeft s [" "]) [" "].

(** [NULLIF(s, '')] *)
Definition NULLIF_empty (s : string) : option string :=
  if decide (s = "") then None else Some s.

(** *** The values the server takes

    PostgreSQL checks the value of every parameter of a statement against
    its type before the statement runs.  When it rejects one, the statement
    has no effect and the call of the driver returns the error; the code
    returns it, and the deferred [tx.Rollback()] undoes the transaction. *)

Definition NUL : ascii := "000"%char.

Fixpoint has_NUL (s : string) : bool :=
  match s with
  | EmptyString => false
  | String c s' => Ascii.eqb c NUL || has_NUL s'
  end.

(** A parameter of a 32-bit [INT] column. *)
Definition int4_in (n : Z) : bool := (-2147483648 <=? n) && (n <=? 2147483647).

(** A statement whose parameters the server takes ([ok]) or rejects. *)
Definition checked {A : Type} (ok : bool) (m : Tx A) : Tx A :=
  fun db => if ok then m db else Err ErrDataException.

Section Statements.
Context {collab : Collaborators}.

(** A parameter of type [TEXT]: a text with a NUL byte is rejected under
    every encoding (SQLSTATE 22021), and so is a text that is not well
    formed in the encoding of the database. *)
Definition text_in (s : string) : bool := negb (has_NUL s) && postgres_encoding s.

(** [string(j)] after [j, _ := json.Marshal(m)]: the code drops the error,
    and the bytes are nil when there is one. *)
Definition marshalled (m : gmap string any) : string := default "" (json_Marshal m).

(** A parameter cast by [$n::jsonb]; the empty text is no JSON value. *)
Definition jsonb_in (t : string) : bool :=
  negb (bool_decide (t = "")) && postgres_jsonb_in t.

(** The parameters [$1] to [$7] of the story upsert; [$1] goes to the
    column [account_id] of type [uuid]. *)
Definition story_params_in (accountID : string) (ing : Output.t) : bool :=
  postgres_uuid_in accountID
  && text_in (Output.Slug ing) && text_in (Output.Title ing)
  && text_in (Output.Author ing) && text_in (Output.Language ing)
  && jsonb_in (marshalled (Output.Source ing))
  && jsonb_in (marshalled (Output.Rights ing)).

(** The parameters [$3] to [$6] of the insert into [story_versions]; [$1]
    and [$2] are a key and a number that the server has returned. *)
Definition version_params_in (ing : Output.t) : bool :=
  jsonb_in (marshalled (Output.Frontmatter ing))
  && text_in (Output.Markdown ing) && text_in (Output.RenderedHTML ing)
  && text_in (Output.ContentHash ing).

(** The parameters [$2] and [$3] of the insert into [story_sections]. *)
Definition section_params_in (title : option string) (ordinal : Z) : bool :=
  match title with Some t => text_in t | None => true end && int4_in ordinal.

(** The parameters [$3] and [$5] to [$7] of the insert into
    [story_segments]; the locator [$4] is a JSON object that [Ingest] has
    written from fixed keys, integers and the names of Go types. *)
Definition segment_params_in (seg : Segment.t) : bool :=
  int4_in (Segment.Ordinal seg)
  && text_in (Segment.Markdown seg) && text_in (Segment.RenderedHTML seg)
  && int4_in (Segment.WordCount seg).

(** *** The SQL statements *)

(** [WHERE account_id=$1 AND slug=$2] *)
Definition story_key (accountID slug : string) (s : StoryRow.t) : bool :=
  bool_decide (StoryRow.account_id s = accountID ∧ StoryRow.slug s = slug).

(** [INSERT INTO stories (...) VALUES (...) ON CONFLICT (account_id, slug)
    DO UPDATE SET title=..., author=..., language=..., source=...,
    rights=..., updated_at=now() RETURNING id] *)
Definition upsert_story (now : Z) (accountID : string) (ing : Output.t) : Tx UUID :=
  checked (story_params_in accountID ing) (fun db =>
    let author := NULLIF_empty (BTRIM (Output.Author ing)) in
    match find (story_key accountID (Output.Slug ing)) (stories db) with
    | Some s0 =>
        let upd (s : StoryRow.t) : StoryRow.t :=
          if story_key accountID (Output.Slug ing) s then
            {| StoryRow.id := StoryRow.id s;
               StoryRow.account_id := StoryRow.account_id s;
               StoryRow.slug := StoryRow.slug s;
               StoryRow.title := Output.Title ing;
               StoryRow.author := author;
               StoryRow.language := Output.Language ing;
               StoryRow.source := Output.Source ing;
               StoryRow.rights := Output.Rights ing;
               StoryRow.is_published := StoryRow.is_published s;
               StoryRow.published_version_id := StoryRow.published_version_id s;
               StoryRow.draft_version_id := StoryRow.draft_version_id s;
               StoryRow.updated_at := now |}
          else s in
        Ok (StoryRow.id s0, with_stories (map upd (stories db)) db)
    | None =>
        let id := fresh (map StoryRow.id (stories db)) in
        let row :=
          {| StoryRow.id := id;
             StoryRow.account_id := accountID;
             StoryRow.slug := Output.Slug ing;
             StoryRow.title := Output.Title ing;
             StoryRow.author := author;
             StoryRow.language := Output.Language ing;
             StoryRow.source := Output.Source ing;
             StoryRow.rights := Output.Rights ing;
             StoryRow.is_published := false;
             StoryRow.published_version_id := None;
             StoryRow.draft_version_id := None;
             StoryRow.updated_at := now |} in
        Ok (id, with_stories (stories db ++ [row]) db)
    end).

(** [WHERE story_id = $1 AND content_hash = $2] *)
Definition version_key (storyID : UUID) (hash : string) (v : VersionRow.t) : bool :=
  bool_decide (VersionRow.story_id v = storyID ∧ VersionRow.content_hash v = hash).

(** [SELECT id, version, rendered_html FROM story_versions
    WHERE story_id = $1 AND content_hash = $2 LIMIT 1]; [None] is
    [sql.ErrNoRows]. *)
Definition select_version_by_hash (storyID : UUID) (hash : string)
  : Tx (option VersionRow.t) :=
  checked (text_in hash)
    (fun db => Ok (find (version_key storyID hash) (story_versions db), db)).

(** [UPDATE stories SET draft_version_id=$2, updated_at=now() WHERE id=$1] *)
Definition set_draft (now : Z) (versionID : UUID) (s : StoryRow.t) : StoryRow.t :=
  {| StoryRow.id := StoryRow.id s;
     StoryRow.account_id := StoryRow.account_id s;
     StoryRow.slug := StoryRow.slug s;
     StoryRow.title := StoryRow.title s;
     StoryRow.author := StoryRow.author s;
     StoryRow.language := StoryRow.language s;
     StoryRow.source := StoryRow.source s;
     StoryRow.rights := StoryRow.rights s;
     StoryRow.is_published := StoryRow.is_published s;
     StoryRow.published_version_id := StoryRow.published_version_id s;
     StoryRow.draft_version_id := Some versionID;
     StoryRow.updated_at := now |}.

Definition update_draft (now : Z) (storyID versionID : UUID) : Tx unit :=
  fun db =>
    Ok (tt, with_stories
              (map (fun s => if decide (StoryRow.id s = storyID)
                             then set_draft now versionID s else s)
                   (stories db)) db).

(** [UPDATE stories SET published_version_id=$2, is_published=true,
    updated_at=now() WHERE id=$1] *)
Definition set_published (now : Z) (versionID : UUID) (s : StoryRow.t) : StoryRow.t :=
  {| StoryRow.id := StoryRow.id s;
     StoryRow.account_id := StoryRow.account_id s;
     StoryRow.slug := StoryRow.slug s;
     StoryRow.title := StoryRow.title s;
     StoryRow.author := StoryRow.author s;
     StoryRow.language := StoryRow.language s;
     StoryRow.source := StoryRow.source s;
     StoryRow.rights := StoryRow.rights s;
     StoryRow.is_published := true;
     StoryRow.published_version_id := Some versionID;
     StoryRow.draft_version_id := StoryRow.draft_version_id s;
     StoryRow.updated_at := now |}.

Definition update_published (now : Z) (storyID versionID : UUID) (db : DB) : DB :=
  with_stories
    (map (fun s => if decide (StoryRow.id s = storyID)
                   then set_published now versionID s else s)
         (stories db)) db.

(** [INSERT INTO contributors (name) VALUES ($1)
    ON CONFLICT (name) DO UPDATE SET name = EXCLUDED.name RETURNING id].
    The code runs it with the author that the story upsert of the same
    transaction has sent as [$4], a text the server has taken. *)
Definition upsert_contributor (name : string) : Tx UUID :=
  fun db =>
    match find (fun c => bool_decide (ContributorRow.name c = name)) (contributors db) with
    | Some c => Ok (ContributorRow.id c, db)
    | None =>
        let id := fresh (map ContributorRow.id (contributors db)) in
        Ok (id, with_contributors
                  (contributors db ++
                   [ {| ContributorRow.id := id; ContributorRow.name := name |} ]) db)
    end.

(** [INSERT INTO story_contributors (story_id, contributor_id, role)
    VALUES ($1,$2,'author') ON CONFLICT DO NOTHING] *)
Definition insert_story_contributor (storyID contribID : UUID) : Tx unit :=
  fun db =>
    if existsb (fun l => bool_decide (StoryContributorRow.story_id l = storyID
                                      ∧ StoryContributorRow.contributor_id l = contribID
                                      ∧ StoryContributorRow.role l = "author"))
               (story_contributors db)
    then Ok (tt, db)
    else Ok (tt, with_story_contributors
                   (story_contributors db ++
                    [ {| StoryContributorRow.story_id := storyID;
                         StoryContributorRow.contributor_id := contribID;
                         StoryContributorRow.role := "author" |} ]) db).

(** [MAX(x)] over the selected rows; [None] is NULL (no row). *)
Definition MAX (l : list Z) : option Z :=
  match l with
  | [] => None
  | x :: l' => Some (foldr Z.max x l')
  end.

Definition versions_of (storyID : UUID) (db : DB) : list VersionRow.t :=
  filter (fun v => VersionRow.story_id v = storyID) (story_versions db).

(** [SELECT COALESCE(MAX(version), 0) + 1 FROM story_versions WHERE story_id = $1];
    the column is a 32-bit [INT]. *)
Definition select_next_version (storyID : UUID) : Tx Z :=
  fun db =>
    let next := default 0 (MAX (map VersionRow.version (versions_of storyID db))) + 1 in
    if 2147483647 <? next then Err ErrIntegerOutOfRange else Ok (next, db).

(** [INSERT INTO story_versions (story_id, version, frontmatter, markdown,
    rendered_html, content_hash) VALUES (...) RETURNING id].  Neither
    unique constraint of the table can fire where the code runs this
    statement: the version is above every version of the story, and the
    lookup by hash has just found no row. *)
Definition insert_version (storyID : UUID) (version : Z) (ing : Output.t) : Tx UUID :=
  checked (version_params_in ing) (fun db =>
    let id := fresh (map VersionRow.id (story_versions db)) in
    Ok (id, with_story_versions
              (story_versions db ++
               [ {| VersionRow.id := id;
                    VersionRow.story_id := storyID;
                    VersionRow.version := version;
                    VersionRow.frontmatter := Output.Frontmatter ing;
                    VersionRow.markdown := Output.Markdown ing;
                    VersionRow.rendered_html := Output.RenderedHTML ing;
                    VersionRow.content_hash := Output.ContentHash ing |} ]) db)).

(** [INSERT INTO story_sections (story_version_id, kind, title, ordinal)
    VALUES ($1, kind, title, ordinal) RETURNING id] *)
Definition insert_section (versionID : UUID) (kind : string)
    (title : option string) (ordinal : Z) : Tx UUID :=
  checked (section_params_in title ordinal) (fun db =>
    let id := fresh (map SectionRow.id (story_sections db)) in
    Ok (id, with_story_sections
              (story_sections db ++
               [ {| SectionRow.id := id;
                    SectionRow.story_version_id := versionID;
                    SectionRow.kind := kind;
                    SectionRow.title := title;
                    SectionRow.ordinal := ordinal |} ]) db)).

(** [INSERT INTO story_segments (story_version_id, section_id, ordinal,
    locator, markdown, rendered_html, word_count) VALUES (...)] *)
Definition insert_segment (versionID : UUID) (sectionArg : option UUID)
    (seg : Segment.t) : Tx unit :=
  checked (segment_params_in seg) (fun db =>
    let id := fresh (map SegmentRow.id (story_segments db)) in
    Ok (tt, with_story_segments
              (story_segments db ++
               [ {| SegmentRow.id := id;
                    SegmentRow.story_version_id := versionID;
                    SegmentRow.section_id := sectionArg;
                    SegmentRow.ordinal := Segment.Ordinal seg;
                    SegmentRow.locator := Segment.Locator seg;
                    SegmentRow.markdown := Segment.Markdown seg;
                    SegmentRow.rendered_html := Segment.RenderedHTML seg;
                    SegmentRow.word_count := Segment.WordCount seg |} ]) db)).

End Statements.

(** A loop whose body is a sequence of statements. *)
Fixpoint tx_fold {S A : Type} (f : S -> A -> Tx S) (s : S) (l : list A) : Tx S :=
  match l with
  | [] => tx_ret s
  | a :: l' => tx_bind (f s a) (fun s' => tx_fold f s' l')
  end.

(** [tx.Commit()], with the deferred [tx.Rollback()] on the error paths. *)
Definition commit {A : Type} (db : DB) (m : Tx A) : result A * DB :=
  match m db with
  | Ok (a, db') => (Ok a, db')
  | Err e => (Err e, db)
  end.

(** *** The Go functions *)

Local Open Scope tx_scope.

(** [type headingLoc struct { Type string; H int; Index int }] *)
Record headingLoc : Type := { Type_ : string; H : Z; Index : Z }.

(** [json.Unmarshal(raw, &loc)] on a zero [loc]: the decoded struct, and
    whether the returned error is nil.  A field whose JSON value has the
    wrong type keeps its zero value and makes the call return an error;
    the other fields are still decoded.  (The locators are written by
    [Ingest], with exactly these lower-case keys.) *)
Definition Unmarshal_headingLoc (raw : RawMessage) : headingLoc * bool :=
  let '(ty, ok1) := match raw !! "type" with
                    | Some (JStr s) => (s, true)
                    | Some (JInt _) => ("", false)
                    | None => ("", true)
                    end in
  let '(h, ok2) := match raw !! "h" with
                   | Some (JInt n) => (n, true)
                   | Some (JStr _) => (0, false)
                   | None => (0, true)
                   end in
  let '(ix, ok3) := match raw !! "index" with
                    | Some (JInt n) => (n, true)
                    | Some (JStr _) => (0, false)
                    | None => (0, true)
                    end in
  ({| Type_ := ty; H := h; Index := ix |}, ok1 && ok2 && ok3).

Definition is_heading (level : Z) (loc : headingLoc) : bool :=
  bool_decide (Type_ loc = "heading" ∧ H loc = level).

(** The closure [headingText] of [AdminDraftUpsert]. *)
Definition headingText (md : string) : string :=
  let s := TrimSpace md in
  let s := TrimLeft s ["#"] in
  TrimSpace s.

(** [type chapter struct { StartSegOrdinal int; Title string;
    SectionOrdinal int; ID string }] *)
Record chapter : Type := {
  StartSegOrdinal : Z;
  Title : string;
  SectionOrdinal : Z;
  ID : string
}.

(** [len(chapters)] *)
Definition len {A : Type} (l : list A) : Z := Z.of_nat (length l).

(** The body of the first [for _, seg := range ing.Segments]. *)
Definition chapters_step (chapters : list chapter) (seg : Segment.t) : list chapter :=
  let '(loc, ok) := Unmarshal_headingLoc (Segment.Locator seg) in
  if negb ok then chapters
  else if is_heading 2 loc then
    let t := headingText (Segment.Markdown seg) in
    let t := if decide (TrimSpace t = "")
             then "Chapter " +:+ pretty (len chapters + 1) else t in
    chapters ++ [ {| StartSegOrdinal := Segment.Ordinal seg;
                     Title := t;
                     SectionOrdinal := len chapters + 1;
                     ID := "" |} ]
  else chapters.

Definition collect_chapters (segments : list Segment.t) : list chapter :=
  fold_left chapters_step segments [].

Section WithCollaborators.
Context {collab : Collaborators}.

(** The body of [for i := range chapters]: insert the section, record its
    id in the chapter and under the chapter's first ordinal. *)
Definition sections_step (versionID : UUID)
    (st : list chapter * gmap Z UUID) (c : chapter)
  : Tx (list chapter * gmap Z UUID) :=
  let* secID := insert_section versionID "chapter" (Some (Title c)) (SectionOrdinal c) in
  tx_ret (fst st ++ [ {| StartSegOrdinal := StartSegOrdinal c; Title := Title c;
                         SectionOrdinal := SectionOrdinal c; ID := uuid_text secID |} ],
          <[ StartSegOrdinal c := secID ]> (snd st)).

(** The [if len(chapters) == 0 { ... } else { ... }] that fills
    [sectionIDByStart]. *)
Definition insert_sections (versionID : UUID) (chapters : list chapter)
  : Tx (list chapter * gmap Z UUID) :=
  match chapters with
  | [] =>
      (* No chapters -> one generic section for whole story *)
      let* sectionID := insert_section versionID "section" None 1 in
      tx_ret (chapters, <[ 1 := sectionID ]> ∅)
  | _ => tx_fold (sections_step versionID) ([], ∅) chapters
  end.

(** The section of one segment: [sectionArg] ([None] is nil, a NULL
    [section_id]) and the new [currentChapterID] ([None] is the empty
    string). *)
Definition section_of (no_chapters : bool) (sectionIDByStart : gmap Z UUID)
    (currentChapterID : option UUID) (seg : Segment.t)
  : option UUID * option UUID :=
  let loc := fst (Unmarshal_headingLoc (Segment.Locator seg)) in
  if no_chapters then (sectionIDByStart !! 1, currentChapterID)
  else
    (* H1 title stays unsectioned; H2 starts a chapter; everything after
       belongs to current chapter *)
    if is_heading 1 loc then (None, currentChapterID)
    else if is_heading 2 loc then
      match sectionIDByStart !! Segment.Ordinal seg with
      | Some id => (Some id, Some id)
      | None => (None, currentChapterID)
      end
    else
      match currentChapterID with
      | Some id => (Some id, currentChapterID)
      | None => (None, currentChapterID)
      end.

(** The body of the second [for _, seg := range ing.Segments]. *)
Definition segments_step (versionID : UUID) (no_chapters : bool)
    (sectionIDByStart : gmap Z UUID) (currentChapterID : option UUID)
    (seg : Segment.t) : Tx (option UUID) :=
  let '(sectionArg, current') :=
    section_of no_chapters sectionIDByStart currentChapterID seg in
  let* _ := insert_segment versionID sectionArg seg in
  tx_ret current'.

(** The contributor link of both paths of [AdminDraftUpsert]. *)
Definition link_author (storyID : UUID) (author : string) : Tx unit :=
  if decide (TrimSpace author = "") then tx_ret tt
  else
    let* contribID := upsert_contributor author in
    if decide (TrimSpace (uuid_text contribID) = "") then tx_ret tt
    else insert_story_contributor storyID contribID.

Definition AdminPreview (req : AdminPreviewRequest.t)
  : result AdminPreviewResponse.t :=
  out ← Ingest {| Input.Slug := "preview";
                  Input.Title := "Preview";
                  Input.Author := "";
                  Input.Markdown := AdminPreviewRequest.Markdown req;
                  Input.Language := "en-GB";
                  Input.SourceURL := "";
                  Input.Rights := None |};
  let segs :=
    map (fun seg => {| AdminSegment.Ordinal := Segment.Ordinal seg;
                       AdminSegment.Locator := Segment.Locator seg;
                       AdminSegment.RenderedHTML := Segment.RenderedHTML seg |})
        (Output.Segments out) in
  Ok {| AdminPreviewResponse.RenderedHTML := Output.RenderedHTML out;
        AdminPreviewResponse.Segments := segs |}.

(** The [storyingest.Input] that [AdminDraftUpsert] builds from a request. *)
Definition upsert_input (req : AdminDraftUpsertRequest.t) : Input.t :=
  let slug := TrimSpace (AdminDraftUpsertRequest.Slug req) in
  let title := TrimSpace (AdminDraftUpsertRequest.Title req) in
  let md := AdminDraftUpsertRequest.Markdown req in
  let author := match AdminDraftUpsertRequest.Author req with
                | Some a => TrimSpace a
                | None => ""
                end in
  let lang := match AdminDraftUpsertRequest.Language req with
              | Some l => if decide (TrimSpace l = "") then "en-GB" else TrimSpace l
              | None => "en-GB"
              end in
  let srcURL := match AdminDraftUpsertRequest.SourceURL req with
                | Some u => TrimSpace u
                | None => ""
                end in
  {| Input.Slug := slug; Input.Title := title; Input.Author := author;
     Input.Markdown := md; Input.Language := lang; Input.SourceURL := srcURL;
     Input.Rights := AdminDraftUpsertRequest.Rights req |}.

(** The new-content path, from "next version number" to the contributor
    link. *)
Definition new_version_tx (now : Z) (storyID : UUID) (ing : Output.t)
  : Tx AdminDraftUpsertResponse.t :=
  (* next version number (only for new content) *)
  let* nextVersion := select_next_version storyID in
  let* versionID := insert_version storyID nextVersion ing in
  (* Sections (chapters) + segment section assignment *)
  let chapters := collect_chapters (Output.Segments ing) in
  let* secs := insert_sections versionID chapters in
  let sectionIDByStart := snd secs in
  let* _ := tx_fold (segments_step versionID (bool_decide (chapters = [])) sectionIDByStart)
                    None (Output.Segments ing) in
  (* update draft pointer ONLY (publish is separate endpoint) *)
  let* _ := update_draft now storyID versionID in
  (* contributors: ensure author exists & link if provided *)
  let* _ := link_author storyID (Output.Author ing) in
  tx_ret {| AdminDraftUpsertResponse.StoryID := uuid_text storyID;
            AdminDraftUpsertResponse.StoryVersionID := uuid_text versionID;
            AdminDraftUpsertResponse.Slug := Output.Slug ing;
            AdminDraftUpsertResponse.Version := nextVersion;
            AdminDraftUpsertResponse.SegmentsCount := len (Output.Segments ing);
            AdminDraftUpsertResponse.RenderedHTML := Output.RenderedHTML ing |}.

(** The idempotent path: the content exists for this story, reuse it. *)
Definition reuse_version_tx (now : Z) (storyID : UUID) (ing : Output.t)
    (existing : VersionRow.t) : Tx AdminDraftUpsertResponse.t :=
  (* point draft at the existing version *)
  let* _ := update_draft now storyID (VersionRow.id existing) in
  (* contributors link (still useful even if content existed) *)
  let* _ := link_author storyID (Output.Author ing) in
  tx_ret {| AdminDraftUpsertResponse.StoryID := uuid_text storyID;
            AdminDraftUpsertResponse.StoryVersionID := uuid_text (VersionRow.id existing);
            AdminDraftUpsertResponse.Slug := Output.Slug ing;
            AdminDraftUpsertResponse.Version := VersionRow.version existing;
            AdminDraftUpsertResponse.SegmentsCount := len (Output.Segments ing);
            AdminDraftUpsertResponse.RenderedHTML := VersionRow.rendered_html existing |}.

(** The transaction of [AdminDraftUpsert]. *)
Definition draft_upsert_tx (now : Z) (accountID : string) (ing : Output.t)
  : Tx AdminDraftUpsertResponse.t :=
  (* story upsert (account-scoped) *)
  let* storyID := upsert_story now accountID ing in
  (* Idempotency: if this exact content already exists for this story, reuse it *)
  let* found := select_version_by_hash storyID (Output.ContentHash ing) in
  match found with
  | Some existing =>
      if decide (TrimSpace (uuid_text (VersionRow.id existing)) = "")
      then new_version_tx now storyID ing
      else reuse_version_tx now storyID ing existing
  | None => new_version_tx now storyID ing
  end.

(** [AdminDraftUpsert]: [now] is the transaction's [now()]; the result is
    the returned pair and the database after the call. *)
Definition AdminDraftUpsert (db : DB) (now : Z) (accountID : string)
    (req : AdminDraftUpsertRequest.t)
  : result AdminDraftUpsertResponse.t * DB :=
  let accountID := TrimSpace accountID in
  if decide (accountID = "") then (Err ErrAccountRequired, db)
  else
    match Ingest (upsert_input req) with
    | Err e => (Err e, db)
    | Ok ing => commit db (draft_upsert_tx now accountID ing)
    end.

End WithCollaborators.

(** [WHERE id=$1 AND story_id=$2]; [$1] is the text sent by the caller,
    compared with the text of the key.  (PostgreSQL answers a text that is
    no UUID with an error of its own; like [sql.ErrNoRows] it is returned
    before the UPDATE.) *)
Definition version_of_story (versionID : string) (storyID : UUID) (v : VersionRow.t) : bool :=
  bool_decide (uuid_text (VersionRow.id v) = versionID ∧ VersionRow.story_id v = storyID).

(** [AdminPublish]: the returned error ([Ok tt] is nil) and the database
    after the call. *)
Definition AdminPublish (db : DB) (now : Z) (accountID slug versionID : string)
  : result unit * DB :=
  let accountID := TrimSpace accountID in
  let slug := TrimSpace slug in
  let versionID := TrimSpace versionID in
  if decide (accountID = "" ∨ slug = "" ∨ versionID = "")
  then (Err ErrPublishArgsRequired, db)
  else
    match find (story_key accountID slug) (stories db) with
    | None => (Err ErrNoRows, db)
    | Some s =>
        let storyID := StoryRow.id s in
        match find (version_of_story versionID storyID) (story_versions db) with
        | None => (Err ErrNoRows, db)
        | Some v => (Ok tt, update_published now storyID (VersionRow.id v) db)
        end
    end.

End Store.

(* ===================================================================== *)
(** ** Stand-ins for the collaborators, to run the code on examples *)
(* ===================================================================== *)

(** The properties below hold for every [Collaborators]; to evaluate the
    code on concrete manuscripts this module supplies small executable
    ones: a decoder of flat [key: value] blocks, a renderer that wraps its
    input, a block parser for ATX headings, thematic breaks ([***]),
    one-line HTML blocks and paragraphs separated by blank lines, an
    injective hash (the body in hexadecimal digits, two for a byte), an
    encoder of JSON that fails on a float that is not
    finite, and a server whose database takes every byte but NUL
    (encoding [SQL_ASCII]) and the keys written as 8-4-4-4-12 hexadecimal
    digits. *)
Module Demo.

Import Regexp StoryIngest.

Fixpoint split_colon (key : string) (s : string) : option (string * string) :=
  match s with
  | EmptyString => None
  | String c s' =>
      if Ascii.eqb c ":"%char then Some (String.rev key, s')
      else split_colon (String c key) s'
  end.

Definition demo_yaml (text : string) : gmap string any :=
  fold_left (fun acc line =>
               match split_colon "" line with
               | Some (k, v) => <[ TrimSpace k := AString (TrimSpace v) ]> acc
               | None => acc
               end)
            (Split text LF) ∅.

Definition demo_render (md : string) : result string :=
  Ok ("<div>" +:+ md +:+ "</div>").

Fixpoint leading_hashes (s : string) : nat :=
  match s with
  | String c s' => if Ascii.eqb c "#"%char then S (leading_hashes s') else O
  | EmptyString => O
  end.

(** An ATX heading on the line [line] that starts at offset [off]; an
    empty heading has no line segment and no child. *)
Definition heading_of (off : Z) (line : string) : option Node :=
  let k := leading_hashes line in
  if ((1 <=? k) && (k <=? 6))%nat then
    let rest := drop_bytes k line in
    if bool_decide (rest = "") || HasPrefix rest " " then
      let content := TrimRight (TrimLeft rest [" "]) [" "] in
      let start := off + Z.of_nat k
                   + Z.of_nat (String.length rest - String.length (TrimLeft rest [" "])) in
      let seg := {| Start := start; Stop := start + Z.of_nat (String.length content) |} in
      if bool_decide (content = "")
      then Some (MkNode (KHeading (Z.of_nat k)) [] [])
      else Some (MkNode (KHeading (Z.of_nat k)) [seg] [MkNode (KText seg) [] []])
    else None
  else None.

Record pstate : Type := {
  off : Z;                                       (* offset of the next line *)
  para : list (TextSegment * TextSegment);       (* open paragraph: lines, texts *)
  out : list Node
}.

Definition flush (st : pstate) : list Node :=
  match para st with
  | [] => out st
  | p => out st ++ [ MkNode KParagraph (map fst p)
                       (map (fun s => MkNode (KText (snd s)) [] []) p) ]
  end.

(** A thematic break has no line segment and no child; an HTML block
    holds its line, and starts where no paragraph is open. *)
Definition block_of (open : bool) (off next : Z) (line : string) : option Node :=
  if bool_decide (TrimSpace line = "***")
  then Some (MkNode (KOther "*ast.ThematicBreak") [] [])
  else if negb open && HasPrefix line "<"
  then Some (MkNode (KOther "*ast.HTMLBlock") [ {| Start := off; Stop := next |} ] [])
  else None.

Definition parse_line (last : bool) (st : pstate) (line : string) : pstate :=
  let stop := off st + Z.of_nat (String.length line) in
  let next := if last then stop else stop + 1 in
  if bool_decide (TrimSpace line = "") then
    {| off := next; para := []; out := flush st |}
  else
    match block_of (negb (bool_decide (para st = []))) (off st) next line,
          heading_of (off st) line with
    | Some b, _ => {| off := next; para := []; out := flush st ++ [b] |}
    | None, Some h => {| off := next; para := []; out := flush st ++ [h] |}
    | None, None =>
        {| off := next;
           para := para st ++ [ ({| Start := off st; Stop := next |},
                                 {| Start := off st; Stop := stop |}) ];
           out := out st |}
    end.

Fixpoint parse_lines (st : pstate) (lines : list string) : list Node :=
  match lines with
  | [] => flush st
  | [l] => flush (parse_line true st l)
  | l :: ls => parse_lines (parse_line false st l) ls
  end.

Definition demo_parse (src : string) : list Node :=
  parse_lines {| off := 0; para := []; out := [] |} (Split src LF).

Definition hex_digit (n : nat) : ascii :=
  ascii_of_nat (if (n <? 10)%nat then 48 + n else 87 + n).

Fixpoint demo_sha (body : string) : string :=
  match body with
  | EmptyString => EmptyString
  | String c body' =>
      let n := nat_of_ascii c in
      String (hex_digit (n / 16)) (String (hex_digit (n mod 16)) (demo_sha body'))
  end.

Definition quote : string := String "034"%char "".

(** The exponent of a float that is not finite has all its eleven bits set. *)
Definition finite (bits : Z) : bool :=
  negb (Z.land (Z.shiftr bits 52) 2047 =? 2047).

Fixpoint demo_json (v : any) : option string :=
  match v with
  | AString s => Some (quote +:+ s +:+ quote)
  | AInt n => Some (pretty n)
  | AFloat bits => if finite bits then Some ("float64:" +:+ pretty bits) else None
  | ABool b => Some (if b then "true" else "false")
  | ANil => Some "null"
  | AList l =>
      t ← (fix items (l : list any) : option string :=
             match l with
             | [] => Some ""
             | v :: l' => a ← demo_json v; b ← items l'; Some (a +:+ "," +:+ b)
             end) l;
      Some ("[" +:+ t +:+ "]")
  | AMap m =>
      t ← (fix fields (m : list (string * any)) : option string :=
             match m with
             | [] => Some ""
             | (k, v) :: m' =>
                 a ← demo_json v; b ← fields m';
                 Some (quote +:+ k +:+ quote +:+ ":" +:+ a +:+ "," +:+ b)
             end) m;
      Some ("{" +:+ t +:+ "}")
  end.

Definition demo_marshal (m : gmap string any) : option string :=
  demo_json (AMap (map_to_list m)).

Definition hex : regex :=
  Class [("0"%char, "9"%char); ("a"%char, "f"%char); ("A"%char, "F"%char)].

Fixpoint times (n : nat) (r : regex) : regex :=
  match n with
  | O => Eps
  | S n' => Cat r (times n' r)
  end.

Definition uuid_form : regex :=
  let dash := Lit "-"%char in
  Cat (times 8 hex) (Cat dash (Cat (times 4 hex) (Cat dash (Cat (times 4 hex)
    (Cat dash (Cat (times 4 hex) (Cat dash (times 12 hex)))))))).

#[export] Instance demo : Collaborators := {|
  yaml_Unmarshal := demo_yaml;
  goldmark_Convert := demo_render;
  goldmark_Parse := demo_parse;
  sha256_hex := demo_sha;
  json_Marshal := demo_marshal;
  postgres_encoding := fun _ => true;
  postgres_uuid_in := full_match uuid_form;
  postgres_jsonb_in := fun t => negb (Store.has_NUL t)
|}.

End Demo.

(* ===================================================================== *)
(** ** Notions used to state the properties of [Ingest] *)
(* ===================================================================== *)

Module IngestSpec.

Import StoryIngest.

Definition is_heading_node (n : Node) : bool :=
  match node_kind n with KHeading _ => true | _ => false end.

Definition is_paragraph_node (n : Node) : bool :=
  match node_kind n with KParagraph => true | _ => false end.

(** How many of the blocks [l] satisfy [p]. *)
Fixpoint count (p : Node -> bool) (l : list Node) : Z :=
  match l with
  | [] => 0
  | n :: l' => (if p n then 1 else 0) + count p l'
  end.

(** A block is dropped when it is neither a heading nor a paragraph and
    the text of its lines is blank. *)
Definition dropped {collab : Collaborators} (src : string) (n : Node) : bool :=
  negb (is_heading_node n) && negb (is_paragraph_node n)
  && match extractBlockSource src n with
     | Ok md => bool_decide (TrimSpace md = "")
     | Err _ => false
     end.

(** The locator of the block [n] that follows the top-level blocks
    [before]: a heading carries its level and the number of headings
    before it, a paragraph one more than the number of paragraphs before
    it, any other block its kind. *)
Definition locator_of (before : list Node) (n : Node) : RawMessage :=
  match node_kind n with
  | KHeading level =>
      {[ "type" := JStr "heading"; "h" := JInt level;
         "index" := JInt (count is_heading_node before) ]}
  | KParagraph =>
      {[ "type" := JStr "para"; "n" := JInt (count is_paragraph_node before + 1) ]}
  | k => {[ "type" := JStr "block"; "kind" := JStr (type_name_of k) ]}
  end.

(** The locators of the blocks of [nodes] that are not dropped, in order. *)
Fixpoint locators {collab : Collaborators} (src : string) (before nodes : list Node)
  : list RawMessage :=
  match nodes with
  | [] => []
  | n :: rest =>
      (if dropped src n then [] else [locator_of before n])
      ++ locators src (before ++ [n]) rest
  end.

(** The locators of the blocks of [nodes] that yield a segment, in order;
    [keep] tells of a block whether it does. *)
Fixpoint kept_locators (keep : Node -> bool) (before nodes : list Node)
  : list RawMessage :=
  match nodes with
  | [] => []
  | n :: rest =>
      (if keep n then [locator_of before n] else [])
      ++ kept_locators keep (before ++ [n]) rest
  end.

(** The ranges of the source that a block holds: its own lines and, below
    it, the lines of the blocks and the segments of the text nodes. *)
Fixpoint ranges (n : Node) : list TextSegment :=
  match n with
  | MkNode k ls cs =>
      ls ++ match k with KText seg => [seg] | _ => [] end
         ++ (fix below (cs : list Node) : list TextSegment :=
               match cs with
               | [] => []
               | c :: cs' => ranges c ++ below cs'
               end) cs
  end.

(** A block has no visible text when each of these ranges is blank. *)
Definition no_visible_text (src : string) (n : Node) : Prop :=
  Forall (fun seg => exists s, slice src seg = Ok s /\ TrimSpace s = "") (ranges n).

(** A manuscript with a heading, a thematic break, an HTML block and a
    paragraph. *)
Definition blocks_input : Input.t :=
  {| Input.Slug := "fox"; Input.Title := "Fox"; Input.Author := "";
     Input.Markdown :=
       text_of_lines ["# Fox"; ""; "***"; ""; "<hr class=x>"; ""; "Once upon a time."];
     Input.Language := ""; Input.SourceURL := ""; Input.Rights := None |}.

(** A bullet list with the items "milk" and "eggs", as the parser returns
    it for the lines [- milk] and [- eggs] at offset 7: the list and its
    items are containers without lines of their own; the text is held by
    the text blocks below them. *)
Definition milk_list : Node :=
  let item (start stop line_stop : Z) :=
    MkNode (KOther "*ast.ListItem") []
      [ MkNode (KOther "*ast.TextBlock") [ {| Start := start; Stop := line_stop |} ]
          [ MkNode (KText {| Start := start; Stop := stop |}) [] [] ] ] in
  MkNode (KOther "*ast.List") [] [ item 9 13 14; item 16 20 20 ].

Definition milk_body : string := text_of_lines ["Intro"; ""; "- milk"; "- eggs"].

(** The manuscript of the specification's first scenario. *)
Definition fox_markdown : string :=
  text_of_lines ["# Fox"; ""; "Once upon a time."].

Definition fox_input : Input.t :=
  {| Input.Slug := "fox"; Input.Title := "Fox"; Input.Author := "";
     Input.Markdown := fox_markdown; Input.Language := "";
     Input.SourceURL := ""; Input.Rights := None |}.

(** A manuscript whose title is given by its frontmatter only. *)
Definition titled_by_frontmatter : Input.t :=
  {| Input.Slug := "fox"; Input.Title := ""; Input.Author := "";
     Input.Markdown :=
       text_of_lines ["---"; "title: Fox"; "---"; "Once upon a time."];
     Input.Language := ""; Input.SourceURL := ""; Input.Rights := None |}.

(** A level-2 heading without text, as the parser returns it for [##]. *)
Definition empty_heading : Node := MkNode (KHeading 2) [] [].

Definition empty_heading_input : Input.t :=
  {| Input.Slug := "fox"; Input.Title := "Fox"; Input.Author := "";
     Input.Markdown := "##"; Input.Language := "";
     Input.SourceURL := ""; Input.Rights := None |}.

(** A manuscript that opens a frontmatter block and never closes it. *)
Definition unclosed_input : Input.t :=
  {| Input.Slug := "fox"; Input.Title := "Fox"; Input.Author := "";
     Input.Markdown := text_of_lines ["---"; "title: Vixen"; ""; "Once upon a time."];
     Input.Language := ""; Input.SourceURL := ""; Input.Rights := None |}.

(** The same manuscript without the delimiter line. *)
Definition undelimited_input : Input.t :=
  {| Input.Slug := "fox"; Input.Title := "Fox"; Input.Author := "";
     Input.Markdown := text_of_lines ["title: Vixen"; ""; "Once upon a time."];
     Input.Language := ""; Input.SourceURL := ""; Input.Rights := None |}.

(** A manuscript with a closed frontmatter block and an explicit author. *)
Definition tagged_input : Input.t :=
  {| Input.Slug := "fox"; Input.Title := " Fox "; Input.Author := "Aesop";
     Input.Markdown :=
       text_of_lines ["---"; "title: Vixen"; "tags: bedtime";
                      "sourceUrl: https://example.org/fox"; "---";
                      "Once upon a time."];
     Input.Language := ""; Input.SourceURL := ""; Input.Rights := None |}.

End IngestSpec.

(* ===================================================================== *)
(** ** Notions used to state the properties of the version store *)
(* ===================================================================== *)

Module StoreSpec.

Import StoryIngest Model Schema Store.

(** [m] leaves the observation [f] of the database as it is. *)
Definition preserves {A X : Type} (f : DB -> X) (m : Tx A) : Prop :=
  forall db a db', m db = Ok (a, db') -> f db' = f db.

(** The published side of the table [stories]: for every row its key,
    its published pointer and its published flag. *)
Definition published_view (db : DB) : list (UUID * option UUID * bool) :=
  map (fun s => (StoryRow.id s, StoryRow.published_version_id s, StoryRow.is_published s))
      (stories db).

(** The content tables. *)
Definition content_view (db : DB)
  : list VersionRow.t * list SectionRow.t * list SegmentRow.t :=
  (story_versions db, story_sections db, story_segments db).

(** The story row that a request for [(accountID, slug)] addresses. *)
Definition story_for (db : DB) (accountID slug : string) : option StoryRow.t :=
  find (story_key accountID slug) (stories db).

(** The key of the story of [(accountID, slug)]: the key of its row, or
    the key its row will get when the first ingest creates it. *)
Definition story_id_for (db : DB) (accountID slug : string) : UUID :=
  match story_for db accountID slug with
  | Some s => StoryRow.id s
  | None => fresh (map StoryRow.id (stories db))
  end.

(** The [sectionArg] of every segment, as the second loop over the
    segments computes them from [currentChapterID = cur] on. *)
Fixpoint section_args (no_chapters : bool) (sectionIDByStart : gmap Z UUID)
    (cur : option UUID) (segments : list Segment.t) : list (option UUID) :=
  match segments with
  | [] => []
  | seg :: rest =>
      let r := section_of no_chapters sectionIDByStart cur seg in
      fst r :: section_args no_chapters sectionIDByStart (snd r) rest
  end.

(** What a segment row stores of a segment. *)
Definition segment_content (seg : Segment.t) : Z * RawMessage * string * string * Z :=
  (Segment.Ordinal seg, Segment.Locator seg, Segment.Markdown seg,
   Segment.RenderedHTML seg, Segment.WordCount seg).

Definition row_content (r : SegmentRow.t) : Z * RawMessage * string * string * Z :=
  (SegmentRow.ordinal r, SegmentRow.locator r, SegmentRow.markdown r,
   SegmentRow.rendered_html r, SegmentRow.word_count r).

Definition section_content (r : SectionRow.t) : string * option string * Z :=
  (SectionRow.kind r, SectionRow.title r, SectionRow.ordinal r).

(** The section rows [secs] and the map [m] are what [insert_sections]
    adds for the version [versionID] and the chapters [chapters] to a
    table that holds [old]: the rows have new, distinct keys; without
    chapters there is the one implicit section, filed under ordinal 1;
    otherwise there is one "chapter" row per chapter, in order, filed under
    the first ordinal of the chapter (the last chapter wins a shared
    ordinal). *)
Definition sections_inserted (versionID : UUID) (old : list SectionRow.t)
    (chapters : list chapter) (m : gmap Z UUID) (secs : list SectionRow.t) : Prop :=
  Forall (fun r => SectionRow.story_version_id r = versionID) secs
  /\ NoDup (map SectionRow.id secs)
  /\ (forall r, r ∈ secs -> SectionRow.id r ∉ map SectionRow.id old)
  /\ match chapters with
     | [] =>
         exists r, secs = [r] /\ section_content r = ("section", None, 1)
                   /\ m = {[ 1 := SectionRow.id r ]}
     | _ =>
         map section_content secs
         = map (fun c => ("chapter", Some (Title c), SectionOrdinal c)) chapters
         /\ (forall k c r,
               chapters !! k = Some c -> secs !! k = Some r ->
               (forall j c', (k < j)%nat -> chapters !! j = Some c' ->
                             StartSegOrdinal c' <> StartSegOrdinal c) ->
               m !! StartSegOrdinal c = Some (SectionRow.id r))
         /\ (forall z, (forall c, c ∈ chapters -> StartSegOrdinal c <> z) -> m !! z = None)
     end.

(** The server takes the parameters of every statement that stores the
    content of a new version: the version row, one section row per chapter
    and one segment row per segment. *)
Definition content_accepted {collab : Collaborators} (ing : Output.t) : Prop :=
  version_params_in ing = true
  /\ Forall (fun c => section_params_in (Some (Title c)) (SectionOrdinal c) = true)
            (collect_chapters (Output.Segments ing))
  /\ Forall (fun seg => segment_params_in seg = true) (Output.Segments ing).

(** [COALESCE(MAX(version), 0) + 1] over the versions of a story. *)
Definition next_version_of (db : DB) (storyID : UUID) : Z :=
  default 0 (MAX (map VersionRow.version (versions_of storyID db))) + 1.

(** The row that the new-content path adds to [story_versions]. *)
Definition new_version_row (db : DB) (storyID : UUID) (ing : Output.t) : VersionRow.t :=
  {| VersionRow.id := fresh (map VersionRow.id (story_versions db));
     VersionRow.story_id := storyID;
     VersionRow.version := next_version_of db storyID;
     VersionRow.frontmatter := Output.Frontmatter ing;
     VersionRow.markdown := Output.Markdown ing;
     VersionRow.rendered_html := Output.RenderedHTML ing;
     VersionRow.content_hash := Output.ContentHash ing |}.

(** The rows of [stories] after the draft pointer of [storyID] is set. *)
Definition stories_with_draft (now : Z) (storyID versionID : UUID)
    (l : list StoryRow.t) : list StoryRow.t :=
  map (fun s => if decide (StoryRow.id s = storyID)
                then set_draft now versionID s else s) l.

(** The response of the idempotent path. *)
Definition reuse_response (storyID : UUID) (ing : Output.t) (existing : VersionRow.t)
  : AdminDraftUpsertResponse.t :=
  {| AdminDraftUpsertResponse.StoryID := uuid_text storyID;
     AdminDraftUpsertResponse.StoryVersionID := uuid_text (VersionRow.id existing);
     AdminDraftUpsertResponse.Slug := Output.Slug ing;
     AdminDraftUpsertResponse.Version := VersionRow.version existing;
     AdminDraftUpsertResponse.SegmentsCount := len (Output.Segments ing);
     AdminDraftUpsertResponse.RenderedHTML := VersionRow.rendered_html existing |}.

(** The response of the new-content path. *)
Definition new_response (storyID : UUID) (ing : Output.t) (row : VersionRow.t)
  : AdminDraftUpsertResponse.t :=
  {| AdminDraftUpsertResponse.StoryID := uuid_text storyID;
     AdminDraftUpsertResponse.StoryVersionID := uuid_text (VersionRow.id row);
     AdminDraftUpsertResponse.Slug := Output.Slug ing;
     AdminDraftUpsertResponse.Version := VersionRow.version row;
     AdminDraftUpsertResponse.SegmentsCount := len (Output.Segments ing);
     AdminDraftUpsertResponse.RenderedHTML := Output.RenderedHTML ing |}.

(** The segment is a heading of level [level], by its locator. *)
Definition is_heading_segment (level : Z) (seg : Segment.t) : bool :=
  bool_decide (Segment.Locator seg !! "type" = Some (JStr "heading")
               /\ Segment.Locator seg !! "h" = Some (JInt level)).

(** The title of the [n]-th chapter, started by the heading [seg]: the
    text of the heading, or "Chapter n" when that text is blank. *)
Definition chapter_title (n : Z) (seg : Segment.t) : string :=
  let t := headingText (Segment.Markdown seg) in
  if decide (TrimSpace t = "") then "Chapter " +:+ pretty n else t.

(** The chapters started by the level-2 headings [h2], numbered from [n]. *)
Fixpoint chapters_from (n : Z) (h2 : list Segment.t) : list chapter :=
  match h2 with
  | [] => []
  | seg :: rest =>
      {| StartSegOrdinal := Segment.Ordinal seg; Title := chapter_title n seg;
         SectionOrdinal := n; ID := "" |} :: chapters_from (n + 1) rest
  end.

(** How many chapters have started at or before the segment at position
    [j]: the number of level-2 headings among the first [j + 1] segments. *)
Definition chapters_upto (segments : list Segment.t) (j : nat) : nat :=
  length (filter (fun sg => is_heading_segment 2 sg) (take (S j) segments)).

(** The section of a segment when [c] chapters have started at or before
    it: none for a level-1 heading and before the first chapter, else the
    section of the latest chapter. *)
Definition owner (secs : list SectionRow.t) (c : nat) (seg : Segment.t) : option UUID :=
  if is_heading_segment 1 seg then None
  else match c with
       | O => None
       | S k => SectionRow.id <$> secs !! k
       end.

(** The sections of the segments [rest] when [c] chapters have started
    before them. *)
Fixpoint owners (secs : list SectionRow.t) (c : nat) (rest : list Segment.t)
  : list (option UUID) :=
  match rest with
  | [] => []
  | seg :: rest' =>
      let c' := if is_heading_segment 2 seg then S c else c in
      owner secs c' seg :: owners secs c' rest'
  end.

(** A manuscript with a title, a preface and two chapters, the second
    with a blank heading. *)
Definition chapters_request : AdminDraftUpsertRequest.t :=
  {| AdminDraftUpsertRequest.Slug := "hare"; AdminDraftUpsertRequest.Title := "Hare";
     AdminDraftUpsertRequest.Author := None;
     AdminDraftUpsertRequest.Markdown :=
       text_of_lines ["# Hare"; ""; "A preface."; ""; "## The race"; "";
                      "The hare ran."; ""; "##"; ""; "The tortoise won."];
     AdminDraftUpsertRequest.Language := None;
     AdminDraftUpsertRequest.SourceURL := None;
     AdminDraftUpsertRequest.Rights := None |}.

(** A sequence of ingests by one account, one after the other: the
    results, and the database after the last one. *)
Fixpoint run_upserts {collab : Collaborators} (db : DB) (now : Z) (accountID : string)
    (reqs : list AdminDraftUpsertRequest.t)
  : list (result AdminDraftUpsertResponse.t) * DB :=
  match reqs with
  | [] => ([], db)
  | req :: rest =>
      let r := AdminDraftUpsert db now accountID req in
      let rs := run_upserts (snd r) now accountID rest in
      (fst r :: fst rs, snd rs)
  end.

(** The position of the first occurrence of [h] in [l]. *)
Fixpoint index_of (h : string) (l : list string) : option nat :=
  match l with
  | [] => None
  | x :: l' => if decide (x = h) then Some O else S <$> index_of h l'
  end.

(** The distinct hashes of [hashes], in the order of their first
    occurrence, after those already [seen]. *)
Fixpoint distinct_after (seen hashes : list string) : list string :=
  match hashes with
  | [] => seen
  | h :: rest =>
      match index_of h seen with
      | Some _ => distinct_after seen rest
      | None => distinct_after (seen ++ [h]) rest
      end
  end.

(** The version numbers a gapless numbering of distinct content gives to
    the manuscripts with the content hashes [hashes], ingested in this
    order after the distinct contents [seen]: a content seen before keeps
    its number, a new content takes the next free number. *)
Fixpoint expected_versions (seen hashes : list string) : list Z :=
  match hashes with
  | [] => []
  | h :: rest =>
      match index_of h seen with
      | Some k => (Z.of_nat k + 1) :: expected_versions seen rest
      | None => (Z.of_nat (length seen) + 1) :: expected_versions (seen ++ [h]) rest
      end
  end.

(** The versions of [storyID] hold the contents [seen], in this order,
    under the numbers 1, 2, ..., without a gap. *)
Definition numbered (db : DB) (storyID : UUID) (seen : list string) : Prop :=
  map VersionRow.content_hash (versions_of storyID db) = seen
  /\ map VersionRow.version (versions_of storyID db) = seqZ 1 (Z.of_nat (length seen)).

(** Four ingests of one story: a body, an edited body, the first body
    again (with another author), and a third body. *)
Definition numbering_requests : list AdminDraftUpsertRequest.t :=
  let req (author : option string) (body : string) :=
    {| AdminDraftUpsertRequest.Slug := "hare"; AdminDraftUpsertRequest.Title := "Hare";
       AdminDraftUpsertRequest.Author := author;
       AdminDraftUpsertRequest.Markdown := body;
       AdminDraftUpsertRequest.Language := None;
       AdminDraftUpsertRequest.SourceURL := None;
       AdminDraftUpsertRequest.Rights := None |} in
  [ req None "The hare ran."; req None "The hare slept.";
    req (Some "Aesop") "The hare ran."; req None "The tortoise won." ].

(** The segment structure shown by the preview, computed by [Ingest] and
    stored in a segment row: ordinal, locator and rendered HTML. *)
Definition admin_view (a : AdminSegment.t) : Z * RawMessage * string :=
  (AdminSegment.Ordinal a, AdminSegment.Locator a, AdminSegment.RenderedHTML a).

Definition segment_view (seg : Segment.t) : Z * RawMessage * string :=
  (Segment.Ordinal seg, Segment.Locator seg, Segment.RenderedHTML seg).

Definition row_view (r : SegmentRow.t) : Z * RawMessage * string :=
  (SegmentRow.ordinal r, SegmentRow.locator r, SegmentRow.rendered_html r).

(** The normalized manuscript of a request under the stand-in
    collaborators (for the examples; the empty record if [Ingest] fails). *)
Definition demo_output (req : AdminDraftUpsertRequest.t) : Output.t :=
  match Ingest (collab := Demo.demo) (upsert_input req) with
  | Ok out => out
  | Err _ =>
      {| Output.Slug := ""; Output.Title := ""; Output.Author := "";
         Output.Language := ""; Output.Source := ∅; Output.Rights := ∅;
         Output.Frontmatter := ∅; Output.Markdown := ""; Output.RenderedHTML := "";
         Output.ContentHash := ""; Output.Segments := [] |}
  end.

(** The account of the examples. *)
Definition acct : string := "7d9f2c1e-5b3a-4e8f-9a6b-0c1d2e3f4a5b".

(** Two stories of one account; the first has one version. *)
Definition fox_story : StoryRow.t :=
  {| StoryRow.id := 1%nat; StoryRow.account_id := acct; StoryRow.slug := "fox";
     StoryRow.title := "Fox"; StoryRow.author := None; StoryRow.language := "en-GB";
     StoryRow.source := ∅; StoryRow.rights := ∅; StoryRow.is_published := true;
     StoryRow.published_version_id := Some 1%nat;
     StoryRow.draft_version_id := Some 1%nat; StoryRow.updated_at := 0 |}.

Definition owl_story : StoryRow.t :=
  {| StoryRow.id := 2%nat; StoryRow.account_id := acct; StoryRow.slug := "owl";
     StoryRow.title := "Owl"; StoryRow.author := None; StoryRow.language := "en-GB";
     StoryRow.source := ∅; StoryRow.rights := ∅; StoryRow.is_published := false;
     StoryRow.published_version_id := None;
     StoryRow.draft_version_id := None; StoryRow.updated_at := 0 |}.

Definition fox_version : VersionRow.t :=
  {| VersionRow.id := 1%nat; VersionRow.story_id := 1%nat; VersionRow.version := 1;
     VersionRow.frontmatter := ∅;
     VersionRow.markdown := text_of_lines ["# Fox"; ""; "Once upon a time."];
     VersionRow.rendered_html := "<h1>Fox</h1><p>Once upon a time.</p>";
     VersionRow.content_hash :=
       Demo.demo_sha (text_of_lines ["# Fox"; ""; "Once upon a time."]) |}.

Definition two_story_db : DB :=
  {| stories := [fox_story; owl_story]; story_versions := [fox_version];
     story_sections := []; story_segments := [];
     contributors := []; story_contributors := [] |}.

(** The request of the specification's first scenario. *)
Definition fox_request : AdminDraftUpsertRequest.t :=
  {| AdminDraftUpsertRequest.Slug := "fox"; AdminDraftUpsertRequest.Title := "Fox";
     AdminDraftUpsertRequest.Author := None;
     AdminDraftUpsertRequest.Markdown := text_of_lines ["# Fox"; ""; "Once upon a time."];
     AdminDraftUpsertRequest.Language := None;
     AdminDraftUpsertRequest.SourceURL := None;
     AdminDraftUpsertRequest.Rights := None |}.

(** The same story with an edited body. *)
Definition fox_request_edited : AdminDraftUpsertRequest.t :=
  {| AdminDraftUpsertRequest.Slug := "fox"; AdminDraftUpsertRequest.Title := "Fox";
     AdminDraftUpsertRequest.Author := Some "Aesop";
     AdminDraftUpsertRequest.Markdown :=
       text_of_lines ["# Fox"; ""; "Once upon a time, long ago."];
     AdminDraftUpsertRequest.Language := None;
     AdminDraftUpsertRequest.SourceURL := None;
     AdminDraftUpsertRequest.Rights := None |}.

(** The fox manuscript under a title with a NUL byte. *)
Definition fox_request_NUL_title : AdminDraftUpsertRequest.t :=
  {| AdminDraftUpsertRequest.Slug := "fox";
     AdminDraftUpsertRequest.Title := "F" +:+ String NUL "x";
     AdminDraftUpsertRequest.Author := None;
     AdminDraftUpsertRequest.Markdown := text_of_lines ["# Fox"; ""; "Once upon a time."];
     AdminDraftUpsertRequest.Language := None;
     AdminDraftUpsertRequest.SourceURL := None;
     AdminDraftUpsertRequest.Rights := None |}.

(** A manuscript with a NUL byte. *)
Definition NUL_request : AdminDraftUpsertRequest.t :=
  {| AdminDraftUpsertRequest.Slug := "fox"; AdminDraftUpsertRequest.Title := "Fox";
     AdminDraftUpsertRequest.Author := None;
     AdminDraftUpsertRequest.Markdown := "a" +:+ String NUL "b";
     AdminDraftUpsertRequest.Language := None;
     AdminDraftUpsertRequest.SourceURL := None;
     AdminDraftUpsertRequest.Rights := None |}.

(** The fox manuscript with rights that hold the float [+Inf]. *)
Definition fox_request_infinite : AdminDraftUpsertRequest.t :=
  {| AdminDraftUpsertRequest.Slug := "fox"; AdminDraftUpsertRequest.Title := "Fox";
     AdminDraftUpsertRequest.Author := None;
     AdminDraftUpsertRequest.Markdown := text_of_lines ["# Fox"; ""; "Once upon a time."];
     AdminDraftUpsertRequest.Language := None;
     AdminDraftUpsertRequest.SourceURL := None;
     AdminDraftUpsertRequest.Rights := Some {[ "until" := AFloat 9218868437227405312 ]} |}.

(** The database after the first ingest of the fox manuscript. *)
Definition after_first : DB :=
  snd (AdminDraftUpsert (collab := Demo.demo) empty_db 1 acct fox_request).

(** The database after version 1 is published. *)
Definition after_publish : DB :=
  snd (AdminPublish after_first 3 acct "fox" (uuid_text 1%nat)).

End StoreSpec.

(* ===================================================================== *)
(** ** Sanity checks of the embedding *)
(* ===================================================================== *)

Example TrimSpace_ascii :
  TrimSpace (String " " (String " " ("the fox" +:+ String LF " "))) = "the fox".
Proof. reflexivity. Qed.

Example TrimSpace_nbsp :
  TrimSpace (bytes [194; 160; 102; 226; 128; 137]%nat) = "f".
Proof. reflexivity. Qed.

Example Split_lines :
  Split (text_of_lines ["a"; "b"; ""; "c"]) LF = ["a"; "b"; ""; "c"].
Proof. reflexivity. Qed.

Example FieldsLen_ex : FieldsLen "  Once upon  a time. " = 4.
Proof. reflexivity. Qed.

Example slug_ok : StoryIngest.ValidateSlug "the-gruffalo-2" = true.
Proof. reflexivity. Qed.

Example slug_double_hyphen : StoryIngest.ValidateSlug "the--gruffalo" = false.
Proof. reflexivity. Qed.

Example slug_upper : StoryIngest.ValidateSlug "Fox" = false.
Proof. reflexivity. Qed.

Example slug_trailing_newline :
  StoryIngest.ValidateSlug (String "a" (String LF "")) = false.
Proof. reflexivity. Qed.

(* ===================================================================== *)
(** ** Facts about the string functions and the result monad *)
(* ===================================================================== *)

Module GoStringsFacts.

Lemma length_drop_bytes (n : nat) (s : string) :
  (String.length (drop_bytes n s) <= String.length s)%nat.
Proof.
  revert s. induction n as [|n IH]; intros [|a s]; simpl; try lia.
  specialize (IH s). lia.
Qed.

Lemma length_strip_rune (rs : list string) (s s' : string) :
  strip_rune rs s = Some s' -> (String.length s' <= String.length s)%nat.
Proof.
  induction rs as [|r rs IH]; simpl; [discriminate|].
  destruct (HasPrefix s r); [|exact IH].
  intros [= <-]. apply length_drop_bytes.
Qed.

Lemma length_trim_left_fuel (fuel : nat) (rs : list string) (s : string) :
  (String.length (trim_left_fuel fuel rs s) <= String.length s)%nat.
Proof.
  revert s. induction fuel as [|fuel IH]; intros s; simpl; [lia|].
  destruct (strip_rune rs s) as [s'|] eqn:Hs; [|lia].
  apply length_strip_rune in Hs. specialize (IH s'). lia.
Qed.

Lemma length_rev_app (s acc : string) :
  String.length (String.rev_app s acc) = (String.length s + String.length acc)%nat.
Proof.
  revert acc. induction s as [|a s IH]; intros acc; simpl; [reflexivity|].
  rewrite IH. simpl. lia.
Qed.

Lemma length_rev (s : string) : String.length (String.rev s) = String.length s.
Proof. unfold String.rev. rewrite length_rev_app. simpl. lia. Qed.

Lemma length_append (s t : string) :
  String.length (s +:+ t) = (String.length s + String.length t)%nat.
Proof. induction s as [|a s IH]; simpl; [reflexivity | by rewrite IH]. Qed.

Lemma lines_size_split_go (sep : ascii) (cur s : string) :
  lines_size (split_go sep cur s) = (String.length cur + String.length s + 1)%nat.
Proof.
  revert cur. induction s as [|a s IH]; intros cur; simpl.
  - rewrite length_rev. lia.
  - destruct (Ascii.eqb a sep); simpl.
    + rewrite IH, length_rev. simpl. lia.
    + rewrite IH. simpl. lia.
Qed.

Lemma length_Join (ls : list string) (c : ascii) :
  (String.length (Join ls (String c "")) <= lines_size ls)%nat.
Proof.
  induction ls as [|l ls IH]; simpl; [lia|].
  destruct ls as [|l' ls]; [simpl; lia|].
  rewrite !length_append. simpl String.length. simpl in IH |- *. lia.
Qed.

Lemma lines_size_drop (k : nat) (ls : list string) :
  (lines_size (drop (S k) ls) + 1 <= lines_size ls \/ ls = [])%nat.
Proof.
  destruct ls as [|l ls]; [by right|]. left. simpl.
  revert ls. induction k as [|k IH]; intros ls; simpl.
  - rewrite drop_0. lia.
  - destruct ls as [|l' ls]; simpl; [lia|]. specialize (IH ls). lia.
Qed.

Lemma rev_app_append (s t acc : string) :
  String.rev_app (s +:+ t) acc = String.rev_app t (String.rev_app s acc).
Proof.
  revert acc. induction s as [|a s IH]; intros acc; simpl; [reflexivity|].
  apply IH.
Qed.

Lemma append_byte_inj (s t : string) (c : ascii) :
  s +:+ String c "" = t +:+ String c "" -> s = t.
Proof.
  revert t. induction s as [|a s IH]; intros [|b t]; simpl; intros Heq.
  - reflexivity.
  - inversion Heq as [[Hc Ht]]. destruct t; discriminate.
  - inversion Heq as [[Hc Ht]]. destruct s; discriminate.
  - inversion Heq as [[Hc Ht]]. f_equal. by apply IH.
Qed.

(** *** Blank texts *)

Lemma append_cons (a : ascii) (s t : string) : String a s +:+ t = String a (s +:+ t).
Proof. reflexivity. Qed.

Lemma append_nil_r (s : string) : s +:+ "" = s.
Proof. induction s as [|a s IH]; [reflexivity | by rewrite append_cons, IH]. Qed.

Lemma append_assoc (s t u : string) : (s +:+ t) +:+ u = s +:+ (t +:+ u).
Proof. induction s as [|a s IH]; [reflexivity | by rewrite !append_cons, IH]. Qed.

Lemma rev_app_spec (s acc : string) : String.rev_app s acc = String.rev s +:+ acc.
Proof.
  unfold String.rev. revert acc. induction s as [|a s IH]; intros acc; simpl; [reflexivity|].
  rewrite (IH (String a acc)), (IH (String a "")), append_assoc. reflexivity.
Qed.

Lemma rev_cons (a : ascii) (s : string) :
  String.rev (String a s) = String.rev s +:+ String a "".
Proof. unfold String.rev at 1. simpl. apply rev_app_spec. Qed.

Lemma rev_append (s t : string) : String.rev (s +:+ t) = String.rev t +:+ String.rev s.
Proof.
  induction s as [|a s IH].
  - change ("" +:+ t) with t. change (String.rev "") with "". by rewrite append_nil_r.
  - rewrite append_cons, !rev_cons, IH, append_assoc. reflexivity.
Qed.

Lemma rev_involutive (s : string) : String.rev (String.rev s) = s.
Proof.
  induction s as [|a s IH]; [reflexivity|].
  rewrite rev_cons, rev_append, IH. reflexivity.
Qed.

Lemma rev_empty (s : string) : String.rev s = "" -> s = "".
Proof.
  intros H. apply (f_equal String.length) in H. rewrite length_rev in H.
  by destruct s.
Qed.

Lemma HasPrefix_true (s p : string) : HasPrefix s p = true <-> exists t, s = p +:+ t.
Proof.
  revert s. induction p as [|a p IH]; intros s.
  - split; [eauto | by destruct s].
  - destruct s as [|b s]; simpl.
    + split; [discriminate | intros [t Ht]; discriminate].
    + destruct (Ascii.eqb a b) eqn:Hab.
      * apply Ascii.eqb_eq in Hab as ->. rewrite IH. split.
        -- intros [t ->]. eauto.
        -- intros [t Ht]. rewrite append_cons in Ht. injection Ht as ->. eauto.
      * split; [discriminate|]. intros [t Ht]. rewrite append_cons in Ht.
        injection Ht as Hb _. subst b. rewrite Ascii.eqb_refl in Hab. discriminate.
Qed.

Lemma drop_bytes_app (p t : string) : drop_bytes (String.length p) (p +:+ t) = t.
Proof.
  induction p as [|a p IH]; [by destruct t|]. rewrite append_cons. simpl. exact IH.
Qed.

Lemma strip_rune_Some (rs : list string) (s s' : string) :
  strip_rune rs s = Some s' -> exists r, r ∈ rs /\ s = r +:+ s'.
Proof.
  induction rs as [|r rs IH]; simpl; [discriminate|].
  destruct (HasPrefix s r) eqn:Hp.
  - intros [= <-]. apply HasPrefix_true in Hp as [t ->].
    exists r. split; [left|]. by rewrite drop_bytes_app.
  - intros H. destruct (IH H) as (r' & Hin & Heq). exists r'. split; [by right | exact Heq].
Qed.

(** What [TrimLeft] cuts off is a sequence of runes of the cutset. *)
Lemma trim_left_fuel_spec (fuel : nat) (rs : list string) (s : string) :
  exists cut, Forall (fun r => r ∈ rs) cut
              /\ s = foldr append "" cut +:+ trim_left_fuel fuel rs s.
Proof.
  revert s. induction fuel as [|fuel IH]; intros s; simpl.
  - exists []. by split.
  - destruct (strip_rune rs s) as [s'|] eqn:Hs.
    + apply strip_rune_Some in Hs as (r & Hr & ->).
      destruct (IH s') as (cut & Hcut & Heq).
      exists (r :: cut). split; [by constructor|].
      simpl. rewrite append_assoc. by rewrite <- Heq.
    + exists []. by split.
Qed.

Lemma concat_app (l1 l2 : list string) :
  foldr append "" (l1 ++ l2) = foldr append "" l1 +:+ foldr append "" l2.
Proof.
  induction l1 as [|r l1 IH]; [reflexivity|]. simpl. by rewrite IH, append_assoc.
Qed.

(** Two prefixes of one string: one is a prefix of the other. *)
Lemma prefixes_comparable (a b x y : string) :
  a +:+ x = b +:+ y -> HasPrefix a b = true \/ HasPrefix b a = true.
Proof.
  revert b. induction a as [|c a IH]; intros b Heq.
  - right. by destruct b.
  - destruct b as [|d b]; [by left|].
    rewrite !append_cons in Heq. injection Heq as -> Heq.
    simpl. rewrite Ascii.eqb_refl. by apply IH.
Qed.

(** No encoding of a space is the beginning of another one. *)
Lemma space_runes_prefix_free (a b : string) :
  a ∈ space_runes -> b ∈ space_runes -> HasPrefix a b = true -> a = b.
Proof.
  assert (Hall : forallb (fun a => forallb (fun b => implb (HasPrefix a b) (String.eqb a b))
                                           space_runes) space_runes = true)
    by (vm_compute; reflexivity).
  intros Ha Hb Hp. rewrite forallb_forall in Hall.
  apply list_elem_of_In in Ha, Hb.
  specialize (Hall a Ha). rewrite forallb_forall in Hall. specialize (Hall b Hb).
  rewrite Hp in Hall. simpl in Hall. by apply String.eqb_eq.
Qed.

Lemma strip_space_rune (r t : string) :
  r ∈ space_runes -> strip_rune space_runes (r +:+ t) = Some t.
Proof.
  intros Hr.
  assert (Hgen : forall rs, (forall x, x ∈ rs -> x ∈ space_runes) -> r ∈ rs ->
                            strip_rune rs (r +:+ t) = Some t).
  { induction rs as [|r0 rs IH]; intros Hsub Hin; [by apply elem_of_nil in Hin|].
    simpl. destruct (HasPrefix (r +:+ t) r0) eqn:Hp.
    - apply HasPrefix_true in Hp as [t0 Ht0].
      assert (r0 = r) as ->.
      { destruct (prefixes_comparable _ _ _ _ Ht0) as [H|H].
        - symmetry. apply space_runes_prefix_free; [exact Hr | apply Hsub; left | exact H].
        - apply space_runes_prefix_free; [apply Hsub; left | exact Hr | exact H]. }
      by rewrite drop_bytes_app.
    - apply elem_of_cons in Hin as [->|Hin].
      + assert (HasPrefix (r0 +:+ t) r0 = true) by (apply HasPrefix_true; eauto).
        congruence.
      + apply IH; [|exact Hin]. intros x Hx. apply Hsub. by right. }
  apply Hgen; [auto | exact Hr].
Qed.

Lemma spaces_app (a b : string) : spaces a -> spaces b -> spaces (a +:+ b).
Proof.
  intros (ca & Ha & ->) (cb & Hb & ->). exists (ca ++ cb).
  split; [by apply Forall_app | by rewrite concat_app].
Qed.

Lemma space_rune_length (r : string) : r ∈ space_runes -> (1 <= String.length r)%nat.
Proof.
  intros Hr.
  assert (Hall : forallb (fun r => (1 <=? String.length r)%nat) space_runes = true)
    by (vm_compute; reflexivity).
  rewrite forallb_forall in Hall. apply list_elem_of_In in Hr.
  specialize (Hall r Hr). by apply Nat.leb_le.
Qed.

Lemma trim_left_fuel_spaces (cut : list string) (fuel : nat) :
  Forall (fun r => r ∈ space_runes) cut ->
  (String.length (foldr append "" cut) <= fuel)%nat ->
  trim_left_fuel fuel space_runes (foldr append "" cut) = "".
Proof.
  intros Hcut. revert fuel. induction Hcut as [|r cut Hr Hcut IH]; intros fuel Hlen.
  - destruct fuel; reflexivity.
  - cbn [foldr] in *. rewrite length_append in Hlen.
    pose proof (space_rune_length r Hr) as Hr1.
    destruct fuel as [|fuel]; [lia|]. cbn [trim_left_fuel].
    rewrite (strip_space_rune r _ Hr). apply IH. lia.
Qed.

(** A text is blank exactly when it is made of spaces. *)
Lemma blank_spaces (s : string) : TrimSpace s = "" <-> spaces s.
Proof.
  split.
  - intros Hb. unfold TrimSpace, TrimRight in Hb. apply rev_empty in Hb.
    destruct (trim_left_fuel_spec (String.length s) space_runes s) as (cl & Hcl & Hs).
    fold (TrimLeft s space_runes) in Hs.
    set (t := TrimLeft s space_runes) in *.
    destruct (trim_left_fuel_spec (String.length (String.rev t))
                (map String.rev space_runes) (String.rev t)) as (cr & Hcr & Ht).
    fold (TrimLeft (String.rev t) (map String.rev space_runes)) in Ht.
    rewrite Hb, append_nil_r in Ht.
    assert (Hrev : forall cut, Forall (fun r => r ∈ map String.rev space_runes) cut ->
                               spaces (String.rev (foldr append "" cut))).
    { intros cut Hcut. induction Hcut as [|r cut Hr _ IH].
      - exists []. by split.
      - cbn [foldr]. rewrite rev_append. apply spaces_app; [exact IH|].
        apply list_elem_of_fmap in Hr as (r0 & -> & Hr0).
        rewrite rev_involutive. exists [r0].
        split; [constructor; [exact Hr0 | constructor]|].
        cbn [foldr]. by rewrite append_nil_r. }
    rewrite Hs. apply spaces_app; [by exists cl|].
    rewrite <- (rev_involutive t), Ht. by apply Hrev.
  - intros (cut & Hcut & ->). unfold TrimSpace, TrimLeft.
    by rewrite (trim_left_fuel_spaces cut _ Hcut (Nat.le_refl _)).
Qed.

Lemma blank_app (a b : string) :
  TrimSpace a = "" -> TrimSpace b = "" -> TrimSpace (a +:+ b) = "".
Proof. rewrite !blank_spaces. apply spaces_app. Qed.

End GoStringsFacts.

Lemma result_bind_Ok {A B : Type} (m : result A) (f : A -> result B) (b : B) :
  m ≫= f = Ok b -> exists a, m = Ok a /\ f a = Ok b.
Proof. destruct m as [a|e]; simpl; [eauto | discriminate]. Qed.

Ltac bind_ok H :=
  let a := fresh "a" in
  let Ha := fresh "Ha" in
  apply result_bind_Ok in H as (a & Ha & H).

(* ===================================================================== *)
(** ** Properties of [Ingest] *)
(* ===================================================================== *)

Module IngestFacts.

Import StoryIngest IngestSpec GoStringsFacts.

Example fox_ingest_segments :
  (out ← Ingest (collab := Demo.demo) fox_input;
   Ok (map (fun s => (Segment.Ordinal s, Segment.Markdown s)) (Output.Segments out)))
  = Ok [(1, "# Fox"); (2, "Once upon a time.")].
Proof. vm_compute. reflexivity. Qed.

Section Facts.
Context {collab : Collaborators}.

Lemma Ingest_blank_title (i : Input.t) :
  TrimSpace (Input.Title i) = "" -> Ingest i = Err ErrTitleRequired.
Proof.
  intros Ht. unfold Ingest. rewrite Ht.
  destruct (decide ("" = "")) as [_|Hne]; [reflexivity | congruence].
Qed.

(** An accepted input passed the four checks at the head of [Ingest]. *)
Lemma Ingest_Ok_checks (i : Input.t) (out : Output.t) :
  Ingest i = Ok out ->
  TrimSpace (Input.Title i) <> ""
  /\ TrimSpace (Input.Slug i) <> ""
  /\ ValidateSlug (TrimSpace (Input.Slug i)) = true
  /\ TrimSpace (Input.Markdown i) <> "".
Proof.
  unfold Ingest. intros Hok.
  destruct (decide (TrimSpace (Input.Title i) = "")); [discriminate|].
  destruct (decide (TrimSpace (Input.Slug i) = "")); [discriminate|].
  destruct (ValidateSlug (TrimSpace (Input.Slug i))) eqn:Hs; [|discriminate].
  destruct (decide (TrimSpace (Input.Markdown i) = "")); [discriminate|].
  auto.
Qed.

(** What [Ingest] returns, field by field, in terms of the split
    manuscript. *)
Lemma Ingest_Ok_fields (i : Input.t) (out : Output.t) :
  Ingest i = Ok out ->
  let fm := fst (splitFrontmatter (Input.Markdown i)) in
  let body := snd (splitFrontmatter (Input.Markdown i)) in
  let url := fallback fm "sourceUrl" (Input.SourceURL i) in
  let explicit : gmap string any :=
    {[ "title" := AString (Output.Title out);
       "author" := AString (Output.Author out);
       "language" := AString (Output.Language out) ]} in
  Output.Slug out = TrimSpace (Input.Slug i)
  /\ Output.Title out = fallback fm "title" (TrimSpace (Input.Title i))
  /\ Output.Author out = fallback fm "author" (TrimSpace (Input.Author i))
  /\ Output.Language out =
       (let l := fallback fm "language" (Input.Language i) in
        if decide (l = "") then "en-GB" else l)
  /\ Output.Source out =
       (if decide (TrimSpace url = "") then ∅
        else {[ "url" := AString (TrimSpace url) ]})
  /\ Output.Frontmatter out =
       merge_frontmatter
         (if decide (TrimSpace url = "") then explicit
          else <[ "sourceUrl" := AString (TrimSpace url) ]> explicit) fm
  /\ Output.Markdown out = body
  /\ render body = Ok (Output.RenderedHTML out)
  /\ Output.ContentHash out = sha256_hex body
  /\ segment body = Ok (Output.Segments out).
Proof.
  unfold Ingest. intros Hok.
  destruct (decide (TrimSpace (Input.Title i) = "")); [discriminate|].
  destruct (decide (TrimSpace (Input.Slug i) = "")); [discriminate|].
  destruct (ValidateSlug (TrimSpace (Input.Slug i))); [|discriminate].
  destruct (decide (TrimSpace (Input.Markdown i) = "")); [discriminate|].
  simpl in Hok.
  destruct (splitFrontmatter (Input.Markdown i)) as [fm body] eqn:Hsplit.
  simpl.
  destruct (render body) as [html|e] eqn:Hr; [|discriminate].
  simpl in Hok.
  destruct (segment body) as [sg|e] eqn:Hs; [|discriminate].
  simpl in Hok. inversion Hok; subst; clear Hok. simpl.
  repeat split; reflexivity.
Qed.

(** The merge loop computes the left-biased union. *)
Lemma merge_frontmatter_union (frontmatter fm : gmap string any) :
  merge_frontmatter frontmatter fm = frontmatter ∪ fm.
Proof.
  unfold merge_frontmatter.
  apply (map_fold_weak_ind
           (fun r m => r = frontmatter ∪ m)).
  - symmetry. apply (right_id ∅ (∪)).
  - intros k v m r Hk ->.
    destruct ((frontmatter ∪ m) !! k) as [w|] eqn:Hl.
    + apply map_eq. intros j. rewrite !lookup_union.
      destruct (decide (k = j)) as [->|Hne].
      * rewrite lookup_insert_eq, Hk.
        rewrite lookup_union, Hk in Hl.
        destruct (frontmatter !! j); [reflexivity | discriminate].
      * by rewrite lookup_insert_ne.
    + apply lookup_union_None in Hl as [Hf _].
      by rewrite insert_union_r.
Qed.

Lemma merge_frontmatter_lookup (frontmatter fm : gmap string any) (k : string) :
  merge_frontmatter frontmatter fm !! k =
  match frontmatter !! k with
  | Some v => Some v
  | None => fm !! k
  end.
Proof.
  rewrite merge_frontmatter_union, lookup_union.
  destruct (frontmatter !! k), (fm !! k); reflexivity.
Qed.

Lemma merge_frontmatter_empty (frontmatter : gmap string any) :
  merge_frontmatter frontmatter ∅ = frontmatter.
Proof. rewrite merge_frontmatter_union. apply (right_id ∅ (∪)). Qed.

Lemma fallback_nonempty (fm : gmap string any) (key cur : string) :
  cur <> "" -> fallback fm key cur = cur.
Proof.
  intros Hne. unfold fallback.
  destruct (fm !! key) as [[v| | | | | |]|]; try reflexivity.
  destruct (decide (cur = "")); [contradiction | reflexivity].
Qed.

Lemma fallback_empty_map (key cur : string) : fallback ∅ key cur = cur.
Proof. unfold fallback. by rewrite lookup_empty. Qed.

(** *** [splitFrontmatter] on a block that is never closed *)

Lemma find_closing_None (ls : list string) (i : nat) :
  (forall l, l ∈ ls -> TrimSpace l <> "---") -> find_closing i ls = None.
Proof.
  revert i. induction ls as [|l ls IH]; intros i Hall; simpl; [reflexivity|].
  destruct (decide (TrimSpace l = "---")) as [Heq|_].
  - exfalso. apply (Hall l); [left | exact Heq].
  - apply IH. intros l' Hl'. apply Hall. by right.
Qed.

Lemma splitFrontmatter_unclosed (md : string) :
  (forall k l, (1 <= k)%nat ->
     Split (TrimLeft md bom_space_runes) LF !! k = Some l -> TrimSpace l <> "---") ->
  splitFrontmatter md = (∅, md).
Proof.
  intros Hopen. unfold splitFrontmatter.
  destruct (negb _ && negb _); [reflexivity|].
  destruct (length _ <? 3)%nat; [reflexivity|].
  rewrite find_closing_None; [reflexivity|].
  intros l Hl. apply list_elem_of_lookup in Hl as [k Hk].
  rewrite lookup_drop in Hk. apply (Hopen (1 + k)%nat l); [lia | exact Hk].
Qed.

(** *** The stripped body is never longer than the manuscript *)

Lemma length_splitFrontmatter_body (md : string) :
  (String.length (snd (splitFrontmatter md)) <= String.length md)%nat.
Proof.
  unfold splitFrontmatter.
  destruct (negb _ && negb _); [simpl; lia|].
  destruct (length _ <? 3)%nat eqn:Hlen; [simpl; lia|].
  destruct (find_closing _ _) as [e|]; [|simpl; lia].
  simpl snd.
  set (s := TrimLeft md bom_space_runes) in *.
  pose proof (length_Join (drop (e + 1) (Split s LF)) LF) as HJ.
  pose proof (lines_size_split_go LF "" s) as HS. fold (Split s LF) in HS.
  pose proof (length_trim_left_fuel (String.length md) bom_space_runes md) as HT.
  fold (TrimLeft md bom_space_runes) in HT. fold s in HT.
  replace (e + 1)%nat with (S e) in * by lia.
  destruct (lines_size_drop e (Split s LF)) as [Hd|Hnil].
  - simpl in HS. lia.
  - rewrite Hnil in Hlen. simpl in Hlen. discriminate.
Qed.

(** *** The segmentation loop *)

Lemma count_app (p : Node -> bool) (l1 l2 : list Node) :
  count p (l1 ++ l2) = count p l1 + count p l2.
Proof. induction l1 as [|n l1 IH]; simpl; [reflexivity | rewrite IH; lia]. Qed.

Lemma loop_body_spec (src : string) (before : list Node)
    (st st' : loop_state) (n : Node) :
  loop_body src st n = Ok st' ->
  headIdx st = count is_heading_node before ->
  paraN st = count is_paragraph_node before ->
  exists new,
    segs st' = segs st ++ new
    /\ map Segment.Locator new = (if dropped src n then [] else [locator_of before n])
    /\ map Segment.Ordinal new = seqZ (ordinal st) (Z.of_nat (length new))
    /\ ordinal st' = ordinal st + Z.of_nat (length new)
    /\ headIdx st' = count is_heading_node (before ++ [n])
    /\ paraN st' = count is_paragraph_node (before ++ [n]).
Proof.
  intros Hb Hh Hp. rewrite !count_app. unfold dropped, locator_of.
  destruct n as [k ls cs]. unfold loop_body in Hb.
  unfold is_heading_node, is_paragraph_node in *. simpl in *.
  destruct k as [level| |seg|tn]; simpl in *.
  - bind_ok Hb. bind_ok Hb. bind_ok Hb. inversion Hb; subst; clear Hb. simpl.
    eexists [_]. simpl. rewrite Hh. repeat split; try reflexivity; lia.
  - bind_ok Hb. bind_ok Hb. inversion Hb; subst; clear Hb. simpl.
    eexists [_]. simpl. rewrite Hp. repeat split; try reflexivity; lia.
  - bind_ok Hb. rewrite Ha.
    destruct (decide (TrimSpace a = "")) as [Hbl|Hbl].
    + inversion Hb; subst; clear Hb. exists [].
      rewrite bool_decide_eq_true_2 by exact Hbl. simpl.
      rewrite app_nil_r. repeat split; try reflexivity; lia.
    + inversion Hb; subst; clear Hb. simpl.
      rewrite bool_decide_eq_false_2 by exact Hbl.
      eexists [_]. simpl. repeat split; try reflexivity; lia.
  - bind_ok Hb. rewrite Ha.
    destruct (decide (TrimSpace a = "")) as [Hbl|Hbl].
    + inversion Hb; subst; clear Hb. exists [].
      rewrite bool_decide_eq_true_2 by exact Hbl. simpl.
      rewrite app_nil_r. repeat split; try reflexivity; lia.
    + inversion Hb; subst; clear Hb. simpl.
      rewrite bool_decide_eq_false_2 by exact Hbl.
      eexists [_]. simpl. repeat split; try reflexivity; lia.
Qed.

Lemma seqZ_app_len (m : Z) (a b : nat) :
  seqZ m (Z.of_nat a) ++ seqZ (m + Z.of_nat a) (Z.of_nat b)
  = seqZ m (Z.of_nat (a + b)).
Proof.
  rewrite Nat2Z.inj_add. rewrite (seqZ_app m (Z.of_nat a) (Z.of_nat b)) by lia.
  reflexivity.
Qed.

Lemma loop_spec (src : string) (nodes before : list Node) (st st' : loop_state) :
  foldM (loop_body src) st nodes = Ok st' ->
  headIdx st = count is_heading_node before ->
  paraN st = count is_paragraph_node before ->
  exists new,
    segs st' = segs st ++ new
    /\ map Segment.Locator new = locators src before nodes
    /\ map Segment.Ordinal new = seqZ (ordinal st) (Z.of_nat (length new)).
Proof.
  revert before st. induction nodes as [|n nodes IH]; intros before st Hf Hh Hp.
  - simpl in Hf. inversion Hf; subst. exists []. simpl.
    by rewrite app_nil_r.
  - simpl in Hf. bind_ok Hf.
    destruct (loop_body_spec src before st a n Ha Hh Hp)
      as (new1 & Hs1 & Hl1 & Ho1 & Hord & Hh1 & Hp1).
    destruct (IH (before ++ [n]) a Hf Hh1 Hp1) as (new2 & Hs2 & Hl2 & Ho2).
    exists (new1 ++ new2). rewrite Hs2, Hs1, <- app_assoc.
    split; [reflexivity|]. rewrite !map_app, Hl1, Hl2, Ho1, Ho2, Hord.
    split; [reflexivity|]. rewrite length_app. apply seqZ_app_len.
Qed.

Lemma segment_spec (body : string) (sg : list Segment.t) :
  segment body = Ok sg ->
  map Segment.Locator sg = locators body [] (goldmark_Parse body)
  /\ map Segment.Ordinal sg = seqZ 1 (Z.of_nat (length sg)).
Proof.
  unfold segment. intros Hs. bind_ok Hs. inversion Hs; subst; clear Hs.
  destruct (loop_spec body (goldmark_Parse body) [] loop_init a Ha)
    as (new & Hsg & Hl & Ho); [reflexivity | reflexivity |].
  simpl in Hsg. rewrite Hsg. auto.
Qed.

Lemma length_locators (src : string) (before nodes : list Node) :
  Z.of_nat (length (locators src before nodes))
  = count (fun n => negb (dropped src n)) nodes.
Proof.
  revert before. induction nodes as [|n nodes IH]; intros before; simpl; [reflexivity|].
  rewrite length_app, Nat2Z.inj_add, IH.
  destruct (dropped src n); simpl; lia.
Qed.

Lemma locators_kept (src : string) (before nodes : list Node) :
  locators src before nodes
  = kept_locators (fun n => negb (dropped src n)) before nodes.
Proof.
  revert before. induction nodes as [|n nodes IH]; intros before; simpl; [reflexivity|].
  rewrite IH. by destruct (dropped src n).
Qed.

(** Blank lines make a blank text. *)
Lemma concat_slices_blank (src : string) (ls : list TextSegment) :
  Forall (fun seg => exists s, slice src seg = Ok s /\ TrimSpace s = "") ls ->
  exists b, concat_slices src ls = Ok b /\ TrimSpace b = "".
Proof.
  induction 1 as [|seg ls (s & Hs & Hblank) _ (b & Hb & Hbb)].
  - exists "". by split.
  - exists (s +:+ b). simpl. rewrite Hs, Hb. split; [reflexivity|].
    by apply blank_app.
Qed.

Lemma ranges_Lines (P : TextSegment -> Prop) (n : Node) :
  Forall P (ranges n) -> Forall P (Lines n).
Proof. destruct n as [k ls cs]. simpl. intros H. by apply Forall_app in H as [H _]. Qed.

(** A block of another kind without visible text yields no segment. *)
Lemma no_visible_text_dropped (src : string) (n : Node) :
  is_heading_node n = false -> is_paragraph_node n = false ->
  no_visible_text src n -> dropped src n = true.
Proof.
  intros Hh Hp Hno. unfold dropped. rewrite Hh, Hp. simpl.
  apply ranges_Lines, concat_slices_blank in Hno as (b & Hb & Hblank).
  unfold extractBlockSource. destruct (decide (Lines n = [])); [reflexivity|].
  rewrite Hb. simpl. rewrite Hblank. reflexivity.
Qed.

(** A block without lines of its own yields no segment, whatever the
    blocks below it hold: [extractBlockSource] reads the lines of the block
    itself, and a container (a list, a block quote) has none. *)
Lemma block_without_lines_dropped (src : string) (n : Node) :
  is_heading_node n = false -> is_paragraph_node n = false ->
  Lines n = [] -> dropped src n = true.
Proof.
  intros Hh Hp Hl. unfold dropped, extractBlockSource. rewrite Hh, Hp, Hl. reflexivity.
Qed.

Example milk_list_dropped :
  textContent milk_body milk_list = Ok "milkeggs"
  /\ dropped milk_body milk_list = true
  /\ forall out,
       goldmark_Parse milk_body
       = [ MkNode KParagraph [ {| Start := 0; Stop := 6 |} ]
             [ MkNode (KText {| Start := 0; Stop := 5 |}) [] [] ];
           milk_list ] ->
       segment milk_body = Ok out ->
       map (fun sg => (Segment.Ordinal sg, Segment.Markdown sg)) out = [(1, "Intro")].
Proof.
  split; [reflexivity|]. split; [reflexivity|].
  intros out Hparse Hs. unfold segment in Hs. rewrite Hparse in Hs.
  simpl in Hs. inversion Hs. reflexivity.
Qed.

(** Two accepted inputs with the same manuscript have the same body,
    hash, rendering and segments, whatever their other fields are. *)
Lemma Ingest_same_markdown (i i' : Input.t) (out out' : Output.t) :
  Input.Markdown i = Input.Markdown i' ->
  Ingest i = Ok out -> Ingest i' = Ok out' ->
  Output.Markdown out = Output.Markdown out'
  /\ Output.ContentHash out = Output.ContentHash out'
  /\ Output.RenderedHTML out = Output.RenderedHTML out'
  /\ Output.Segments out = Output.Segments out'.
Proof.
  intros Hmd Hi Hi'.
  apply Ingest_Ok_fields in Hi as (_ & _ & _ & _ & _ & _ & Hb & Hr & Hh & Hs).
  apply Ingest_Ok_fields in Hi' as (_ & _ & _ & _ & _ & _ & Hb' & Hr' & Hh' & Hs').
  rewrite <- Hmd in *. rewrite Hb, Hb', Hh, Hh'.
  rewrite Hr in Hr'. rewrite Hs in Hs'. inversion Hr'. inversion Hs'. auto.
Qed.

(** [Ingest] accepts an input as soon as the four checks pass and the
    body renders and segments. *)
Lemma Ingest_accepts (i : Input.t) (html : string) (sg : list Segment.t) :
  TrimSpace (Input.Title i) <> "" ->
  TrimSpace (Input.Slug i) <> "" ->
  ValidateSlug (TrimSpace (Input.Slug i)) = true ->
  TrimSpace (Input.Markdown i) <> "" ->
  render (snd (splitFrontmatter (Input.Markdown i))) = Ok html ->
  segment (snd (splitFrontmatter (Input.Markdown i))) = Ok sg ->
  exists out, Ingest i = Ok out.
Proof.
  intros Ht Hs Hv Hm Hr Hsg. unfold Ingest.
  destruct (decide (TrimSpace (Input.Title i) = "")); [contradiction|].
  destruct (decide (TrimSpace (Input.Slug i) = "")); [contradiction|].
  rewrite Hv. simpl.
  destruct (decide (TrimSpace (Input.Markdown i) = "")); [contradiction|].
  destruct (splitFrontmatter (Input.Markdown i)) as [fm body].
  simpl in *. rewrite Hr. simpl. rewrite Hsg. simpl. eauto.
Qed.

End Facts.

End IngestFacts.

(* ===================================================================== *)
(** ** Properties of the version store *)
(* ===================================================================== *)

Module StoreFacts.

Import StoryIngest IngestSpec GoStringsFacts IngestFacts Model Schema Store StoreSpec.

(** *** The text of a key is never blank *)

Lemma TrimSpace_uuid_text (id : UUID) : TrimSpace (uuid_text id) <> "".
Proof.
  unfold uuid_text, TrimSpace.
  set (x := pretty id).
  assert (Hl : TrimLeft (String "{" (x +:+ String "}" "")) space_runes
               = String "{" (x +:+ String "}" "")) by reflexivity.
  rewrite Hl. unfold TrimRight, String.rev at 2. simpl String.rev_app.
  rewrite rev_app_append. simpl String.rev_app.
  set (z := String.rev_app x (String "{" "")).
  assert (Hr : TrimLeft (String "}" z) (map String.rev space_runes) = String "}" z)
    by reflexivity.
  rewrite Hr. intros Hnil.
  apply (f_equal String.length) in Hnil.
  rewrite length_rev in Hnil. simpl in Hnil. discriminate.
Qed.

Lemma uuid_text_inj (a b : UUID) : uuid_text a = uuid_text b -> a = b.
Proof.
  unfold uuid_text. intros [= Heq].
  apply append_byte_inj in Heq. by apply (inj pretty).
Qed.

(** *** Keys returned by [fresh] are new *)

Lemma fresh_above (used : list UUID) (x : UUID) :
  x ∈ used -> (x < fresh used)%nat.
Proof.
  unfold fresh. induction used as [|y used IH]; intros Hin.
  - by apply elem_of_nil in Hin.
  - apply elem_of_cons in Hin as [->|Hin]; simpl; [lia|].
    specialize (IH Hin). lia.
Qed.

Lemma fresh_not_in (used : list UUID) : fresh used ∉ used.
Proof. intros Hin. apply fresh_above in Hin. lia. Qed.

(** *** Running a transaction body *)

Lemma tx_bind_Ok {A B : Type} (m : Tx A) (k : A -> Tx B) (db db' : DB) (b : B) :
  tx_bind m k db = Ok (b, db') ->
  exists a db1, m db = Ok (a, db1) /\ k a db1 = Ok (b, db').
Proof.
  unfold tx_bind. destruct (m db) as [[a db1]|e]; [eauto | discriminate].
Qed.

Lemma preserves_ret {A X : Type} (f : DB -> X) (a : A) : preserves f (tx_ret a).
Proof. intros db a' db' [= _ <-]. reflexivity. Qed.

Lemma preserves_bind {A B X : Type} (f : DB -> X) (m : Tx A) (k : A -> Tx B) :
  preserves f m -> (forall a, preserves f (k a)) -> preserves f (tx_bind m k).
Proof.
  intros Hm Hk db b db' Hrun.
  apply tx_bind_Ok in Hrun as (a & db1 & H1 & H2).
  rewrite (Hk a _ _ _ H2). exact (Hm _ _ _ H1).
Qed.

Lemma upsert_contributor_stories (name : string) :
  preserves stories (upsert_contributor name).
Proof.
  intros db a db'. unfold upsert_contributor.
  destruct (find _ _); intros [= _ <-]; reflexivity.
Qed.

Lemma upsert_contributor_content (name : string) :
  preserves content_view (upsert_contributor name).
Proof.
  intros db a db'. unfold upsert_contributor.
  destruct (find _ _); intros [= _ <-]; reflexivity.
Qed.

Lemma insert_story_contributor_stories (storyID contribID : UUID) :
  preserves stories (insert_story_contributor storyID contribID).
Proof.
  intros db a db'. unfold insert_story_contributor.
  destruct (existsb _ _); intros [= _ <-]; reflexivity.
Qed.

Lemma insert_story_contributor_content (storyID contribID : UUID) :
  preserves content_view (insert_story_contributor storyID contribID).
Proof.
  intros db a db'. unfold insert_story_contributor.
  destruct (existsb _ _); intros [= _ <-]; reflexivity.
Qed.

Lemma link_author_stories (storyID : UUID) (author : string) :
  preserves stories (link_author storyID author).
Proof.
  unfold link_author. destruct (decide _); [apply preserves_ret|].
  apply preserves_bind; [apply upsert_contributor_stories|].
  intros cid. destruct (decide _);
    [apply preserves_ret | apply insert_story_contributor_stories].
Qed.

Lemma link_author_content (storyID : UUID) (author : string) :
  preserves content_view (link_author storyID author).
Proof.
  unfold link_author. destruct (decide _); [apply preserves_ret|].
  apply preserves_bind; [apply upsert_contributor_content|].
  intros cid. destruct (decide _);
    [apply preserves_ret | apply insert_story_contributor_content].
Qed.

(** The contributor link always runs to its end. *)
Lemma link_author_total (storyID : UUID) (author : string) (db : DB) :
  exists db', link_author storyID author db = Ok (tt, db').
Proof.
  unfold link_author. destruct (decide _); [by eexists|].
  unfold tx_bind, upsert_contributor.
  destruct (find _ _); (destruct (decide _); [by eexists|]);
    unfold insert_story_contributor; simpl;
    destruct (existsb _ _); by eexists.
Qed.

(** *** Searching a table *)

Lemma find_map_key {A : Type} (p : A -> bool) (f : A -> A) (l : list A) :
  (forall x, p (f x) = p x) ->
  find p (map f l) = f <$> find p l.
Proof.
  intros Hp. induction l as [|x l IH]; simpl; [reflexivity|].
  rewrite Hp. destruct (p x); [reflexivity | exact IH].
Qed.

Lemma find_app_None {A : Type} (p : A -> bool) (l l' : list A) :
  find p l = None -> find p (l ++ l') = find p l'.
Proof.
  induction l as [|x l IH]; simpl; [reflexivity|].
  destruct (p x); [discriminate | exact IH].
Qed.

(** *** Statements that the server can reject *)

Lemma checked_Ok {A : Type} (ok : bool) (m : Tx A) (db : DB) (r : A * DB) :
  checked ok m db = Ok r -> ok = true /\ m db = Ok r.
Proof. unfold checked. destruct ok; [auto | discriminate]. Qed.

Lemma checked_taken {A : Type} (ok : bool) (m : Tx A) (db : DB) :
  ok = true -> checked ok m db = m db.
Proof. intros ->. reflexivity. Qed.

Lemma checked_rejected {A : Type} (ok : bool) (m : Tx A) (db : DB) :
  ok = false -> checked ok m db = Err ErrDataException.
Proof. intros ->. reflexivity. Qed.

Section Upsert.
Context {collab : Collaborators}.

Lemma text_in_NUL (s : string) : has_NUL s = true -> text_in s = false.
Proof. intros H. unfold text_in. by rewrite H. Qed.

(** *** The story upsert *)

(** When the server takes its parameters, the upsert returns the key of
    the addressed story, keeps every published pointer, and leaves the
    story findable under the same key. *)
Lemma upsert_story_spec (now : Z) (accountID : string) (ing : Output.t) (db : DB) :
  story_params_in accountID ing = true ->
  exists db1 s1,
    upsert_story now accountID ing db
      = Ok (story_id_for db accountID (Output.Slug ing), db1)
    /\ story_for db1 accountID (Output.Slug ing) = Some s1
    /\ StoryRow.id s1 = story_id_for db accountID (Output.Slug ing)
    /\ content_view db1 = content_view db
    /\ match story_for db accountID (Output.Slug ing) with
       | Some s =>
           published_view db1 = published_view db
           /\ StoryRow.published_version_id s1 = StoryRow.published_version_id s
           /\ StoryRow.is_published s1 = StoryRow.is_published s
       | None =>
           published_view db1
           = published_view db
               ++ [(story_id_for db accountID (Output.Slug ing), None, false)]
           /\ StoryRow.published_version_id s1 = None
           /\ StoryRow.is_published s1 = false
       end.
Proof.
  intros Hin. unfold upsert_story. rewrite (checked_taken _ _ _ Hin).
  unfold story_id_for, story_for.
  destruct (find (story_key accountID (Output.Slug ing)) (stories db)) as [s0|] eqn:Hf.
  - eexists _, _. split; [reflexivity|]. simpl.
    rewrite find_map_key.
    2:{ intros x. destruct (story_key accountID (Output.Slug ing) x) eqn:Hk;
          [simpl; exact Hk | exact Hk]. }
    rewrite Hf. simpl.
    assert (Hk0 : story_key accountID (Output.Slug ing) s0 = true).
    { apply find_some in Hf. tauto. }
    rewrite Hk0. simpl. split; [reflexivity|]. split; [reflexivity|].
    split; [reflexivity|]. split; [|split; reflexivity].
    unfold published_view. simpl. rewrite map_map. apply map_ext.
    intros s. destruct (story_key accountID (Output.Slug ing) s); reflexivity.
  - eexists _, _. split; [reflexivity|]. simpl.
    rewrite (find_app_None _ _ _ Hf). simpl.
    assert (Hk : forall r, StoryRow.account_id r = accountID ->
                           StoryRow.slug r = Output.Slug ing ->
                           story_key accountID (Output.Slug ing) r = true).
    { intros r Ha Hs. unfold story_key. by apply bool_decide_eq_true_2. }
    rewrite !Hk by reflexivity.
    split; [reflexivity|]. split; [reflexivity|]. split; [reflexivity|].
    split; [|split; reflexivity].
    unfold published_view. simpl. by rewrite map_app.
Qed.

Lemma upsert_story_taken (now : Z) (accountID : string) (ing : Output.t)
    (db : DB) (r : UUID * DB) :
  upsert_story now accountID ing db = Ok r -> story_params_in accountID ing = true.
Proof. unfold upsert_story. intros H. by apply checked_Ok in H as [? _]. Qed.

(** *** Unfolding [AdminDraftUpsert] *)

Lemma AdminDraftUpsert_Ok (db db' : DB) (now : Z) (accountID : string)
    (req : AdminDraftUpsertRequest.t) (resp : AdminDraftUpsertResponse.t) :
  AdminDraftUpsert db now accountID req = (Ok resp, db') ->
  TrimSpace accountID <> ""
  /\ exists ing,
       Ingest (upsert_input req) = Ok ing
       /\ draft_upsert_tx now (TrimSpace accountID) ing db = Ok (resp, db').
Proof.
  unfold AdminDraftUpsert.
  destruct (decide (TrimSpace accountID = "")); [discriminate|].
  destruct (Ingest (upsert_input req)) as [ing|e]; [|discriminate].
  unfold commit.
  destruct (draft_upsert_tx now (TrimSpace accountID) ing db) as [[r d]|e] eqn:Htx;
    [|discriminate].
  intros [= -> ->]. eauto.
Qed.

(** A call that returns an error leaves the database as it was. *)
Lemma AdminDraftUpsert_Err (db db' : DB) (now : Z) (accountID : string)
    (req : AdminDraftUpsertRequest.t) (e : error) :
  AdminDraftUpsert db now accountID req = (Err e, db') -> db' = db.
Proof.
  unfold AdminDraftUpsert.
  destruct (decide (TrimSpace accountID = "")); [by intros [= _ <-]|].
  destruct (Ingest (upsert_input req)) as [ing|e']; [|by intros [= _ <-]].
  unfold commit.
  destruct (draft_upsert_tx now (TrimSpace accountID) ing db) as [[r d]|e'];
    [discriminate | by intros [= _ <-]].
Qed.

Lemma AdminDraftUpsert_run (db : DB) (now : Z) (accountID : string)
    (req : AdminDraftUpsertRequest.t) (ing : Output.t) :
  TrimSpace accountID <> "" ->
  Ingest (upsert_input req) = Ok ing ->
  AdminDraftUpsert db now accountID req
  = commit db (draft_upsert_tx now (TrimSpace accountID) ing).
Proof.
  intros Ha Hi. unfold AdminDraftUpsert.
  destruct (decide (TrimSpace accountID = "")); [contradiction|].
  by rewrite Hi.
Qed.

(** The transaction is the story upsert followed by one of the two paths,
    chosen by the lookup of the content hash among the story's versions. *)
Lemma draft_upsert_tx_paths (now : Z) (accountID : string) (ing : Output.t)
    (db db1 : DB) :
  upsert_story now accountID ing db
    = Ok (story_id_for db accountID (Output.Slug ing), db1) ->
  content_view db1 = content_view db ->
  text_in (Output.ContentHash ing) = true ->
  draft_upsert_tx now accountID ing db
  = match find (version_key (story_id_for db accountID (Output.Slug ing))
                            (Output.ContentHash ing)) (story_versions db) with
    | Some existing =>
        reuse_version_tx now (story_id_for db accountID (Output.Slug ing))
                         ing existing db1
    | None =>
        new_version_tx now (story_id_for db accountID (Output.Slug ing)) ing db1
    end.
Proof.
  intros Hu Hc Hh.
  unfold draft_upsert_tx, tx_bind. rewrite Hu.
  unfold select_version_by_hash. rewrite (checked_taken _ _ _ Hh).
  assert (Hv : story_versions db1 = story_versions db).
  { unfold content_view in Hc. by inversion Hc. }
  rewrite Hv.
  destruct (find _ (story_versions db)) as [v|]; [|reflexivity].
  destruct (decide (TrimSpace (uuid_text (VersionRow.id v)) = "")) as [Hb|_];
    [|reflexivity].
  by apply TrimSpace_uuid_text in Hb.
Qed.

(** *** The loop that inserts the segments *)

Lemma segments_loop_spec (versionID : UUID) (nc : bool) (m : gmap Z UUID)
    (segments : list Segment.t) (cur : option UUID) (db : DB) :
  Forall (fun seg => segment_params_in seg = true) segments ->
  exists cur' rows,
    tx_fold (segments_step versionID nc m) cur segments db
      = Ok (cur', with_story_segments (story_segments db ++ rows) db)
    /\ map SegmentRow.section_id rows = section_args nc m cur segments
    /\ map row_content rows = map segment_content segments
    /\ Forall (fun r => SegmentRow.story_version_id r = versionID) rows.
Proof.
  intros Hin. revert cur db.
  induction Hin as [|seg segments Hseg _ IH]; intros cur db.
  - exists cur, []. simpl. rewrite app_nil_r. destruct db; auto.
  - simpl. unfold segments_step at 1.
    destruct (section_of nc m cur seg) as [arg cur1] eqn:Hsec.
    unfold tx_bind at 1 2. unfold insert_segment at 1.
    rewrite (checked_taken _ _ _ Hseg). simpl.
    edestruct (IH cur1) as (cur' & rows & Hrun & Hargs & Hcont & Hver).
    rewrite Hrun. simpl. eexists cur', (_ :: rows).
    split; [|split; [|split]].
    + unfold with_story_segments. simpl. rewrite <- app_assoc. reflexivity.
    + simpl. by rewrite Hargs.
    + simpl. by rewrite Hcont.
    + constructor; [reflexivity | exact Hver].
Qed.

Lemma segments_loop_taken (versionID : UUID) (nc : bool) (m : gmap Z UUID)
    (segments : list Segment.t) (cur : option UUID) (db : DB)
    (r : option UUID * DB) :
  tx_fold (segments_step versionID nc m) cur segments db = Ok r ->
  Forall (fun seg => segment_params_in seg = true) segments.
Proof.
  revert cur db. induction segments as [|seg segments IH]; intros cur db Hrun;
    [constructor|].
  simpl in Hrun. destruct r as [c d].
  apply tx_bind_Ok in Hrun as (cur1 & db1 & Hstep & Hrest).
  constructor; [|exact (IH _ _ Hrest)].
  unfold segments_step in Hstep.
  destruct (section_of nc m cur seg) as [arg cur2].
  apply tx_bind_Ok in Hstep as (u & db2 & Hins & _).
  unfold insert_segment in Hins. by apply checked_Ok in Hins as [? _].
Qed.

(** *** The loop that inserts the sections *)

Lemma sections_loop_spec (versionID : UUID) (chapters : list chapter)
    (chs0 : list chapter) (m0 : gmap Z UUID) (db : DB) :
  Forall (fun c => section_params_in (Some (Title c)) (SectionOrdinal c) = true)
         chapters ->
  exists chs m secs,
    tx_fold (sections_step versionID) (chs0, m0) chapters db
      = Ok ((chs, m), with_story_sections (story_sections db ++ secs) db)
    /\ Forall (fun r => SectionRow.story_version_id r = versionID) secs
    /\ NoDup (map SectionRow.id secs)
    /\ (forall r, r ∈ secs -> SectionRow.id r ∉ map SectionRow.id (story_sections db))
    /\ map section_content secs
       = map (fun c => ("chapter", Some (Title c), SectionOrdinal c)) chapters
    /\ (forall k c r,
          chapters !! k = Some c -> secs !! k = Some r ->
          (forall j c', (k < j)%nat -> chapters !! j = Some c' ->
                        StartSegOrdinal c' <> StartSegOrdinal c) ->
          m !! StartSegOrdinal c = Some (SectionRow.id r))
    /\ (forall z, (forall c, c ∈ chapters -> StartSegOrdinal c <> z) -> m !! z = m0 !! z).
Proof.
  intros Hin. revert chs0 m0 db.
  induction Hin as [|c chapters Hc _ IH]; intros chs0 m0 db.
  - exists chs0, m0, []. simpl. rewrite app_nil_r.
    split; [by destruct db|]. split; [constructor|]. split; [constructor|].
    split; [intros r Hr; by apply elem_of_nil in Hr|]. split; [reflexivity|].
    split; [intros k c r Hk; by rewrite lookup_nil in Hk | reflexivity].
  - simpl. unfold sections_step at 1. unfold tx_bind at 1 2.
    unfold insert_section at 1. rewrite (checked_taken _ _ _ Hc). simpl.
    set (id0 := fresh (map SectionRow.id (story_sections db))).
    set (r0 := {| SectionRow.id := id0; SectionRow.story_version_id := versionID;
                  SectionRow.kind := "chapter"; SectionRow.title := Some (Title c);
                  SectionRow.ordinal := SectionOrdinal c |}).
    set (db1 := with_story_sections (story_sections db ++ [r0]) db).
    edestruct (IH (chs0 ++ [ {| StartSegOrdinal := StartSegOrdinal c; Title := Title c;
                                SectionOrdinal := SectionOrdinal c;
                                ID := uuid_text id0 |} ])
                  (<[ StartSegOrdinal c := id0 ]> m0) db1)
      as (chs & m & secs & Hrun & Hver & Hnd & Hnew & Hcont & Hlook & Hother).
    unfold tx_ret. simpl. rewrite Hrun.
    exists chs, m, (r0 :: secs).
    assert (Hfresh : forall r, r ∈ secs -> SectionRow.id r <> id0).
    { intros r Hr Heq. apply (Hnew r Hr). subst db1. simpl.
      rewrite map_app. apply elem_of_app. right. simpl. rewrite Heq. by left. }
    split; [|split; [|split; [|split; [|split; [|split]]]]].
    + subst db1. unfold with_story_sections. simpl. by rewrite <- app_assoc.
    + constructor; [reflexivity | exact Hver].
    + simpl. constructor; [|exact Hnd].
      intros Hin'. apply list_elem_of_fmap in Hin' as (r & Heq & Hr).
      by apply (Hfresh r Hr).
    + intros r Hr. apply elem_of_cons in Hr as [->|Hr].
      * simpl. apply fresh_not_in.
      * intros Hin'. apply (Hnew r Hr). subst db1. simpl.
        rewrite map_app. apply elem_of_app. by left.
    + simpl. by rewrite Hcont.
    + intros [|k] c' r Hc' Hr Hlater; simpl in Hc', Hr.
      * inversion Hc'; inversion Hr; subst c' r.
        rewrite Hother; [by rewrite lookup_insert_eq|].
        intros c2 Hc2. apply list_elem_of_lookup in Hc2 as [j Hj].
        apply (Hlater (S j) c2); [lia | exact Hj].
      * apply (Hlook k c' r Hc' Hr). intros j c2 Hj Hc2.
        apply (Hlater (S j) c2); [lia | exact Hc2].
    + intros z Hz. rewrite Hother.
      * apply lookup_insert_ne. apply Hz. by left.
      * intros c2 Hc2. apply Hz. by right.
Qed.

Lemma sections_loop_taken (versionID : UUID) (chapters : list chapter)
    (st : list chapter * gmap Z UUID) (db : DB)
    (r : list chapter * gmap Z UUID * DB) :
  tx_fold (sections_step versionID) st chapters db = Ok r ->
  Forall (fun c => section_params_in (Some (Title c)) (SectionOrdinal c) = true)
         chapters.
Proof.
  revert st db. induction chapters as [|c chapters IH]; intros st db Hrun;
    [constructor|].
  simpl in Hrun. destruct r as [s d].
  apply tx_bind_Ok in Hrun as (st1 & db1 & Hstep & Hrest).
  constructor; [|exact (IH _ _ Hrest)].
  unfold sections_step in Hstep.
  apply tx_bind_Ok in Hstep as (u & db2 & Hins & _).
  unfold insert_section in Hins. by apply checked_Ok in Hins as [? _].
Qed.

Lemma insert_sections_spec (versionID : UUID) (chapters : list chapter) (db : DB) :
  Forall (fun c => section_params_in (Some (Title c)) (SectionOrdinal c) = true)
         chapters ->
  exists chs m secs,
    insert_sections versionID chapters db
      = Ok ((chs, m), with_story_sections (story_sections db ++ secs) db)
    /\ sections_inserted versionID (story_sections db) chapters m secs.
Proof.
  intros Hin.
  unfold insert_sections, sections_inserted. destruct chapters as [|c chapters].
  - unfold tx_bind, insert_section, tx_ret. simpl.
    eexists [], _, [_]. split; [reflexivity|].
    split; [by repeat constructor|]. split.
    { simpl. constructor; [|constructor]. intros Hin'. by apply elem_of_nil in Hin'. }
    split.
    { intros r Hr. apply list_elem_of_singleton in Hr as ->. simpl. apply fresh_not_in. }
    eexists. split; [reflexivity|]. split; reflexivity.
  - destruct (sections_loop_spec versionID (c :: chapters) [] ∅ db Hin)
      as (chs & m & secs & Hrun & Hver & Hnd & Hnew & Hcont & Hlook & Hother).
    exists chs, m, secs. split; [exact Hrun|].
    split; [exact Hver|]. split; [exact Hnd|]. split; [exact Hnew|].
    split; [exact Hcont|]. split; [exact Hlook|].
    intros z Hz. by rewrite Hother.
Qed.

Lemma insert_sections_taken (versionID : UUID) (chapters : list chapter) (db : DB)
    (r : list chapter * gmap Z UUID * DB) :
  insert_sections versionID chapters db = Ok r ->
  Forall (fun c => section_params_in (Some (Title c)) (SectionOrdinal c) = true)
         chapters.
Proof.
  unfold insert_sections. destruct chapters as [|c chapters]; [constructor|].
  apply sections_loop_taken.
Qed.

(** *** The two paths of the transaction *)

Lemma content_view_eq (db db' : DB) :
  content_view db' = content_view db ->
  story_versions db' = story_versions db
  /\ story_sections db' = story_sections db
  /\ story_segments db' = story_segments db.
Proof. unfold content_view. intros [= -> -> ->]. auto. Qed.

Lemma reuse_version_tx_spec (now : Z) (storyID : UUID) (ing : Output.t)
    (existing : VersionRow.t) (db : DB) :
  exists db',
    reuse_version_tx now storyID ing existing db
      = Ok ({| AdminDraftUpsertResponse.StoryID := uuid_text storyID;
               AdminDraftUpsertResponse.StoryVersionID := uuid_text (VersionRow.id existing);
               AdminDraftUpsertResponse.Slug := Output.Slug ing;
               AdminDraftUpsertResponse.Version := VersionRow.version existing;
               AdminDraftUpsertResponse.SegmentsCount := len (Output.Segments ing);
               AdminDraftUpsertResponse.RenderedHTML := VersionRow.rendered_html existing |},
            db')
    /\ content_view db' = content_view db
    /\ stories db' = stories_with_draft now storyID (VersionRow.id existing) (stories db).
Proof.
  unfold reuse_version_tx, tx_bind. unfold update_draft at 1.
  set (db1 := with_stories _ db).
  destruct (link_author_total storyID (Output.Author ing) db1) as (db' & Hl).
  rewrite Hl. exists db'. split; [reflexivity|].
  rewrite (link_author_content _ _ _ _ _ Hl), (link_author_stories _ _ _ _ _ Hl).
  split; reflexivity.
Qed.

Lemma new_version_tx_overflow (now : Z) (storyID : UUID) (ing : Output.t) (db : DB) :
  2147483647 < next_version_of db storyID ->
  new_version_tx now storyID ing db = Err ErrIntegerOutOfRange.
Proof.
  intros Hbig. unfold new_version_tx, tx_bind. unfold select_next_version at 1.
  fold (next_version_of db storyID).
  destruct (2147483647 <? next_version_of db storyID) eqn:Hlt; [reflexivity|].
  apply Z.ltb_ge in Hlt. lia.
Qed.

Lemma new_version_tx_spec (now : Z) (storyID : UUID) (ing : Output.t) (db : DB) :
  let row := new_version_row db storyID ing in
  let chapters := collect_chapters (Output.Segments ing) in
  next_version_of db storyID <= 2147483647 ->
  content_accepted ing ->
  exists m secs rows db',
    new_version_tx now storyID ing db
      = Ok ({| AdminDraftUpsertResponse.StoryID := uuid_text storyID;
               AdminDraftUpsertResponse.StoryVersionID := uuid_text (VersionRow.id row);
               AdminDraftUpsertResponse.Slug := Output.Slug ing;
               AdminDraftUpsertResponse.Version := VersionRow.version row;
               AdminDraftUpsertResponse.SegmentsCount := len (Output.Segments ing);
               AdminDraftUpsertResponse.RenderedHTML := Output.RenderedHTML ing |},
            db')
    /\ sections_inserted (VersionRow.id row) (story_sections db) chapters m secs
    /\ map SegmentRow.section_id rows
       = section_args (bool_decide (chapters = [])) m None (Output.Segments ing)
    /\ map row_content rows = map segment_content (Output.Segments ing)
    /\ Forall (fun r => SegmentRow.story_version_id r = VersionRow.id row) rows
    /\ story_versions db' = story_versions db ++ [row]
    /\ story_sections db' = story_sections db ++ secs
    /\ story_segments db' = story_segments db ++ rows
    /\ stories db' = stories_with_draft now storyID (VersionRow.id row) (stories db).
Proof.
  intros row chapters Hfit (Hversion & Hsections & Hsegments).
  unfold new_version_tx, tx_bind. unfold select_next_version at 1.
  fold (next_version_of db storyID).
  destruct (2147483647 <? next_version_of db storyID) eqn:Hlt.
  { apply Z.ltb_lt in Hlt. lia. }
  unfold insert_version at 1. rewrite (checked_taken _ _ _ Hversion).
  fold (new_version_row db storyID ing). fold row.
  set (db2 := with_story_versions (story_versions db ++ [row]) db).
  fold chapters.
  destruct (insert_sections_spec (VersionRow.id row) chapters db2 Hsections)
    as (chs & m & secs & Hsec & Hins).
  change (fresh (map VersionRow.id (story_versions db))) with (VersionRow.id row).
  rewrite Hsec. simpl snd.
  match goal with
  | |- context [tx_fold ?f None ?l ?d] =>
      destruct (segments_loop_spec (VersionRow.id row) (bool_decide (chapters = [])) m
                  (Output.Segments ing) None d Hsegments)
        as (cur' & rows & Hseg & Hargs & Hcont & Hver);
      rewrite Hseg
  end.
  unfold update_draft at 1.
  match goal with
  | |- context [link_author ?a ?b ?d] =>
      destruct (link_author_total a b d) as (db' & Hl); rewrite Hl
  end.
  exists m, secs, rows, db'. unfold tx_ret.
  split; [reflexivity|]. split; [exact Hins|].
  split; [exact Hargs|]. split; [exact Hcont|]. split; [exact Hver|].
  destruct (content_view_eq _ _ (link_author_content _ _ _ _ _ Hl)) as (-> & -> & ->).
  rewrite (link_author_stories _ _ _ _ _ Hl).
  repeat split; reflexivity.
Qed.

(** The new-content path runs to its end only when the next number fits
    the column and the server takes every row. *)
Lemma new_version_tx_taken (now : Z) (storyID : UUID) (ing : Output.t) (db : DB)
    (r : AdminDraftUpsertResponse.t * DB) :
  new_version_tx now storyID ing db = Ok r ->
  next_version_of db storyID <= 2147483647 /\ content_accepted ing.
Proof.
  intros Hrun. destruct r as [resp d]. unfold new_version_tx in Hrun.
  apply tx_bind_Ok in Hrun as (next & db1 & Hnext & Hrun).
  unfold select_next_version in Hnext. fold (next_version_of db storyID) in Hnext.
  destruct (2147483647 <? next_version_of db storyID) eqn:Hlt; [discriminate|].
  apply Z.ltb_ge in Hlt. split; [exact Hlt|].
  apply tx_bind_Ok in Hrun as (versionID & db2 & Hversion & Hrun).
  unfold insert_version in Hversion. apply checked_Ok in Hversion as [Hversion _].
  apply tx_bind_Ok in Hrun as (secs & db3 & Hsections & Hrun).
  apply insert_sections_taken in Hsections.
  apply tx_bind_Ok in Hrun as (cur & db4 & Hsegments & _).
  apply segments_loop_taken in Hsegments.
  by split; [|split].
Qed.

(** *** The addressed story after the draft pointer is set *)

Lemma story_for_with_draft (db db1 : DB) (now : Z) (accountID slug : string)
    (storyID versionID : UUID) (s1 : StoryRow.t) :
  story_for db1 accountID slug = Some s1 ->
  StoryRow.id s1 = storyID ->
  stories db = stories_with_draft now storyID versionID (stories db1) ->
  story_for db accountID slug = Some (set_draft now versionID s1).
Proof.
  intros Hs1 Hid Hst. unfold story_for in *. rewrite Hst. unfold stories_with_draft.
  rewrite find_map_key.
  2:{ intros x. destruct (decide (StoryRow.id x = storyID)); reflexivity. }
  rewrite Hs1. simpl.
  destruct (decide (StoryRow.id s1 = storyID)); [reflexivity | contradiction].
Qed.

Lemma story_id_for_Some (db : DB) (accountID slug : string) (s : StoryRow.t) :
  story_for db accountID slug = Some s -> story_id_for db accountID slug = StoryRow.id s.
Proof. intros Hs. unfold story_id_for. by rewrite Hs. Qed.

Lemma published_view_with_draft (db db1 : DB) (now : Z) (storyID versionID : UUID) :
  stories db = stories_with_draft now storyID versionID (stories db1) ->
  published_view db = published_view db1.
Proof.
  intros Hst. unfold published_view. rewrite Hst. unfold stories_with_draft.
  rewrite map_map. apply map_ext. intros s.
  destruct (decide (StoryRow.id s = storyID)); reflexivity.
Qed.

(** *** The whole transaction *)

Lemma next_version_of_content (db db1 : DB) (storyID : UUID) :
  content_view db1 = content_view db ->
  next_version_of db1 storyID = next_version_of db storyID.
Proof.
  intros Hc. apply content_view_eq in Hc as (Hv & _ & _).
  unfold next_version_of, versions_of. by rewrite Hv.
Qed.

Lemma new_version_row_content (db db1 : DB) (storyID : UUID) (ing : Output.t) :
  content_view db1 = content_view db ->
  new_version_row db1 storyID ing = new_version_row db storyID ing.
Proof.
  intros Hc. unfold new_version_row.
  rewrite (next_version_of_content _ _ _ Hc).
  apply content_view_eq in Hc as (Hv & _ & _). by rewrite Hv.
Qed.

(** What the transaction returns and writes, case by case, when the
    server takes the parameters of its statements. *)
Lemma draft_upsert_tx_spec (now : Z) (accountID : string) (ing : Output.t) (db : DB) :
  let storyID := story_id_for db accountID (Output.Slug ing) in
  let row := new_version_row db storyID ing in
  let chapters := collect_chapters (Output.Segments ing) in
  story_params_in accountID ing = true ->
  text_in (Output.ContentHash ing) = true ->
  exists db1 s1,
    story_for db1 accountID (Output.Slug ing) = Some s1
    /\ StoryRow.id s1 = storyID
    /\ match story_for db accountID (Output.Slug ing) with
       | Some s =>
           published_view db1 = published_view db
           /\ StoryRow.published_version_id s1 = StoryRow.published_version_id s
           /\ StoryRow.is_published s1 = StoryRow.is_published s
       | None =>
           published_view db1 = published_view db ++ [(storyID, None, false)]
           /\ StoryRow.published_version_id s1 = None
           /\ StoryRow.is_published s1 = false
       end
    /\ match find (version_key storyID (Output.ContentHash ing)) (story_versions db) with
       | Some existing =>
           exists db',
             draft_upsert_tx now accountID ing db
               = Ok (reuse_response storyID ing existing, db')
             /\ content_view db' = content_view db
             /\ stories db'
                = stories_with_draft now storyID (VersionRow.id existing) (stories db1)
       | None =>
           next_version_of db storyID <= 2147483647 ->
           content_accepted ing ->
           exists m secs rows db',
             draft_upsert_tx now accountID ing db
               = Ok (new_response storyID ing row, db')
             /\ sections_inserted (VersionRow.id row) (story_sections db) chapters m secs
             /\ map SegmentRow.section_id rows
                = section_args (bool_decide (chapters = [])) m None (Output.Segments ing)
             /\ map row_content rows = map segment_content (Output.Segments ing)
             /\ Forall (fun r => SegmentRow.story_version_id r = VersionRow.id row) rows
             /\ story_versions db' = story_versions db ++ [row]
             /\ story_sections db' = story_sections db ++ secs
             /\ story_segments db' = story_segments db ++ rows
             /\ stories db'
                = stories_with_draft now storyID (VersionRow.id row) (stories db1)
       end.
Proof.
  intros storyID row chapters Hstory Hhash.
  destruct (upsert_story_spec now accountID ing db Hstory)
    as (db1 & s1 & Hu & Hs1 & Hid & Hc & Hpub).
  exists db1, s1. split; [exact Hs1|]. split; [exact Hid|]. split; [exact Hpub|].
  rewrite (draft_upsert_tx_paths now accountID ing db db1 Hu Hc Hhash). fold storyID.
  destruct (find _ (story_versions db)) as [existing|].
  - destruct (reuse_version_tx_spec now storyID ing existing db1) as (db' & Hr & Hc' & Hst).
    exists db'. split; [exact Hr|]. split; [by rewrite Hc'|exact Hst].
  - intros Hfit Hcontent.
    destruct (new_version_tx_spec now storyID ing db1)
      as (m & secs & rows & db' & Hrun & Hins & Hargs & Hcont & Hver & Hv & Hse & Hsg & Hst).
    { by rewrite (next_version_of_content _ _ _ Hc). }
    { exact Hcontent. }
    rewrite (new_version_row_content _ _ _ _ Hc) in *. fold row in Hrun, Hins, Hver, Hv, Hst.
    apply content_view_eq in Hc as (Hcv & Hcs & Hcg).
    rewrite Hcv in Hv. rewrite Hcs in Hins, Hse. rewrite Hcg in Hsg.
    exists m, secs, rows, db'. repeat (split; [assumption|]). assumption.
Qed.

(** A transaction that ran to its end had its parameters taken. *)
Lemma draft_upsert_tx_taken (now : Z) (accountID : string) (ing : Output.t)
    (db : DB) (r : AdminDraftUpsertResponse.t * DB) :
  let storyID := story_id_for db accountID (Output.Slug ing) in
  draft_upsert_tx now accountID ing db = Ok r ->
  story_params_in accountID ing = true
  /\ text_in (Output.ContentHash ing) = true
  /\ (find (version_key storyID (Output.ContentHash ing)) (story_versions db) = None ->
      next_version_of db storyID <= 2147483647 /\ content_accepted ing).
Proof.
  intros storyID Hrun. pose proof Hrun as Hrun0.
  unfold draft_upsert_tx in Hrun. destruct r as [resp d].
  apply tx_bind_Ok in Hrun as (sid & db1 & Hu & Hrun).
  pose proof (upsert_story_taken _ _ _ _ _ Hu) as Hstory.
  apply tx_bind_Ok in Hrun as (found & db2 & Hsel & _).
  unfold select_version_by_hash in Hsel. apply checked_Ok in Hsel as [Hhash _].
  split; [exact Hstory|]. split; [exact Hhash|]. intros Hnone.
  destruct (upsert_story_spec now accountID ing db Hstory)
    as (db1' & s1 & Hu' & _ & _ & Hc & _).
  rewrite (draft_upsert_tx_paths now accountID ing db db1' Hu' Hc Hhash) in Hrun0.
  fold storyID in Hrun0. rewrite Hnone in Hrun0.
  apply new_version_tx_taken in Hrun0 as [Hfit Hcontent].
  rewrite (next_version_of_content _ _ _ Hc) in Hfit. by split.
Qed.

(** What a transaction that ran to its end has returned and written. *)
Lemma draft_upsert_tx_Ok (now : Z) (accountID : string) (ing : Output.t)
    (db : DB) (r : AdminDraftUpsertResponse.t * DB) :
  let storyID := story_id_for db accountID (Output.Slug ing) in
  let row := new_version_row db storyID ing in
  let chapters := collect_chapters (Output.Segments ing) in
  draft_upsert_tx now accountID ing db = Ok r ->
  exists db1 s1,
    story_for db1 accountID (Output.Slug ing) = Some s1
    /\ StoryRow.id s1 = storyID
    /\ match story_for db accountID (Output.Slug ing) with
       | Some s =>
           published_view db1 = published_view db
           /\ StoryRow.published_version_id s1 = StoryRow.published_version_id s
           /\ StoryRow.is_published s1 = StoryRow.is_published s
       | None =>
           published_view db1 = published_view db ++ [(storyID, None, false)]
           /\ StoryRow.published_version_id s1 = None
           /\ StoryRow.is_published s1 = false
       end
    /\ match find (version_key storyID (Output.ContentHash ing)) (story_versions db) with
       | Some existing =>
           exists db',
             draft_upsert_tx now accountID ing db
               = Ok (reuse_response storyID ing existing, db')
             /\ content_view db' = content_view db
             /\ stories db'
                = stories_with_draft now storyID (VersionRow.id existing) (stories db1)
       | None =>
           exists m secs rows db',
             draft_upsert_tx now accountID ing db
               = Ok (new_response storyID ing row, db')
             /\ sections_inserted (VersionRow.id row) (story_sections db) chapters m secs
             /\ map SegmentRow.section_id rows
                = section_args (bool_decide (chapters = [])) m None (Output.Segments ing)
             /\ map row_content rows = map segment_content (Output.Segments ing)
             /\ Forall (fun r => SegmentRow.story_version_id r = VersionRow.id row) rows
             /\ story_versions db' = story_versions db ++ [row]
             /\ story_sections db' = story_sections db ++ secs
             /\ story_segments db' = story_segments db ++ rows
             /\ stories db'
                = stories_with_draft now storyID (VersionRow.id row) (stories db1)
       end.
Proof.
  intros storyID row chapters Hrun.
  destruct (draft_upsert_tx_taken now accountID ing db r Hrun) as (Hstory & Hhash & Hnew).
  fold storyID in Hnew.
  destruct (draft_upsert_tx_spec now accountID ing db Hstory Hhash)
    as (db1 & s1 & Hs1 & Hid & Hpub & Hcase).
  fold storyID in Hid, Hpub, Hcase. fold row chapters in Hcase.
  exists db1, s1. split; [exact Hs1|]. split; [exact Hid|]. split; [exact Hpub|].
  destruct (find _ (story_versions db)) as [existing|]; [exact Hcase|].
  destruct (Hnew eq_refl) as [Hfit Hcontent]. exact (Hcase Hfit Hcontent).
Qed.

(** The call succeeds when the server takes the parameters of the
    statements it runs and the next number fits the column. *)
Lemma AdminDraftUpsert_taken (db : DB) (now : Z) (accountID : string)
    (req : AdminDraftUpsertRequest.t) (ing : Output.t) :
  let storyID := story_id_for db (TrimSpace accountID) (Output.Slug ing) in
  TrimSpace accountID <> "" ->
  Ingest (upsert_input req) = Ok ing ->
  story_params_in (TrimSpace accountID) ing = true ->
  text_in (Output.ContentHash ing) = true ->
  (find (version_key storyID (Output.ContentHash ing)) (story_versions db) = None ->
   next_version_of db storyID <= 2147483647 /\ content_accepted ing) ->
  exists resp db', AdminDraftUpsert db now accountID req = (Ok resp, db').
Proof.
  intros storyID Hacc Hing Hstory Hhash Hnew.
  rewrite (AdminDraftUpsert_run db now accountID req ing Hacc Hing). unfold commit.
  destruct (draft_upsert_tx_spec now (TrimSpace accountID) ing db Hstory Hhash)
    as (db1 & s1 & _ & _ & _ & Hcase).
  fold storyID in Hcase.
  destruct (find _ (story_versions db)) as [existing|].
  - destruct Hcase as (db' & -> & _). eauto.
  - destruct (Hnew eq_refl) as [Hfit Hcontent].
    destruct (Hcase Hfit Hcontent) as (m & secs & rows & db' & -> & _). eauto.
Qed.

(** The call fails, and writes nothing, when the server rejects a
    parameter of the story upsert: a title or an author with a NUL byte,
    or an account that is no key. *)
Lemma AdminDraftUpsert_rejected (db : DB) (now : Z) (accountID : string)
    (req : AdminDraftUpsertRequest.t) (ing : Output.t) :
  TrimSpace accountID <> "" ->
  Ingest (upsert_input req) = Ok ing ->
  has_NUL (Output.Title ing) = true \/ has_NUL (Output.Author ing) = true
  \/ postgres_uuid_in (TrimSpace accountID) = false ->
  AdminDraftUpsert db now accountID req = (Err ErrDataException, db).
Proof.
  intros Hacc Hing Hbad.
  rewrite (AdminDraftUpsert_run db now accountID req ing Hacc Hing).
  unfold commit, draft_upsert_tx, tx_bind, upsert_story.
  rewrite checked_rejected; [reflexivity|].
  unfold story_params_in.
  destruct Hbad as [H|[H|H]].
  - rewrite (text_in_NUL _ H). by rewrite !andb_false_r.
  - rewrite (text_in_NUL _ H). by rewrite !andb_false_r.
  - by rewrite H.
Qed.

End Upsert.

Lemma views_of_content (rows : list SegmentRow.t) (segments : list Segment.t) :
  map row_content rows = map segment_content segments ->
  map row_view rows = map segment_view segments.
Proof.
  intros Hc.
  apply (f_equal (map (fun c : Z * RawMessage * string * string * Z =>
                         (fst (fst (fst (fst c))), snd (fst (fst (fst c))), snd (fst c)))))
    in Hc.
  rewrite !map_map in Hc. exact Hc.
Qed.

(** *** Version numbers *)

Lemma MAX_spec (l : list Z) (m : Z) :
  MAX l = Some m -> m ∈ l /\ forall x, x ∈ l -> x <= m.
Proof.
  destruct l as [|x l]; simpl; [discriminate|]. intros [= <-].
  induction l as [|y l IH]; simpl.
  - split; [by left|]. intros z Hz. apply list_elem_of_singleton in Hz. lia.
  - destruct IH as [Hin Hmax]. split.
    + destruct (Z.max_spec y (foldr Z.max x l)) as [[_ ->]|[_ ->]].
      * apply elem_of_cons in Hin as [->|Hin]; [by left | right; by right].
      * right. by left.
    + intros z Hz. apply elem_of_cons in Hz as [->|Hz].
      * specialize (Hmax x ltac:(by left)). lia.
      * apply elem_of_cons in Hz as [->|Hz]; [lia|].
        specialize (Hmax z ltac:(by right)). lia.
Qed.

Lemma MAX_snoc (l : list Z) (y : Z) :
  MAX (l ++ [y]) = Some (match MAX l with Some m => Z.max m y | None => y end).
Proof.
  destruct l as [|x l]; simpl; [reflexivity|]. f_equal.
  induction l as [|z l IH]; simpl; [lia|]. rewrite IH. lia.
Qed.

Lemma MAX_seqZ (n : nat) : default 0 (MAX (seqZ 1 (Z.of_nat n))) = Z.of_nat n.
Proof.
  induction n as [|n IH]; [reflexivity|].
  replace (Z.of_nat (S n)) with (Z.of_nat n + 1) by lia.
  rewrite seqZ_app by lia.
  change (seqZ (1 + Z.of_nat n) 1) with [1 + Z.of_nat n].
  rewrite MAX_snoc.
  destruct (MAX (seqZ 1 (Z.of_nat n))) as [m|]; simpl in *; lia.
Qed.

Lemma find_version_key (storyID : UUID) (hash : string) (vs : list VersionRow.t) :
  find (version_key storyID hash) vs
  = find (fun v => bool_decide (VersionRow.content_hash v = hash))
         (filter (fun v => VersionRow.story_id v = storyID) vs).
Proof.
  induction vs as [|v vs IH]; [reflexivity|].
  rewrite filter_cons. simpl. unfold version_key at 1.
  destruct (decide (VersionRow.story_id v = storyID)) as [Hs|Hs]; simpl.
  - destruct (decide (VersionRow.content_hash v = hash)) as [Hh|Hh].
    + rewrite !bool_decide_eq_true_2; [reflexivity | exact Hh | by split].
    + rewrite !bool_decide_eq_false_2; [exact IH | exact Hh | tauto].
  - rewrite bool_decide_eq_false_2 by tauto. exact IH.
Qed.

(** In a list of versions numbered [a], [a+1], ... the lookup of a hash
    finds the version at the position of the hash. *)
Lemma find_hash_index (h : string) (l : list VersionRow.t) (a : Z) :
  map VersionRow.version l = seqZ a (Z.of_nat (length l)) ->
  match index_of h (map VersionRow.content_hash l) with
  | Some k =>
      exists v, find (fun v => bool_decide (VersionRow.content_hash v = h)) l = Some v
                /\ VersionRow.version v = a + Z.of_nat k
  | None => find (fun v => bool_decide (VersionRow.content_hash v = h)) l = None
  end.
Proof.
  revert a. induction l as [|v l IH]; intros a Hnum; simpl; [reflexivity|].
  replace (Z.of_nat (length (v :: l))) with (Z.succ (Z.of_nat (length l))) in Hnum
    by (simpl; lia).
  rewrite seqZ_cons in Hnum by lia. simpl in Hnum. inversion Hnum as [[Hv Hl]].
  rewrite Z.pred_succ in Hl.
  destruct (decide (VersionRow.content_hash v = h)) as [Hh|Hh].
  - rewrite bool_decide_eq_true_2 by exact Hh. exists v. split; [reflexivity | lia].
  - rewrite bool_decide_eq_false_2 by exact Hh.
    rewrite Hv in Hl. specialize (IH (Z.succ a) Hl).
    destruct (index_of h (map VersionRow.content_hash l)) as [k|]; simpl.
    + destruct IH as (w & Hw & Hver). exists w. split; [exact Hw | lia].
    + exact IH.
Qed.

Lemma index_of_not_in (h : string) (l : list string) :
  h ∉ l -> index_of h l = None.
Proof.
  induction l as [|x l IH]; simpl; intros Hin; [reflexivity|].
  destruct (decide (x = h)) as [->|Hne]; [exfalso; apply Hin; by left|].
  rewrite IH; [reflexivity|]. intros Hl. apply Hin. by right.
Qed.

(** Distinct contents are numbered 1, 2, 3, ... *)
Lemma expected_versions_NoDup (seen hashes : list string) :
  NoDup (seen ++ hashes) ->
  expected_versions seen hashes
  = seqZ (Z.of_nat (length seen) + 1) (Z.of_nat (length hashes)).
Proof.
  revert seen. induction hashes as [|h hashes IH]; intros seen Hnd; [reflexivity|].
  simpl expected_versions.
  assert (Hnot : h ∉ seen).
  { apply NoDup_app in Hnd as (_ & Hdis & _). intros Hin. apply (Hdis h Hin). by left. }
  rewrite (index_of_not_in _ _ Hnot).
  rewrite IH.
  2:{ rewrite <- app_assoc. exact Hnd. }
  replace (Z.of_nat (length (h :: hashes))) with (Z.succ (Z.of_nat (length hashes)))
    by (cbn [length]; lia).
  rewrite (seqZ_cons (Z.of_nat (length seen) + 1)) by lia.
  rewrite length_app, Nat2Z.inj_add.
  change (Z.of_nat (length [h])) with 1.
  f_equal. f_equal; lia.
Qed.

Lemma versions_of_snoc (db db' : DB) (storyID : UUID) (row : VersionRow.t) :
  story_versions db' = story_versions db ++ [row] ->
  VersionRow.story_id row = storyID ->
  versions_of storyID db' = versions_of storyID db ++ [row].
Proof.
  intros Hv Hs. unfold versions_of. rewrite Hv, filter_app, filter_cons.
  destruct (decide (VersionRow.story_id row = storyID)); [reflexivity | contradiction].
Qed.

Section Numbering.
Context {collab : Collaborators}.

(** One successful ingest for a story whose versions are numbered without
    a gap. *)
Lemma upsert_step (db db' : DB) (now : Z) (accountID : string)
    (req : AdminDraftUpsertRequest.t) (resp : AdminDraftUpsertResponse.t)
    (ing : Output.t) (seen : list string) :
  AdminDraftUpsert db now accountID req = (Ok resp, db') ->
  Ingest (upsert_input req) = Ok ing ->
  numbered db (story_id_for db (TrimSpace accountID) (Output.Slug ing)) seen ->
  AdminDraftUpsertResponse.Version resp
  = match index_of (Output.ContentHash ing) seen with
    | Some k => Z.of_nat k + 1
    | None => Z.of_nat (length seen) + 1
    end
  /\ story_id_for db' (TrimSpace accountID) (Output.Slug ing)
     = story_id_for db (TrimSpace accountID) (Output.Slug ing)
  /\ numbered db' (story_id_for db (TrimSpace accountID) (Output.Slug ing))
       (distinct_after seen [Output.ContentHash ing]).
Proof.
  intros Hrun Hing [Hhashes Hnums].
  apply AdminDraftUpsert_Ok in Hrun as (Hacc & ing' & Hing' & Htx).
  rewrite Hing in Hing'. inversion Hing'; subst ing'; clear Hing'.
  set (sid := story_id_for db (TrimSpace accountID) (Output.Slug ing)) in *.
  destruct (draft_upsert_tx_Ok now (TrimSpace accountID) ing db _ Htx)
    as (db1 & s1 & Hs1 & Hid & _ & Hcase).
  fold sid in Hid, Hcase.
  assert (Hlen : length (versions_of sid db) = length seen).
  { by rewrite <- Hhashes, length_map. }
  assert (Hsid : forall versionID,
            stories db' = stories_with_draft now sid versionID (stories db1) ->
            story_id_for db' (TrimSpace accountID) (Output.Slug ing) = sid).
  { intros versionID Hst.
    rewrite (story_id_for_Some _ _ _ _
               (story_for_with_draft _ _ _ _ _ _ _ _ Hs1 Hid Hst)).
    exact Hid. }
  rewrite find_version_key in Hcase. fold (versions_of sid db) in Hcase.
  pose proof (find_hash_index (Output.ContentHash ing) (versions_of sid db) 1) as Hfind.
  rewrite Hlen, Hhashes in Hfind. specialize (Hfind Hnums).
  simpl distinct_after.
  destruct (index_of (Output.ContentHash ing) seen) as [k|].
  - destruct Hfind as (v & Hv & Hver). rewrite Hv in Hcase.
    destruct Hcase as (db'' & Hrun & Hc & Hst).
    rewrite Hrun in Htx. inversion Htx; subst resp db''; clear Htx.
    split; [simpl; lia|]. split; [exact (Hsid _ Hst)|].
    apply content_view_eq in Hc as (Hvs & _ & _).
    unfold numbered, versions_of. rewrite Hvs. by split.
  - rewrite Hfind in Hcase.
    assert (Hnext : next_version_of db sid = Z.of_nat (length seen) + 1).
    { unfold next_version_of. by rewrite Hnums, MAX_seqZ. }
    destruct Hcase as (m & secs & rows & db'' & Hrun & _ & _ & _ & _ & Hvs & _ & _ & Hst).
    rewrite Hrun in Htx. inversion Htx; subst resp db''; clear Htx.
    split; [exact Hnext|]. split; [exact (Hsid _ Hst)|].
    pose proof (versions_of_snoc db db' sid _ Hvs eq_refl) as Hsnoc.
    unfold numbered. rewrite Hsnoc, !map_app, Hhashes, Hnums. simpl.
    split; [reflexivity|].
    rewrite length_app, Nat2Z.inj_add. change (Z.of_nat (length [Output.ContentHash ing])) with 1.
    rewrite seqZ_app by lia. rewrite Hnext. f_equal.
    change (seqZ (1 + Z.of_nat (length seen)) 1) with [1 + Z.of_nat (length seen)].
    f_equal. lia.
Qed.

(** A sequence of successful ingests for one story. *)
Lemma run_upserts_numbering (now : Z) (accountID slug : string)
    (reqs : list AdminDraftUpsertRequest.t) (ings : list Output.t) :
  Forall2 (fun req ing => Ingest (upsert_input req) = Ok ing /\ Output.Slug ing = slug)
          reqs ings ->
  forall (db db' : DB) (seen : list string) (resps : list AdminDraftUpsertResponse.t),
    numbered db (story_id_for db (TrimSpace accountID) slug) seen ->
    run_upserts db now accountID reqs = (map Ok resps, db') ->
    map AdminDraftUpsertResponse.Version resps
    = expected_versions seen (map Output.ContentHash ings)
    /\ numbered db' (story_id_for db (TrimSpace accountID) slug)
         (distinct_after seen (map Output.ContentHash ings)).
Proof.
  intros Hall. induction Hall as [|req ing reqs ings [Hing Hslug] Hall IH];
    intros db db' seen resps Hnum Hruns.
  - simpl in Hruns. destruct resps as [|resp resps]; [|discriminate].
    inversion Hruns; subst db'. simpl. auto.
  - simpl run_upserts in Hruns.
    destruct resps as [|resp resps]; [discriminate|].
    destruct (AdminDraftUpsert db now accountID req) as [r db1] eqn:Hrun.
    simpl in Hruns.
    destruct (run_upserts db1 now accountID reqs) as [rs db2] eqn:Hrest.
    simpl in Hruns. injection Hruns as -> -> ->.
    subst slug.
    destruct (upsert_step db db1 now accountID req resp ing seen Hrun Hing Hnum)
      as (Hver & Hsid & Hnum1).
    rewrite <- Hsid in Hnum1.
    destruct (IH db1 db' _ resps Hnum1 Hrest) as (Hvers & Hnum').
    rewrite Hsid in Hnum'. simpl distinct_after in Hnum', Hvers.
    simpl map. simpl expected_versions. simpl distinct_after.
    rewrite Hver, Hvers.
    destruct (index_of (Output.ContentHash ing) seen); split; (reflexivity || exact Hnum').
Qed.

End Numbering.

(** *** Chapters and sections *)

Lemma is_heading_unmarshal (level : Z) (seg : Segment.t) :
  level <> 0 ->
  is_heading level (fst (Unmarshal_headingLoc (Segment.Locator seg)))
  = is_heading_segment level seg.
Proof.
  intros Hl. unfold is_heading, is_heading_segment. apply bool_decide_ext.
  unfold Unmarshal_headingLoc.
  destruct (Segment.Locator seg !! "type") as [[ty|n]|];
    destruct (Segment.Locator seg !! "h") as [[hs|hn]|];
    destruct (Segment.Locator seg !! "index") as [[ixs|ixn]|]; simpl;
    split; intros [A B]; split; congruence.
Qed.

Lemma locators_well_typed {collab : Collaborators} (src : string) (before nodes : list Node) :
  Forall (fun raw => snd (Unmarshal_headingLoc raw) = true) (locators src before nodes).
Proof.
  revert before. induction nodes as [|n nodes IH]; intros before; simpl; [constructor|].
  apply Forall_app. split; [|apply IH].
  destruct (dropped src n); [constructor|]. constructor; [|constructor].
  unfold locator_of. destruct (node_kind n); reflexivity.
Qed.

Lemma Ingest_locators_well_typed {collab : Collaborators} (i : Input.t) (out : Output.t) :
  Ingest i = Ok out ->
  Forall (fun seg => snd (Unmarshal_headingLoc (Segment.Locator seg)) = true)
         (Output.Segments out)
  /\ NoDup (map Segment.Ordinal (Output.Segments out)).
Proof.
  intros Hok.
  apply Ingest_Ok_fields in Hok as (_ & _ & _ & _ & _ & _ & _ & _ & _ & Hs).
  apply segment_spec in Hs as (Hloc & Hord). split.
  - pose proof (locators_well_typed
                  (snd (splitFrontmatter (Input.Markdown i))) []
                  (goldmark_Parse (snd (splitFrontmatter (Input.Markdown i))))) as Hwt.
    rewrite <- Hloc in Hwt. by apply Forall_fmap in Hwt.
  - rewrite Hord. apply NoDup_seqZ.
Qed.

Lemma collect_chapters_from (segments : list Segment.t) (acc : list chapter) :
  Forall (fun seg => snd (Unmarshal_headingLoc (Segment.Locator seg)) = true) segments ->
  fold_left chapters_step segments acc
  = acc ++ chapters_from (len acc + 1)
                         (filter (fun sg => is_heading_segment 2 sg) segments).
Proof.
  intros Hwt. revert acc. induction Hwt as [|seg segments Hok _ IH]; intros acc.
  - simpl. by rewrite app_nil_r.
  - simpl fold_left. rewrite IH. rewrite filter_cons.
    assert (Hstep : chapters_step acc seg
                    = if is_heading_segment 2 seg
                      then acc ++ [ {| StartSegOrdinal := Segment.Ordinal seg;
                                       Title := chapter_title (len acc + 1) seg;
                                       SectionOrdinal := len acc + 1; ID := "" |} ]
                      else acc).
    { unfold chapters_step.
      rewrite (surjective_pairing (Unmarshal_headingLoc (Segment.Locator seg))).
      rewrite Hok, (is_heading_unmarshal 2 seg ltac:(lia)). reflexivity. }
    rewrite Hstep.
    destruct (is_heading_segment 2 seg) eqn:H2.
    + rewrite decide_True by exact I.
      rewrite <- app_assoc. simpl. unfold len.
      rewrite length_app. simpl.
      replace (Z.of_nat (length acc + 1) + 1) with (Z.of_nat (length acc) + 1 + 1) by lia.
      reflexivity.
    + rewrite decide_False by (intros []). reflexivity.
Qed.

Lemma chapters_from_lookup (h2 : list Segment.t) (n : Z) (k : nat) (c : chapter) :
  chapters_from n h2 !! k = Some c ->
  exists seg, h2 !! k = Some seg
              /\ StartSegOrdinal c = Segment.Ordinal seg
              /\ Title c = chapter_title (n + Z.of_nat k) seg
              /\ SectionOrdinal c = n + Z.of_nat k.
Proof.
  revert n k. induction h2 as [|seg h2 IH]; intros n k Hc; [by destruct k|].
  destruct k as [|k]; simpl in Hc.
  - inversion Hc; subst c. exists seg. simpl.
    rewrite Z.add_0_r. auto.
  - destruct (IH (n + 1) k Hc) as (sg & Hsg & Hst & Ht & Ho).
    exists sg. simpl. rewrite Hst, Ht, Ho.
    replace (n + 1 + Z.of_nat k) with (n + Z.of_nat (S k)) by lia. auto.
Qed.

Lemma length_chapters_from (h2 : list Segment.t) (n : Z) :
  length (chapters_from n h2) = length h2.
Proof.
  revert n. induction h2 as [|seg h2 IH]; intros n; simpl; [reflexivity|].
  by rewrite IH.
Qed.

Lemma chapters_from_content (h2 : list Segment.t) (n : Z) :
  map (fun c => ("chapter", Some (Title c), SectionOrdinal c)) (chapters_from n h2)
  = imap (fun k seg => ("chapter", Some (chapter_title (n + Z.of_nat k) seg),
                        n + Z.of_nat k)) h2.
Proof.
  revert n. induction h2 as [|seg h2 IH]; intros n; simpl; [reflexivity|].
  rewrite Z.add_0_r. f_equal. rewrite IH. apply imap_ext.
  intros k sg _. simpl.
  replace (n + 1 + Z.of_nat k) with (n + Z.of_nat (S k)) by lia. reflexivity.
Qed.

Lemma heading_levels_exclusive (seg : Segment.t) :
  is_heading_segment 1 seg = true -> is_heading_segment 2 seg = false.
Proof.
  unfold is_heading_segment. intros H1. apply bool_decide_eq_true_1 in H1 as [_ H1].
  apply bool_decide_eq_false_2. intros [_ H2]. congruence.
Qed.

Lemma section_args_no_chapters (m : gmap Z UUID) (segments : list Segment.t)
    (cur : option UUID) :
  section_args true m cur segments = map (fun _ => m !! 1) segments.
Proof.
  revert cur. induction segments as [|seg segments IH]; intros cur; [reflexivity|].
  simpl. by rewrite IH.
Qed.

Lemma section_args_owners (m : gmap Z UUID) (secs : list SectionRow.t)
    (rest : list Segment.t) (c : nat) (cur : option UUID) :
  cur = match c with O => None | S k => SectionRow.id <$> secs !! k end ->
  (forall i seg,
     filter (fun sg => is_heading_segment 2 sg) rest !! i = Some seg ->
     exists r, secs !! (c + i)%nat = Some r
               /\ m !! Segment.Ordinal seg = Some (SectionRow.id r)) ->
  section_args false m cur rest = owners secs c rest.
Proof.
  revert c cur. induction rest as [|seg rest IH]; intros c cur Hcur Hm; [reflexivity|].
  simpl section_args. simpl owners. unfold section_of, owner.
  rewrite (is_heading_unmarshal 1 seg ltac:(lia)), (is_heading_unmarshal 2 seg ltac:(lia)).
  rewrite filter_cons in Hm.
  destruct (is_heading_segment 1 seg) eqn:H1.
  - rewrite (heading_levels_exclusive seg H1) in *. simpl.
    rewrite decide_False in Hm by (intros []).
    f_equal. by apply IH.
  - destruct (is_heading_segment 2 seg) eqn:H2.
    + rewrite decide_True in Hm by exact I.
      destruct (Hm O seg eq_refl) as (r & Hr & Hlook).
      rewrite Nat.add_0_r in Hr. rewrite Hlook. simpl. rewrite Hr. simpl.
      f_equal. apply IH; [by rewrite Hr|].
      intros i sg Hi. specialize (Hm (S i) sg Hi).
      by replace (S c + i)%nat with (c + S i)%nat by lia.
    + rewrite decide_False in Hm by (intros []).
      rewrite <- Hcur.
      destruct cur as [id|]; simpl; f_equal; by apply IH.
Qed.

Lemma chapters_upto_cons (seg : Segment.t) (rest : list Segment.t) (j : nat) :
  chapters_upto (seg :: rest) (S j)
  = ((if is_heading_segment 2 seg then 1 else 0) + chapters_upto rest j)%nat.
Proof.
  unfold chapters_upto. simpl take. rewrite filter_cons.
  destruct (is_heading_segment 2 seg).
  - rewrite decide_True by exact I. reflexivity.
  - rewrite decide_False by (intros []). reflexivity.
Qed.

Lemma chapters_upto_head (seg : Segment.t) (rest : list Segment.t) :
  chapters_upto (seg :: rest) O = if is_heading_segment 2 seg then 1%nat else O.
Proof.
  unfold chapters_upto. simpl take. rewrite take_0, filter_cons.
  destruct (is_heading_segment 2 seg).
  - rewrite decide_True by exact I. reflexivity.
  - rewrite decide_False by (intros []). reflexivity.
Qed.

Lemma owners_lookup (secs : list SectionRow.t) (rest : list Segment.t) (c j : nat) :
  owners secs c rest !! j
  = (fun seg => owner secs (c + chapters_upto rest j) seg) <$> rest !! j.
Proof.
  revert c j. induction rest as [|seg rest IH]; intros c j; [by destruct j|].
  destruct j as [|j]; simpl owners.
  - simpl. rewrite chapters_upto_head.
    destruct (is_heading_segment 2 seg); f_equal; f_equal; lia.
  - simpl lookup. rewrite IH, chapters_upto_cons.
    destruct (rest !! j) as [sg|]; [|reflexivity]. simpl.
    destruct (is_heading_segment 2 seg); f_equal; f_equal; lia.
Qed.

(** Under distinct ordinals the map filled by [insert_sections] sends the
    ordinal of the [k]-th level-2 heading to the [k]-th section row. *)
Lemma sections_of_headings (versionID : UUID) (old secs : list SectionRow.t)
    (m : gmap Z UUID) (seg0 : Segment.t) (h2 : list Segment.t) :
  sections_inserted versionID old (chapters_from 1 (seg0 :: h2)) m secs ->
  NoDup (map Segment.Ordinal (seg0 :: h2)) ->
  map section_content secs
  = imap (fun k seg => ("chapter", Some (chapter_title (Z.of_nat k + 1) seg),
                        Z.of_nat k + 1)) (seg0 :: h2)
  /\ forall i seg,
       (seg0 :: h2) !! i = Some seg ->
       exists r, secs !! i = Some r /\ m !! Segment.Ordinal seg = Some (SectionRow.id r).
Proof.
  intros (_ & _ & _ & Hins) Hnd.
  set (hs := seg0 :: h2) in *.
  assert (Hcs : exists c cs, chapters_from 1 hs = c :: cs) by (simpl; eauto).
  destruct Hcs as (c0 & cs & Hcs). rewrite Hcs in Hins.
  destruct Hins as (Hcont & Hlook & _). rewrite <- Hcs in Hcont, Hlook.
  split.
  - rewrite Hcont, chapters_from_content. apply imap_ext.
    intros k sg _. simpl.
    replace (1 + Z.of_nat k) with (Z.of_nat k + 1) by lia. reflexivity.
  - intros i seg Hi.
    assert (Hlen : length secs = length hs).
    { rewrite <- (length_map section_content), Hcont, length_map.
      apply length_chapters_from. }
    destruct (lookup_lt_is_Some_2 secs i) as [r Hr].
    { rewrite Hlen. by apply lookup_lt_Some in Hi. }
    destruct (lookup_lt_is_Some_2 (chapters_from 1 hs) i) as [c Hc].
    { rewrite length_chapters_from. by apply lookup_lt_Some in Hi. }
    exists r. split; [exact Hr|].
    destruct (chapters_from_lookup hs 1 i c Hc) as (sg & Hsg & Hstart & _).
    rewrite Hi in Hsg. inversion Hsg; subst sg. rewrite <- Hstart.
    apply (Hlook i c r Hc Hr).
    intros j c' Hj Hc' Heq.
    destruct (chapters_from_lookup hs 1 j c' Hc') as (sg' & Hsg' & Hstart' & _).
    rewrite Hstart, Hstart' in Heq.
    assert (Hij : j = i).
    { apply (NoDup_lookup (map Segment.Ordinal hs) j i (Segment.Ordinal seg)).
      - exact Hnd.
      - rewrite list_lookup_fmap, Hsg'. simpl. by rewrite Heq.
      - by rewrite list_lookup_fmap, Hi. }
    lia.
Qed.

Lemma NoDup_filter_ordinals (segments : list Segment.t) (p : Segment.t -> bool) :
  NoDup (map Segment.Ordinal segments) ->
  NoDup (map Segment.Ordinal (filter (fun sg => p sg) segments)).
Proof.
  induction segments as [|seg segments IH]; intros Hnd; [constructor|].
  simpl in Hnd. apply NoDup_cons in Hnd as [Hnot Hnd].
  rewrite filter_cons. destruct (decide (p seg)); [|by apply IH].
  simpl. apply NoDup_cons. split; [|by apply IH].
  intros Hin. apply Hnot.
  apply list_elem_of_fmap in Hin as (sg & Heq & Hsg).
  apply list_elem_of_fmap. exists sg. split; [exact Heq|].
  by apply list_elem_of_filter in Hsg as [_ Hsg].
Qed.

End StoreFacts.

(* ===================================================================== *)
(** ** The scenarios of the specification, run on the embedding *)
(* ===================================================================== *)

Module Scenarios.

Import StoryIngest Model Schema Store StoreSpec.

(** Fresh ingest: version 1, two segments, one implicit section. *)
Example fresh_ingest :
  (r ← fst (AdminDraftUpsert (collab := Demo.demo) empty_db 1 acct fox_request);
   Ok (AdminDraftUpsertResponse.Version r, AdminDraftUpsertResponse.SegmentsCount r))
  = Ok (1, 2)
  /\ map section_content (story_sections after_first) = [("section", None, 1)]
  /\ map SegmentRow.section_id (story_segments after_first) = [Some 1%nat; Some 1%nat]
  /\ map StoryRow.draft_version_id (stories after_first) = [Some 1%nat].
Proof. vm_compute. auto. Qed.

(** Duplicate re-upload: the same version id and number, no new row. *)
Example duplicate_upload :
  fst (AdminDraftUpsert (collab := Demo.demo) after_first 2 acct fox_request)
  = fst (AdminDraftUpsert (collab := Demo.demo) empty_db 1 acct fox_request)
  /\ content_view (snd (AdminDraftUpsert (collab := Demo.demo) after_first 2 acct fox_request))
     = content_view after_first.
Proof. vm_compute. auto. Qed.

(** Content edit after a publish: version 2 is created and becomes the
    draft; the published pointer stays at version 1. *)
Example content_edit :
  let run := AdminDraftUpsert (collab := Demo.demo) after_publish 4 acct
               fox_request_edited in
  (r ← fst run; Ok (AdminDraftUpsertResponse.Version r)) = Ok 2
  /\ map (fun s => (StoryRow.draft_version_id s, StoryRow.published_version_id s))
         (stories (snd run))
     = [(Some 2%nat, Some 1%nat)].
Proof. vm_compute. auto. Qed.

(** Publishing the same version twice: the second call succeeds and the
    pointer is still version 1. *)
Example publish_twice :
  fst (AdminPublish after_publish 5 acct "fox" (uuid_text 1%nat)) = Ok tt
  /\ published_view (snd (AdminPublish after_publish 5 acct "fox" (uuid_text 1%nat)))
     = published_view after_publish.
Proof. vm_compute. auto. Qed.

(** A NUL byte in the manuscript: the server rejects the version row, and
    the story row written before it is rolled back. *)
Example rejected_markdown :
  AdminDraftUpsert (collab := Demo.demo) empty_db 1 acct NUL_request
  = (Err ErrDataException, empty_db).
Proof. vm_compute. reflexivity. Qed.

(** A NUL byte in the title of a re-upload: the server rejects the story
    upsert, and the draft pointer is not touched. *)
Example rejected_title :
  AdminDraftUpsert (collab := Demo.demo) after_first 2 acct fox_request_NUL_title
  = (Err ErrDataException, after_first).
Proof. vm_compute. reflexivity. Qed.

(** An account that is no key. *)
Example rejected_account :
  AdminDraftUpsert (collab := Demo.demo) empty_db 1 "not-a-uuid" fox_request
  = (Err ErrDataException, empty_db).
Proof. vm_compute. reflexivity. Qed.

(** Rights that [json.Marshal] cannot encode: the code sends the empty
    text, which the server rejects. *)
Example rejected_rights :
  AdminDraftUpsert (collab := Demo.demo) empty_db 1 acct fox_request_infinite
  = (Err ErrDataException, empty_db).
Proof. vm_compute. reflexivity. Qed.

(** Publishing a version of another story fails. *)
Example publish_foreign :
  AdminPublish two_story_db 5 acct "owl" (uuid_text 1%nat) = (Err ErrNoRows, two_story_db).
Proof. vm_compute. reflexivity. Qed.

End Scenarios.

(* ===================================================================== *)
(** ** The claims of the specification *)
(* ===================================================================== *)

Import StoryIngest IngestSpec GoStringsFacts IngestFacts.
Import Model Schema Store StoreSpec StoreFacts.

(** C1 (idempotent re-ingest).  When the story addressed by the request
    already has a version whose content hash is the hash of the freshly
    normalized body, [AdminDraftUpsert] adds no row to [story_versions]
    (nor to the sections or segments) and assigns no number, whether it
    returns a response or an error; and when it returns a response, it has
    set the story's draft pointer to such an existing version and the
    response carries that version's id, number and rendered HTML, and as
    segment count the length of the fresh segment list.  Under the unique
    constraint on (story, hash) the version is the one given.  (The call
    returns an error, and writes nothing, when the server rejects a value
    of the story upsert.) *)
Theorem C1_same_content_reuses_version {collab : Collaborators}
    (db : DB) (now : Z) (accountID : string)
    (req : AdminDraftUpsertRequest.t) (ing : Output.t) (v0 : VersionRow.t) :
  let run := AdminDraftUpsert db now accountID req in
  Ingest (upsert_input req) = Ok ing ->
  v0 ∈ story_versions db ->
  VersionRow.story_id v0 = story_id_for db (TrimSpace accountID) (Output.Slug ing) ->
  VersionRow.content_hash v0 = Output.ContentHash ing ->
  story_versions (snd run) = story_versions db
  /\ story_sections (snd run) = story_sections db
  /\ story_segments (snd run) = story_segments db
  /\ forall resp,
       fst run = Ok resp ->
       exists existing s',
         existing ∈ story_versions db
         /\ VersionRow.story_id existing
            = story_id_for db (TrimSpace accountID) (Output.Slug ing)
         /\ VersionRow.content_hash existing = Output.ContentHash ing
         /\ ((forall v, v ∈ story_versions db ->
                        VersionRow.story_id v = VersionRow.story_id v0 ->
                        VersionRow.content_hash v = VersionRow.content_hash v0 -> v = v0) ->
             existing = v0)
         /\ AdminDraftUpsertResponse.StoryVersionID resp = uuid_text (VersionRow.id existing)
         /\ AdminDraftUpsertResponse.Version resp = VersionRow.version existing
         /\ AdminDraftUpsertResponse.RenderedHTML resp = VersionRow.rendered_html existing
         /\ AdminDraftUpsertResponse.SegmentsCount resp
            = Z.of_nat (length (Output.Segments ing))
         /\ story_for (snd run) (TrimSpace accountID) (Output.Slug ing) = Some s'
         /\ uuid_text (StoryRow.id s') = AdminDraftUpsertResponse.StoryID resp
         /\ StoryRow.draft_version_id s' = Some (VersionRow.id existing).
Proof.
  intros run Hing Hin Hsid Hhash.
  assert (Hok : forall resp db',
            run = (Ok resp, db') ->
            content_view db' = content_view db
            /\ exists existing s',
                 existing ∈ story_versions db
                 /\ VersionRow.story_id existing
                    = story_id_for db (TrimSpace accountID) (Output.Slug ing)
                 /\ VersionRow.content_hash existing = Output.ContentHash ing
                 /\ ((forall v, v ∈ story_versions db ->
                                VersionRow.story_id v = VersionRow.story_id v0 ->
                                VersionRow.content_hash v = VersionRow.content_hash v0 ->
                                v = v0) ->
                     existing = v0)
                 /\ AdminDraftUpsertResponse.StoryVersionID resp
                    = uuid_text (VersionRow.id existing)
                 /\ AdminDraftUpsertResponse.Version resp = VersionRow.version existing
                 /\ AdminDraftUpsertResponse.RenderedHTML resp
                    = VersionRow.rendered_html existing
                 /\ AdminDraftUpsertResponse.SegmentsCount resp
                    = Z.of_nat (length (Output.Segments ing))
                 /\ story_for db' (TrimSpace accountID) (Output.Slug ing) = Some s'
                 /\ uuid_text (StoryRow.id s') = AdminDraftUpsertResponse.StoryID resp
                 /\ StoryRow.draft_version_id s' = Some (VersionRow.id existing)).
  { intros resp db' Hrun. subst run.
    apply AdminDraftUpsert_Ok in Hrun as (Hacc & ing' & Hing' & Htx).
    rewrite Hing in Hing'. inversion Hing'; subst ing'; clear Hing'.
    destruct (draft_upsert_tx_Ok now (TrimSpace accountID) ing db _ Htx)
      as (db1 & s1 & Hs1 & Hid & _ & Hcase).
    destruct (find _ (story_versions db)) as [existing|] eqn:Hfind.
    - destruct Hcase as (db'' & Hrun & Hc & Hst).
      rewrite Hrun in Htx. inversion Htx; subst resp db''; clear Htx.
      split; [exact Hc|].
      apply find_some in Hfind as [Hex Hkey].
      apply list_elem_of_In in Hex.
      unfold version_key in Hkey. apply bool_decide_eq_true_1 in Hkey as [Hk1 Hk2].
      exists existing, (set_draft now (VersionRow.id existing) s1).
      split; [exact Hex|]. split; [exact Hk1|]. split; [exact Hk2|].
      split.
      { intros Huniq. apply Huniq; [exact Hex | congruence | congruence]. }
      repeat (split; [reflexivity|]).
      split; [exact (story_for_with_draft _ _ _ _ _ _ _ _ Hs1 Hid Hst)|].
      simpl. split; [by rewrite Hid | reflexivity].
    - exfalso. apply list_elem_of_In in Hin.
      pose proof (find_none _ _ Hfind v0 Hin) as Hno.
      unfold version_key in Hno. apply bool_decide_eq_false_1 in Hno.
      apply Hno. split; assumption. }
  destruct run as [[resp|e] db'] eqn:Hrun; cbn [fst snd].
  - destruct (Hok resp db' eq_refl) as (Hc & Hresp).
    apply content_view_eq in Hc as (Hv & Hse & Hsg).
    split; [exact Hv|]. split; [exact Hse|]. split; [exact Hsg|].
    intros resp' [= <-]. exact Hresp.
  - subst run. apply AdminDraftUpsert_Err in Hrun as ->.
    split; [reflexivity|]. split; [reflexivity|]. split; [reflexivity|].
    intros resp' Hno. discriminate.
Qed.

Lemma C1_same_content_reuses_version_witness :
  exists resp db',
    AdminDraftUpsert (collab := Demo.demo) two_story_db 9 (" " +:+ acct +:+ " ") fox_request
    = (Ok resp, db')
    /\ story_versions db' = [fox_version]
    /\ AdminDraftUpsertResponse.StoryVersionID resp = uuid_text 1%nat
    /\ AdminDraftUpsertResponse.Version resp = 1
    /\ AdminDraftUpsertResponse.SegmentsCount resp = 2.
Proof.
  destruct (AdminDraftUpsert (collab := Demo.demo) two_story_db 9 (" " +:+ acct +:+ " ")
              fox_request) as [[resp|e] db'] eqn:Hrun; [|vm_compute in Hrun; discriminate].
  destruct (C1_same_content_reuses_version (collab := Demo.demo) two_story_db 9
              (" " +:+ acct +:+ " ") fox_request (demo_output fox_request) fox_version)
    as (Hv & _ & _ & Hresp).
  - vm_compute. reflexivity.
  - apply list_elem_of_singleton. reflexivity.
  - vm_compute. reflexivity.
  - vm_compute. reflexivity.
  - rewrite Hrun in Hv, Hresp. cbn [fst snd] in Hv, Hresp.
    destruct (Hresp resp eq_refl)
      as (existing & s' & Hex & _ & _ & _ & Hid & Hver & _ & Hcount & _).
    apply list_elem_of_singleton in Hex. subst existing.
    exists resp, db'. split; [reflexivity|]. split; [exact Hv|].
    split; [exact Hid|]. split; [exact Hver|]. exact Hcount.
Defined.

(** C2 (version numbers).  First part: when [AdminDraftUpsert] returns a
    response and the content hash matched no version of the addressed
    story, it has appended one version row, for this story and this hash,
    whose number is the one it returns: 1 when the story had no version,
    and otherwise one more than the greatest number among the story's
    versions.  Second part: for a story without versions and a sequence of
    ingests that each return a response, each response carries the number
    of the first ingest with the same content hash, a new hash taking the
    next free number, so that re-ingests consume none; afterwards the
    story's versions carry the distinct hashes under the numbers 1, 2, ...
    without a gap; and when the hashes are pairwise distinct the N ingests
    return exactly 1, ..., N.  (An ingest returns an error, and writes
    nothing, when the server rejects a value or the 32-bit version column
    cannot hold the next number.) *)
Theorem C2_version_numbers_are_gapless {collab : Collaborators} :
  (forall (db db' : DB) (now : Z) (accountID : string)
          (req : AdminDraftUpsertRequest.t) (resp : AdminDraftUpsertResponse.t)
          (ing : Output.t),
     let storyID := story_id_for db (TrimSpace accountID) (Output.Slug ing) in
     AdminDraftUpsert db now accountID req = (Ok resp, db') ->
     Ingest (upsert_input req) = Ok ing ->
     (forall v, v ∈ versions_of storyID db ->
                VersionRow.content_hash v <> Output.ContentHash ing) ->
     exists row,
       story_versions db' = story_versions db ++ [row]
       /\ VersionRow.story_id row = storyID
       /\ VersionRow.content_hash row = Output.ContentHash ing
       /\ VersionRow.version row = AdminDraftUpsertResponse.Version resp
       /\ (versions_of storyID db = [] -> AdminDraftUpsertResponse.Version resp = 1)
       /\ (forall v, v ∈ versions_of storyID db ->
                     VersionRow.version v < AdminDraftUpsertResponse.Version resp)
       /\ (versions_of storyID db <> [] ->
           exists v, v ∈ versions_of storyID db
                     /\ AdminDraftUpsertResponse.Version resp = VersionRow.version v + 1))
  /\ (forall (db db' : DB) (now : Z) (accountID slug : string)
             (reqs : list AdminDraftUpsertRequest.t) (ings : list Output.t)
             (resps : list AdminDraftUpsertResponse.t),
        let storyID := story_id_for db (TrimSpace accountID) slug in
        let hashes := map Output.ContentHash ings in
        Forall2 (fun req ing => Ingest (upsert_input req) = Ok ing /\ Output.Slug ing = slug)
                reqs ings ->
        versions_of storyID db = [] ->
        run_upserts db now accountID reqs = (map Ok resps, db') ->
        map AdminDraftUpsertResponse.Version resps = expected_versions [] hashes
        /\ map VersionRow.content_hash (versions_of storyID db') = distinct_after [] hashes
        /\ map VersionRow.version (versions_of storyID db')
           = seqZ 1 (Z.of_nat (length (distinct_after [] hashes)))
        /\ (NoDup hashes ->
            map AdminDraftUpsertResponse.Version resps
            = seqZ 1 (Z.of_nat (length reqs)))).
Proof.
  split.
  - intros db db' now accountID req resp ing storyID Hrun Hing Hnew.
    apply AdminDraftUpsert_Ok in Hrun as (Hacc & ing' & Hing' & Htx).
    rewrite Hing in Hing'. inversion Hing'; subst ing'; clear Hing'.
    destruct (draft_upsert_tx_Ok now (TrimSpace accountID) ing db _ Htx)
      as (db1 & s1 & _ & _ & _ & Hcase).
    fold storyID in Hcase.
    rewrite find_version_key in Hcase. fold (versions_of storyID db) in Hcase.
    destruct (find _ (versions_of storyID db)) as [v|] eqn:Hfind.
    { exfalso. apply find_some in Hfind as [Hin Hkey].
      apply bool_decide_eq_true_1 in Hkey.
      apply (Hnew v); [by apply list_elem_of_In | exact Hkey]. }
    assert (Hmax : forall m, MAX (map VersionRow.version (versions_of storyID db)) = Some m ->
                             exists v, v ∈ versions_of storyID db
                                       /\ VersionRow.version v = m
                                       /\ forall w, w ∈ versions_of storyID db ->
                                                    VersionRow.version w <= m).
    { intros m Hm. apply MAX_spec in Hm as [Hin Hle].
      apply list_elem_of_fmap in Hin as (v & Hv & Hin).
      exists v. split; [exact Hin|]. split; [by rewrite Hv|].
      intros w Hw. apply Hle. apply list_elem_of_fmap. by exists w. }
    destruct Hcase as (m & secs & rows & db'' & Hrun & _ & _ & _ & _ & Hvs & _).
    rewrite Hrun in Htx. inversion Htx; subst resp db''; clear Htx.
    exists (new_version_row db storyID ing).
    split; [exact Hvs|].
    split; [reflexivity|]. split; [reflexivity|]. split; [reflexivity|].
    simpl. unfold next_version_of.
    destruct (MAX (map VersionRow.version (versions_of storyID db))) as [mx|] eqn:Hm; simpl.
    + destruct (Hmax mx eq_refl) as (v & Hin & Hv & Hle).
      split; [intros Hnil; rewrite Hnil in Hin; by apply elem_of_nil in Hin|].
      split; [intros w Hw; specialize (Hle w Hw); lia|].
      intros _. exists v. split; [exact Hin | lia].
    + destruct (versions_of storyID db) as [|w ws] eqn:Hvers; [|discriminate].
      split; [reflexivity|].
      split; [intros w Hw; by apply elem_of_nil in Hw | congruence].
  - intros db db' now accountID slug reqs ings resps storyID hashes Hall Hnone Hrun.
    destruct (run_upserts_numbering now accountID slug reqs ings Hall db db' [] resps)
      as (Hvers & Hhash & Hnum).
    { unfold numbered. fold storyID. rewrite Hnone. by split. }
    { exact Hrun. }
    fold storyID in Hhash, Hnum. fold hashes in Hvers, Hhash, Hnum.
    split; [exact Hvers|]. split; [exact Hhash|]. split; [exact Hnum|].
    intros Hnd. rewrite Hvers, (expected_versions_NoDup [] hashes Hnd).
    simpl. unfold hashes. rewrite length_map.
    by rewrite (Forall2_length _ _ _ Hall).
Qed.

Lemma C2_version_numbers_are_gapless_witness :
  exists resps db',
    run_upserts (collab := Demo.demo) empty_db 3 acct numbering_requests
      = (map Ok resps, db')
    /\ map AdminDraftUpsertResponse.Version resps = [1; 2; 1; 3]
    /\ map VersionRow.version (story_versions db') = [1; 2; 3].
Proof.
  assert (Hrun : exists resps db',
            run_upserts (collab := Demo.demo) empty_db 3 acct numbering_requests
            = (map Ok resps, db')).
  { vm_compute. eexists [_; _; _; _], _. reflexivity. }
  destruct Hrun as (resps & db' & Hrun).
  destruct (proj2 (C2_version_numbers_are_gapless (collab := Demo.demo))
              empty_db db' 3 acct "hare" numbering_requests
              (map demo_output numbering_requests) resps)
    as (Hvers & _ & _ & _).
  - repeat constructor; vm_compute; reflexivity.
  - reflexivity.
  - exact Hrun.
  - exists resps, db'. split; [exact Hrun|]. split.
    + rewrite Hvers. vm_compute. reflexivity.
    + vm_compute in Hrun. inversion Hrun. reflexivity.
Defined.

(** C3 (chapters and sections).  When [AdminDraftUpsert] adds a version,
    it adds these section rows and one segment row per segment, all for
    the new version and the section rows with new, distinct keys.  If the
    segments hold level-2 headings, the sections are one "chapter" per
    level-2 heading, in document order, with ordinals 1, 2, ... and titled
    by the heading's text, or "Chapter N" when that text is blank; a
    level-1 heading belongs to no section, a segment before the first
    level-2 heading belongs to no section, and every other segment belongs
    to the chapter of the latest level-2 heading at or before it.  If the
    segments hold no level-2 heading, there is exactly one section, of kind
    "section", untitled, with ordinal 1, and every segment belongs to it. *)
Theorem C3_chapters_own_their_segments {collab : Collaborators}
    (db db' : DB) (now : Z) (accountID : string)
    (req : AdminDraftUpsertRequest.t) (resp : AdminDraftUpsertResponse.t) :
  AdminDraftUpsert db now accountID req = (Ok resp, db') ->
  story_versions db' <> story_versions db ->
  exists ing versionID secs rows,
    Ingest (upsert_input req) = Ok ing
    /\ uuid_text versionID = AdminDraftUpsertResponse.StoryVersionID resp
    /\ story_sections db' = story_sections db ++ secs
    /\ story_segments db' = story_segments db ++ rows
    /\ Forall (fun r => SectionRow.story_version_id r = versionID) secs
    /\ Forall (fun r => SegmentRow.story_version_id r = versionID) rows
    /\ NoDup (map SectionRow.id secs)
    /\ (forall r, r ∈ secs -> SectionRow.id r ∉ map SectionRow.id (story_sections db))
    /\ map row_content rows = map segment_content (Output.Segments ing)
    /\ match filter (fun sg => is_heading_segment 2 sg) (Output.Segments ing) with
       | [] =>
           exists sec,
             secs = [sec]
             /\ section_content sec = ("section", None, 1)
             /\ Forall (fun r => SegmentRow.section_id r = Some (SectionRow.id sec)) rows
       | h2 =>
           map section_content secs
           = imap (fun k seg => ("chapter", Some (chapter_title (Z.of_nat k + 1) seg),
                                 Z.of_nat k + 1)) h2
           /\ forall j seg row,
                Output.Segments ing !! j = Some seg ->
                rows !! j = Some row ->
                SegmentRow.section_id row
                = owner secs (chapters_upto (Output.Segments ing) j) seg
       end.
Proof.
  intros Hrun Hnew. apply AdminDraftUpsert_Ok in Hrun as (Hacc & ing & Hing & Htx).
  destruct (draft_upsert_tx_Ok now (TrimSpace accountID) ing db _ Htx)
    as (db1 & s1 & _ & _ & _ & Hcase).
  destruct (find _ (story_versions db)) as [existing|].
  { destruct Hcase as (db'' & Hrun & Hc & _).
    rewrite Hrun in Htx. inversion Htx; subst resp db''.
    apply content_view_eq in Hc as (Hv & _). contradiction. }
  destruct Hcase
    as (m & secs & rows & db'' & Hrun & Hins & Hargs & Hcont & Hver & _ & Hse & Hsg & _).
  rewrite Hrun in Htx. inversion Htx; subst resp db''. clear Htx.
  set (sid := story_id_for db (TrimSpace accountID) (Output.Slug ing)) in *.
  exists ing, (VersionRow.id (new_version_row db sid ing)), secs, rows.
  split; [exact Hing|]. split; [reflexivity|]. split; [exact Hse|]. split; [exact Hsg|].
  pose proof Hins as (Hsv & Hnd & Hfresh & _).
  split; [exact Hsv|]. split; [exact Hver|]. split; [exact Hnd|]. split; [exact Hfresh|].
  split; [exact Hcont|].
  destruct (Ingest_locators_well_typed _ _ Hing) as (Hwt & Hord).
  assert (Hch : collect_chapters (Output.Segments ing)
                = chapters_from 1 (filter (fun sg => is_heading_segment 2 sg)
                                          (Output.Segments ing))).
  { unfold collect_chapters. by rewrite (collect_chapters_from _ [] Hwt). }
  rewrite Hch in Hins, Hargs.
  pose proof (NoDup_filter_ordinals (Output.Segments ing) (is_heading_segment 2) Hord)
    as Hnd2.
  destruct (filter (fun sg => is_heading_segment 2 sg) (Output.Segments ing))
    as [|seg0 h2] eqn:Hh2.
  - destruct Hins as (_ & _ & _ & sec & Hsecs & Hsc & Hm).
    exists sec. split; [exact Hsecs|]. split; [exact Hsc|].
    simpl chapters_from in Hargs.
    rewrite bool_decide_eq_true_2 in Hargs by reflexivity.
    rewrite section_args_no_chapters, Hm, lookup_singleton_eq in Hargs.
    apply Forall_forall. intros r Hr. apply list_elem_of_lookup in Hr as [j Hj].
    assert (Hsec : map SegmentRow.section_id rows !! j = Some (SegmentRow.section_id r)).
    { by rewrite list_lookup_fmap, Hj. }
    rewrite Hargs, list_lookup_fmap in Hsec.
    destruct (Output.Segments ing !! j); simpl in Hsec; [|discriminate].
    by inversion Hsec.
  - destruct (sections_of_headings _ _ _ _ _ _ Hins Hnd2) as (Hsc & Hlook).
    split; [exact Hsc|].
    rewrite bool_decide_eq_false_2 in Hargs by (simpl; discriminate).
    rewrite (section_args_owners m secs (Output.Segments ing) O None eq_refl) in Hargs.
    2:{ intros i sg Hi. rewrite Hh2 in Hi. exact (Hlook i sg Hi). }
    intros j seg row Hseg Hrow.
    assert (Hj : map SegmentRow.section_id rows !! j = Some (SegmentRow.section_id row)).
    { by rewrite list_lookup_fmap, Hrow. }
    rewrite Hargs, owners_lookup, Hseg in Hj. simpl in Hj. by inversion Hj.
Qed.

Lemma C3_chapters_own_their_segments_witness :
  exists resp db',
    AdminDraftUpsert (collab := Demo.demo) empty_db 3 acct chapters_request = (Ok resp, db')
    /\ map section_content (story_sections db')
       = [("chapter", Some "The race", 1); ("chapter", Some "Chapter 2", 2)]
    /\ map SegmentRow.section_id (story_segments db')
       = [None; None; Some 1%nat; Some 1%nat; Some 2%nat; Some 2%nat].
Proof.
  destruct (AdminDraftUpsert (collab := Demo.demo) empty_db 3 acct chapters_request)
    as [[resp|e] db'] eqn:Hrun; [|vm_compute in Hrun; discriminate].
  destruct (C3_chapters_own_their_segments empty_db db' 3 acct chapters_request resp Hrun)
    as (ing & vid & secs & rows & Hing & _ & Hse & Hsg & _ & _ & _ & _ & _ & Hown).
  - vm_compute in Hrun. inversion Hrun. discriminate.
  - exists resp, db'. split; [reflexivity|].
    rewrite Hse, Hsg. simpl.
    destruct (filter (fun sg => is_heading_segment 2 sg) (Output.Segments ing))
      as [|seg0 h2] eqn:Hh2.
    { vm_compute in Hing. inversion Hing as [Hval]. rewrite <- Hval in Hh2.
      vm_compute in Hh2. discriminate. }
    destruct Hown as (Hsecs & _). rewrite Hsecs, <- Hh2.
    vm_compute in Hrun. inversion Hrun as [[Hresp Hdb]].
    rewrite <- Hdb in Hsg. simpl in Hsg. rewrite <- Hsg.
    vm_compute in Hing. inversion Hing as [Hval].
    split; vm_compute; reflexivity.
Defined.

(** C4 (publish isolation).  When the version id given to [AdminPublish]
    names no version row of the story found for the account and slug - it
    is unknown, or it is the id of a version of another story -
    [AdminPublish] returns an error ([sql.ErrNoRows], or the argument error
    for a blank argument) and the database it leaves is the database it
    was given: no pointer is moved and no version changes story. *)
Theorem C4_publish_rejects_foreign_version
    (db : DB) (now : Z) (accountID slug versionID : string) :
  (forall s v,
     story_for db (TrimSpace accountID) (TrimSpace slug) = Some s ->
     v ∈ story_versions db ->
     uuid_text (VersionRow.id v) = TrimSpace versionID ->
     VersionRow.story_id v <> StoryRow.id s) ->
  exists e, AdminPublish db now accountID slug versionID = (Err e, db)
            /\ (e = ErrNoRows \/ e = ErrPublishArgsRequired).
Proof.
  intros Hforeign. unfold AdminPublish.
  destruct (decide _) as [_|_]; [eauto|].
  destruct (find (story_key _ _) _) as [s|] eqn:Hs; [|eauto].
  destruct (find (version_of_story _ _) _) as [v|] eqn:Hv; [|eauto].
  exfalso. apply find_some in Hv as [Hin Hkey].
  unfold version_of_story in Hkey. apply bool_decide_eq_true_1 in Hkey as [Htxt Hsid].
  apply (Hforeign s v Hs); [by apply list_elem_of_In | exact Htxt | exact Hsid].
Qed.

Lemma C4_publish_rejects_foreign_version_witness :
  exists e, AdminPublish two_story_db 5 acct "owl" (uuid_text 1%nat) = (Err e, two_story_db)
            /\ (e = ErrNoRows \/ e = ErrPublishArgsRequired).
Proof.
  apply C4_publish_rejects_foreign_version.
  intros s v Hs Hv _. vm_compute in Hs. inversion Hs; subst s.
  apply list_elem_of_singleton in Hv. subst v. simpl. lia.
Defined.

(** C5 (preview and upsert segment alike).  Whenever [AdminDraftUpsert]
    succeeds on a request, [AdminPreview] succeeds on the request's
    markdown and returns the full rendering and, segment by segment, the
    ordinal, locator and rendered HTML that [Ingest] computed for the
    upsert, whatever the slug, title, author, language and source of the
    request are; and the segment rows the upsert adds are either none (the
    content existed already and no version was added) or carry these same
    ordinals, locators and renderings, in order. *)
Theorem C5_preview_matches_upsert {collab : Collaborators}
    (db db' : DB) (now : Z) (accountID : string)
    (req : AdminDraftUpsertRequest.t) (resp : AdminDraftUpsertResponse.t) :
  AdminDraftUpsert db now accountID req = (Ok resp, db') ->
  exists ing prev rows,
    Ingest (upsert_input req) = Ok ing
    /\ AdminPreview
         {| AdminPreviewRequest.Markdown := AdminDraftUpsertRequest.Markdown req |}
       = Ok prev
    /\ AdminPreviewResponse.RenderedHTML prev = Output.RenderedHTML ing
    /\ map admin_view (AdminPreviewResponse.Segments prev)
       = map segment_view (Output.Segments ing)
    /\ story_segments db' = story_segments db ++ rows
    /\ (story_versions db' = story_versions db /\ rows = []
        \/ map row_view rows = map admin_view (AdminPreviewResponse.Segments prev)).
Proof.
  intros Hrun. apply AdminDraftUpsert_Ok in Hrun as (Hacc & ing & Hing & Htx).
  pose proof (Ingest_Ok_checks _ _ Hing) as (_ & _ & _ & Hmd).
  pose proof (Ingest_Ok_fields _ _ Hing) as (_ & _ & _ & _ & _ & _ & _ & Hr & _ & Hs).
  set (pin := {| Input.Slug := "preview"; Input.Title := "Preview"; Input.Author := "";
                 Input.Markdown := AdminDraftUpsertRequest.Markdown req;
                 Input.Language := "en-GB"; Input.SourceURL := "";
                 Input.Rights := None |}).
  destruct (Ingest_accepts pin (Output.RenderedHTML ing) (Output.Segments ing))
    as (pout & Hpout);
    [ vm_compute; discriminate | vm_compute; discriminate | reflexivity
    | exact Hmd | exact Hr | exact Hs | ].
  destruct (Ingest_same_markdown pin (upsert_input req) pout ing eq_refl Hpout Hing)
    as (_ & _ & Hhtml & Hsegs).
  assert (Hprev : AdminPreview
                    {| AdminPreviewRequest.Markdown := AdminDraftUpsertRequest.Markdown req |}
                  = Ok {| AdminPreviewResponse.RenderedHTML := Output.RenderedHTML pout;
                          AdminPreviewResponse.Segments :=
                            map (fun seg =>
                                   {| AdminSegment.Ordinal := Segment.Ordinal seg;
                                      AdminSegment.Locator := Segment.Locator seg;
                                      AdminSegment.RenderedHTML := Segment.RenderedHTML seg |})
                                (Output.Segments pout) |}).
  { unfold AdminPreview. simpl. fold pin. rewrite Hpout. reflexivity. }
  assert (Hview : map admin_view
                    (map (fun seg =>
                            {| AdminSegment.Ordinal := Segment.Ordinal seg;
                               AdminSegment.Locator := Segment.Locator seg;
                               AdminSegment.RenderedHTML := Segment.RenderedHTML seg |})
                         (Output.Segments pout))
                  = map segment_view (Output.Segments ing)).
  { rewrite Hsegs, map_map. reflexivity. }
  destruct (draft_upsert_tx_Ok now (TrimSpace accountID) ing db _ Htx)
    as (db1 & s1 & _ & _ & _ & Hcase).
  destruct (find _ (story_versions db)) as [existing|].
  - destruct Hcase as (db'' & Hrun & Hc & _).
    rewrite Hrun in Htx. inversion Htx; subst resp db''.
    apply content_view_eq in Hc as (Hv & _ & Hsg).
    eexists ing, _, []. split; [exact Hing|]. split; [exact Hprev|].
    simpl. split; [exact Hhtml|]. split; [exact Hview|].
    rewrite app_nil_r. split; [exact Hsg|]. left. auto.
  - destruct Hcase as (m & secs & rows & db'' & Hrun & _ & _ & Hcont & _ & _ & _ & Hsg & _).
    rewrite Hrun in Htx. inversion Htx; subst resp db''.
    eexists ing, _, rows. split; [exact Hing|]. split; [exact Hprev|].
    simpl. split; [exact Hhtml|]. split; [exact Hview|].
    split; [exact Hsg|]. right. rewrite Hview.
    exact (views_of_content rows (Output.Segments ing) Hcont).
Qed.

Lemma C5_preview_matches_upsert_witness :
  exists prev db',
    AdminPreview (collab := Demo.demo)
      {| AdminPreviewRequest.Markdown := AdminDraftUpsertRequest.Markdown fox_request_edited |}
    = Ok prev
    /\ snd (AdminDraftUpsert (collab := Demo.demo) two_story_db 9 acct fox_request_edited) = db'
    /\ map row_view (story_segments db')
       = map admin_view (AdminPreviewResponse.Segments prev)
    /\ map AdminSegment.Ordinal (AdminPreviewResponse.Segments prev) = [1; 2].
Proof.
  destruct (AdminDraftUpsert (collab := Demo.demo) two_story_db 9 acct fox_request_edited)
    as [[resp|e] db'] eqn:Hrun; [|vm_compute in Hrun; discriminate].
  destruct (C5_preview_matches_upsert two_story_db db' 9 acct fox_request_edited resp Hrun)
    as (ing & prev & rows & Hing & Hprev & _ & Hview & Hsg & Hrows).
  exists prev, db'. split; [exact Hprev|]. split; [reflexivity|].
  destruct Hrows as [[Hsame _]|Hrows].
  - vm_compute in Hrun. inversion Hrun as [[Hresp Hdb]]. rewrite <- Hdb in Hsame.
    vm_compute in Hsame. discriminate.
  - simpl in Hsg. rewrite Hsg, Hrows. split; [reflexivity|].
    vm_compute in Hprev. inversion Hprev. reflexivity.
Defined.

(** C6, the claim as stated fails: a top-level block without visible
    text can produce a segment.  The level-2 heading that the parser
    returns for the manuscript [##] has neither text nor source lines, yet
    [Ingest] returns the segment "## " for it, with ordinal 1. *)
Lemma C6_empty_heading_yields_segment :
  goldmark_Parse (Collaborators := Demo.demo) "##" = [empty_heading]
  /\ (forall collab : Collaborators,
        textContent "##" empty_heading = Ok ""
        /\ extractBlockSource "##" empty_heading = Ok ""
        /\ forall out, goldmark_Parse "##" = [empty_heading] ->
                       Ingest empty_heading_input = Ok out ->
                       map (fun sg => (Segment.Ordinal sg, Segment.Markdown sg))
                           (Output.Segments out) = [(1, "## ")])
  /\ exists out, Ingest (collab := Demo.demo) empty_heading_input = Ok out.
Proof.
  split; [vm_compute; reflexivity|]. split.
  - intros collab. split; [reflexivity|]. split; [reflexivity|].
    intros out Hparse Hok.
    apply Ingest_Ok_fields in Hok as (_ & _ & _ & _ & _ & _ & _ & _ & _ & Hs).
    change (snd (splitFrontmatter (Input.Markdown empty_heading_input))) with "##" in Hs.
    unfold segment in Hs. rewrite Hparse in Hs. simpl in Hs.
    inversion Hs. reflexivity.
  - eexists. vm_compute. reflexivity.
Qed.

(** C6 (segment ordinals and locators), amended.  For every accepted
    input the ordinals of the returned segments are 1, 2, ..., their
    number, in the order of the top-level blocks of the stripped body; the
    segments correspond, in order, to the blocks that yield one; a
    heading's locator carries its level and the number of headings before
    it, a paragraph's one more than the number of paragraphs before it, any
    other block's its kind.  Every heading and every paragraph yields a
    segment, also without visible text; a block of another kind yields
    none when it has no visible text, and yields one when its own lines
    hold text.  (Nothing is said of a block of another kind whose text is
    held by the blocks below it only.) *)
Theorem C6_segment_ordinals_and_locators {collab : Collaborators}
    (i : Input.t) (out : Output.t) :
  Ingest i = Ok out ->
  let body := Output.Markdown out in
  let blocks := goldmark_Parse body in
  let segments := Output.Segments out in
  map Segment.Ordinal segments = seqZ 1 (Z.of_nat (length segments))
  /\ exists keep : Node -> bool,
       map Segment.Locator segments = kept_locators keep [] blocks
       /\ (forall n, is_heading_node n = true \/ is_paragraph_node n = true ->
                     keep n = true)
       /\ (forall n, is_heading_node n = false -> is_paragraph_node n = false ->
                     no_visible_text body n -> keep n = false)
       /\ (forall n md, is_heading_node n = false -> is_paragraph_node n = false ->
                        extractBlockSource body n = Ok md -> TrimSpace md <> "" ->
                        keep n = true).
Proof.
  intros Hok body blocks segments.
  apply Ingest_Ok_fields in Hok as (_ & _ & _ & _ & _ & _ & Hbody & _ & _ & Hs).
  fold body in Hbody. rewrite <- Hbody in Hs.
  destruct (segment_spec body segments Hs) as (Hloc & Hord).
  split; [exact Hord|].
  exists (fun n => negb (dropped body n)).
  split; [by rewrite Hloc, locators_kept|]. split; [|split].
  - intros n Hn. unfold dropped. by destruct Hn as [-> | ->]; rewrite ?andb_false_r.
  - intros n Hh Hp Hno. by rewrite (no_visible_text_dropped body n Hh Hp Hno).
  - intros n md Hh Hp Hmd Hne. unfold dropped. rewrite Hmd.
    by rewrite (bool_decide_eq_false_2 _ Hne), andb_false_r.
Qed.

Lemma C6_segment_ordinals_and_locators_witness :
  exists out,
    Ingest (collab := Demo.demo) blocks_input = Ok out
    /\ map node_kind (goldmark_Parse (Collaborators := Demo.demo) (Output.Markdown out))
       = [ KHeading 1; KOther "*ast.ThematicBreak"; KOther "*ast.HTMLBlock"; KParagraph ]
    /\ map Segment.Ordinal (Output.Segments out) = [1; 2; 3]
    /\ map Segment.Locator (Output.Segments out)
       = [ {[ "type" := JStr "heading"; "h" := JInt 1; "index" := JInt 0 ]};
           {[ "type" := JStr "block"; "kind" := JStr "*ast.HTMLBlock" ]};
           {[ "type" := JStr "para"; "n" := JInt 1 ]} ].
Proof.
  destruct (Ingest (collab := Demo.demo) blocks_input) as [out|e] eqn:Hok;
    [|vm_compute in Hok; discriminate].
  destruct (C6_segment_ordinals_and_locators (collab := Demo.demo) blocks_input out Hok)
    as (Hord & keep & Hloc & Hhp & Hnone & Hown).
  exists out. split; [reflexivity|]. rewrite Hord, Hloc.
  vm_compute in Hok. injection Hok as <-.
  match goal with
  | |- context [goldmark_Parse ?b] =>
      let v := eval vm_compute in (goldmark_Parse (Collaborators := Demo.demo) b) in
      assert (Hparse : goldmark_Parse (Collaborators := Demo.demo) b = v)
        by (vm_compute; reflexivity);
      rewrite Hparse; clear Hparse
  end.
  split; [reflexivity|]. split; [vm_compute; reflexivity|].
  cbn [kept_locators app].
  rewrite (Hhp (MkNode (KHeading 1) _ _)) by (left; reflexivity).
  rewrite (Hnone (MkNode (KOther "*ast.ThematicBreak") [] []));
    [|reflexivity|reflexivity|constructor].
  rewrite (Hown (MkNode (KOther "*ast.HTMLBlock") _ _) "<hr class=x>");
    [|reflexivity|reflexivity|vm_compute; reflexivity|vm_compute; discriminate].
  rewrite (Hhp (MkNode KParagraph _ _)) by (right; reflexivity).
  vm_compute. reflexivity.
Defined.

(** C7 (title fallback).  The claim does not hold of the code: [Ingest]
    tests the explicit title before it splits the frontmatter off, so a
    manuscript with a blank explicit title is rejected with "title is
    required" although its frontmatter block supplies the title "Fox"; the
    fallback assignment for the title that follows the split is never
    reached with an empty title. *)
Theorem C7_blank_title_rejected_before_frontmatter :
  fst (splitFrontmatter (collab := Demo.demo) (Input.Markdown titled_by_frontmatter))
    !! "title" = Some (AString "Fox")
  /\ forall collab : Collaborators,
       Ingest titled_by_frontmatter = Err ErrTitleRequired.
Proof.
  split; [vm_compute; reflexivity|].
  intros collab. apply Ingest_blank_title. reflexivity.
Qed.

(** C8 (the published pointer is not written).  After a successful
    [AdminDraftUpsert] every row of [stories] that existed before has the
    published pointer and the published flag it had before; the only row
    that can be added is the row of a newly created story, whose published
    pointer is NULL.  The addressed story's draft pointer is the version
    the call returns. *)
Theorem C8_upsert_keeps_published_pointer {collab : Collaborators}
    (db db' : DB) (now : Z) (accountID : string)
    (req : AdminDraftUpsertRequest.t) (resp : AdminDraftUpsertResponse.t) :
  AdminDraftUpsert db now accountID req = (Ok resp, db') ->
  exists ing s' versionID,
    Ingest (upsert_input req) = Ok ing
    /\ story_for db' (TrimSpace accountID) (Output.Slug ing) = Some s'
    /\ uuid_text (StoryRow.id s') = AdminDraftUpsertResponse.StoryID resp
    /\ StoryRow.draft_version_id s' = Some versionID
    /\ uuid_text versionID = AdminDraftUpsertResponse.StoryVersionID resp
    /\ match story_for db (TrimSpace accountID) (Output.Slug ing) with
       | Some s =>
           published_view db' = published_view db
           /\ StoryRow.id s' = StoryRow.id s
           /\ StoryRow.published_version_id s' = StoryRow.published_version_id s
           /\ StoryRow.is_published s' = StoryRow.is_published s
       | None =>
           published_view db' = published_view db ++ [(StoryRow.id s', None, false)]
           /\ StoryRow.published_version_id s' = None
           /\ StoryRow.is_published s' = false
       end.
Proof.
  intros Hrun. apply AdminDraftUpsert_Ok in Hrun as (Hacc & ing & Hing & Htx).
  exists ing.
  destruct (draft_upsert_tx_Ok now (TrimSpace accountID) ing db _ Htx)
    as (db1 & s1 & Hs1 & Hid & Hpub & Hcase).
  assert (Hfinal : forall versionID,
            stories db' = stories_with_draft now
                            (story_id_for db (TrimSpace accountID) (Output.Slug ing))
                            versionID (stories db1) ->
            uuid_text versionID = AdminDraftUpsertResponse.StoryVersionID resp ->
            uuid_text (story_id_for db (TrimSpace accountID) (Output.Slug ing))
              = AdminDraftUpsertResponse.StoryID resp ->
            exists s' versionID,
              Ingest (upsert_input req) = Ok ing
              /\ story_for db' (TrimSpace accountID) (Output.Slug ing) = Some s'
              /\ uuid_text (StoryRow.id s') = AdminDraftUpsertResponse.StoryID resp
              /\ StoryRow.draft_version_id s' = Some versionID
              /\ uuid_text versionID = AdminDraftUpsertResponse.StoryVersionID resp
              /\ match story_for db (TrimSpace accountID) (Output.Slug ing) with
                 | Some s =>
                     published_view db' = published_view db
                     /\ StoryRow.id s' = StoryRow.id s
                     /\ StoryRow.published_version_id s' = StoryRow.published_version_id s
                     /\ StoryRow.is_published s' = StoryRow.is_published s
                 | None =>
                     published_view db' = published_view db ++ [(StoryRow.id s', None, false)]
                     /\ StoryRow.published_version_id s' = None
                     /\ StoryRow.is_published s' = false
                 end).
  { intros versionID Hst Hvid Hsid.
    exists (set_draft now versionID s1), versionID.
    split; [exact Hing|].
    split; [exact (story_for_with_draft _ _ _ _ _ _ _ _ Hs1 Hid Hst)|].
    simpl. split; [by rewrite Hid|]. split; [reflexivity|]. split; [exact Hvid|].
    rewrite (published_view_with_draft _ _ _ _ _ Hst).
    destruct (story_for db (TrimSpace accountID) (Output.Slug ing)) as [s|] eqn:Hs.
    - destruct Hpub as (Hp & Hpp & Hpf).
      split; [exact Hp|]. split; [|split; assumption].
      rewrite Hid. by apply story_id_for_Some.
    - destruct Hpub as (Hp & Hpp & Hpf). rewrite Hid.
      split; [exact Hp|]. split; assumption. }
  destruct (find _ (story_versions db)) as [existing|].
  - destruct Hcase as (db'' & Hrun & _ & Hst).
    rewrite Hrun in Htx. inversion Htx; subst resp db''.
    apply (Hfinal (VersionRow.id existing) Hst); reflexivity.
  - destruct Hcase as (m & secs & rows & db'' & Hrun & _ & _ & _ & _ & _ & _ & _ & Hst).
    rewrite Hrun in Htx. inversion Htx; subst resp db''.
    apply (Hfinal _ Hst); reflexivity.
Qed.

Lemma C8_upsert_keeps_published_pointer_witness :
  exists db',
    snd (AdminDraftUpsert (collab := Demo.demo) two_story_db 9 acct fox_request_edited) = db'
    /\ published_view db' = published_view two_story_db
    /\ map StoryRow.draft_version_id (stories db') = [Some 2%nat; None].
Proof.
  destruct (AdminDraftUpsert (collab := Demo.demo) two_story_db 9 acct fox_request_edited)
    as [[resp|e] db'] eqn:Hrun; [|vm_compute in Hrun; discriminate].
  destruct (C8_upsert_keeps_published_pointer two_story_db db' 9 acct
              fox_request_edited resp Hrun)
    as (ing & s' & vid & Hing & Hs' & _ & _ & _ & Hpub).
  vm_compute in Hing. inversion Hing; subst ing; clear Hing.
  change (story_for two_story_db (TrimSpace acct) _) with (Some fox_story) in Hpub.
  destruct Hpub as (Hp & _).
  exists db'. split; [reflexivity|]. split; [exact Hp|].
  vm_compute in Hrun. inversion Hrun. reflexivity.
Defined.

(** C9, the claim as stated fails: for the manuscript of the first
    scenario, which has no source URL and no frontmatter, [Ingest]
    succeeds and the returned frontmatter map has no key "sourceUrl". *)
Lemma C9_sourceUrl_key_absent :
  (exists out, Ingest (collab := Demo.demo) fox_input = Ok out)
  /\ forall (collab : Collaborators) (out : Output.t),
       Ingest fox_input = Ok out -> Output.Frontmatter out !! "sourceUrl" = None.
Proof.
  split.
  - eexists. vm_compute. reflexivity.
  - intros collab out Hok.
    apply Ingest_Ok_fields in Hok as (_ & _ & _ & _ & _ & Hfm & _).
    rewrite Hfm. reflexivity.
Qed.

(** C9 (frontmatter merge), amended.  For every accepted input the
    returned frontmatter map has the keys title, author and language, bound
    to the resolved title, author and language; it has the key sourceUrl
    bound to the resolved source URL whenever that URL is not blank, and
    otherwise the key is what the parsed frontmatter block says (absent if
    the block has none); every other key is bound as in the block.  An
    explicit title, author, language or source URL wins over the block. *)
Theorem C9_frontmatter_merge {collab : Collaborators} (i : Input.t) (out : Output.t) :
  Ingest i = Ok out ->
  let fm := fst (splitFrontmatter (Input.Markdown i)) in
  let F := Output.Frontmatter out in
  F !! "title" = Some (AString (Output.Title out))
  /\ F !! "author" = Some (AString (Output.Author out))
  /\ F !! "language" = Some (AString (Output.Language out))
  /\ F !! "sourceUrl" = match Output.Source out !! "url" with
                        | Some u => Some u
                        | None => fm !! "sourceUrl"
                        end
  /\ (forall k, k <> "title" -> k <> "author" -> k <> "language" -> k <> "sourceUrl" ->
                F !! k = fm !! k)
  /\ Output.Title out = TrimSpace (Input.Title i)
  /\ (TrimSpace (Input.Author i) <> "" -> Output.Author out = TrimSpace (Input.Author i))
  /\ (Input.Language i <> "" -> Output.Language out = Input.Language i)
  /\ (TrimSpace (Input.SourceURL i) <> "" ->
      Output.Source out !! "url" = Some (AString (TrimSpace (Input.SourceURL i)))).
Proof.
  intros Hok fm F.
  pose proof (Ingest_Ok_checks i out Hok) as (Ht & _).
  apply Ingest_Ok_fields in Hok
    as (_ & Htitle & Hauthor & Hlang & Hsrc & Hfm & _).
  fold fm in Htitle, Hauthor, Hlang, Hsrc, Hfm.
  subst F. rewrite Hfm, Hsrc.
  set (url := fallback fm "sourceUrl" (Input.SourceURL i)) in *.
  repeat split.
  - rewrite merge_frontmatter_lookup.
    destruct (decide (TrimSpace url = "")); by simplify_map_eq.
  - rewrite merge_frontmatter_lookup.
    destruct (decide (TrimSpace url = "")); by simplify_map_eq.
  - rewrite merge_frontmatter_lookup.
    destruct (decide (TrimSpace url = "")); by simplify_map_eq.
  - rewrite merge_frontmatter_lookup.
    destruct (decide (TrimSpace url = "")); by simplify_map_eq.
  - intros k H1 H2 H3 H4. rewrite merge_frontmatter_lookup.
    destruct (decide (TrimSpace url = "")); by simplify_map_eq.
  - rewrite Htitle. by apply fallback_nonempty.
  - intros Ha. rewrite Hauthor. by apply fallback_nonempty.
  - intros Hl. rewrite (fallback_nonempty fm "language" _ Hl) in Hlang.
    cbv zeta in Hlang. rewrite Hlang. destruct (decide (Input.Language i = "")); [contradiction | reflexivity].
  - intros Hu.
    assert (Hne : Input.SourceURL i <> "").
    { intros Heq. apply Hu. rewrite Heq. reflexivity. }
    subst url. rewrite (fallback_nonempty fm "sourceUrl" _ Hne).
    destruct (decide (TrimSpace (Input.SourceURL i) = "")); [contradiction|].
    by simplify_map_eq.
Qed.

Lemma C9_frontmatter_merge_witness :
  exists out,
    Ingest (collab := Demo.demo) tagged_input = Ok out
    /\ Output.Frontmatter out !! "title" = Some (AString "Fox")
    /\ Output.Frontmatter out !! "author" = Some (AString "Aesop")
    /\ Output.Frontmatter out !! "tags" = Some (AString "bedtime")
    /\ Output.Frontmatter out !! "sourceUrl" = Some (AString "https://example.org/fox").
Proof.
  destruct (Ingest (collab := Demo.demo) tagged_input) as [out|e] eqn:Hok;
    [|vm_compute in Hok; discriminate].
  destruct (C9_frontmatter_merge tagged_input out Hok)
    as (Ht & Ha & _ & Hu & Hk & Htitle & Hauthor & _).
  exists out. split; [reflexivity|].
  rewrite Ht, Ha, Hu, Htitle, (Hauthor ltac:(vm_compute; discriminate)),
    (Hk "tags" ltac:(discriminate) ltac:(discriminate) ltac:(discriminate)
        ltac:(discriminate)).
  vm_compute in Hok. inversion Hok. vm_compute. auto.
Defined.

(** C10 (unclosed frontmatter).  When the manuscript, after its leading
    white space, begins with a "---" delimiter line and no later line is
    "---", an accepted [Ingest] takes the whole original text as the body:
    the returned markdown, the content hash, the full rendering and the
    segmentation are those of the whole text, and the frontmatter map holds
    the caller's own fields only.  The hash is thus taken over the
    delimiter too: a manuscript with a shorter text (the same text without
    the delimiter line, say) has another content hash, unless SHA-256
    collides on the two bodies. *)
Theorem C10_unclosed_frontmatter_is_body {collab : Collaborators}
    (i : Input.t) (out : Output.t) :
  let md := Input.Markdown i in
  let s := TrimLeft md bom_space_runes in
  let explicit : gmap string any :=
    {[ "title" := AString (TrimSpace (Input.Title i));
       "author" := AString (TrimSpace (Input.Author i));
       "language" := AString (if decide (Input.Language i = "") then "en-GB"
                              else Input.Language i) ]} in
  HasPrefix s ("---" +:+ String LF "") = true
  \/ HasPrefix s ("---" +:+ String CR (String LF "")) = true ->
  (forall k l, (1 <= k)%nat -> Split s LF !! k = Some l -> TrimSpace l <> "---") ->
  Ingest i = Ok out ->
  splitFrontmatter md = (∅, md)
  /\ Output.Markdown out = md
  /\ Output.ContentHash out = sha256_hex md
  /\ render md = Ok (Output.RenderedHTML out)
  /\ segment md = Ok (Output.Segments out)
  /\ Output.Frontmatter out
     = (if decide (TrimSpace (Input.SourceURL i) = "") then explicit
        else <[ "sourceUrl" := AString (TrimSpace (Input.SourceURL i)) ]> explicit)
  /\ (forall (i' : Input.t) (out' : Output.t),
        Ingest i' = Ok out' ->
        (String.length (Input.Markdown i') < String.length md)%nat ->
        (sha256_hex (Output.Markdown out') = sha256_hex md -> Output.Markdown out' = md) ->
        Output.ContentHash out' <> Output.ContentHash out).
Proof.
  intros md s explicit _ Hopen Hok.
  pose proof (splitFrontmatter_unclosed md Hopen) as Hsplit.
  pose proof (Ingest_Ok_fields i out Hok)
    as (_ & Htitle & Hauthor & Hlang & _ & Hfm & Hbody & Hr & Hh & Hs).
  fold md in Htitle, Hauthor, Hlang, Hfm, Hbody, Hr, Hh, Hs.
  rewrite Hsplit in *. simpl in *.
  rewrite !fallback_empty_map in *.
  split; [reflexivity|]. split; [exact Hbody|]. split; [exact Hh|].
  split; [exact Hr|]. split; [exact Hs|]. split.
  - rewrite Hfm, merge_frontmatter_empty, Htitle, Hauthor, Hlang. reflexivity.
  - intros i' out' Hok' Hshort Hinj Heq.
    pose proof (Ingest_Ok_fields i' out' Hok')
      as (_ & _ & _ & _ & _ & _ & Hbody' & _ & Hh' & _).
    pose proof (length_splitFrontmatter_body (Input.Markdown i')) as Hlen.
    rewrite <- Hbody' in Hlen, Hh'.
    rewrite Hh, Hh' in Heq. apply Hinj in Heq. rewrite Heq in Hlen. lia.
Qed.

Lemma C10_unclosed_frontmatter_is_body_witness :
  exists out out',
    Ingest (collab := Demo.demo) unclosed_input = Ok out
    /\ Ingest (collab := Demo.demo) undelimited_input = Ok out'
    /\ Output.Markdown out = Input.Markdown unclosed_input
    /\ Output.Frontmatter out !! "title" = Some (AString "Fox")
    /\ Output.ContentHash out' <> Output.ContentHash out.
Proof.
  destruct (Ingest (collab := Demo.demo) unclosed_input) as [out|e] eqn:Hok;
    [|vm_compute in Hok; discriminate].
  destruct (Ingest (collab := Demo.demo) undelimited_input) as [out'|e] eqn:Hok';
    [|vm_compute in Hok'; discriminate].
  destruct (C10_unclosed_frontmatter_is_body (collab := Demo.demo) unclosed_input out)
    as (_ & Hbody & _ & _ & _ & Hfm & Hid).
  - left. vm_compute. reflexivity.
  - intros k l Hk Hl.
    change (Split (TrimLeft (Input.Markdown unclosed_input) bom_space_runes) LF)
      with ["---"; "title: Vixen"; ""; "Once upon a time."] in Hl.
    destruct k as [|[|[|[|k]]]]; simpl in Hl; [lia| | | |discriminate];
      inversion Hl; subst l; vm_compute; discriminate.
  - exact Hok.
  - exists out, out'. split; [reflexivity|]. split; [reflexivity|].
    split; [exact Hbody|]. split.
    + rewrite Hfm. vm_compute. reflexivity.
    + apply (Hid undelimited_input out' Hok').
      * vm_compute. lia.
      * intros Heq. exfalso. vm_compute in Hok'. injection Hok' as <-.
        vm_compute in Heq. discriminate.
Defined.
